(** * auraverse ETL core: fragment extraction, type inference, storage
      decision, schema registry and normalization, embedded from the Python
      sources (src/etl/parser.py, schema_generator.py, schema_infer.py,
      schema_registry.py, transformer.py, sqlite_utils.py and the candidate
      documents of src/app/api/upload.py). *)

From Stdlib Require Import Ascii String DecimalString.
From Stdlib Require Strings.Byte.
From Stdlib Require Import List Bool Arith NArith ZArith QArith Lia.
From Stdlib Require Import Sorted Permutation.
Import ListNotations.

Set Implicit Arguments.
Local Open Scope N_scope.

(** ** Python [str]: a sequence of Unicode code points *)

Definition str := list N.

(** An ASCII literal as a Python string. *)
Definition txt (s : string) : str := map N_of_ascii (list_ascii_of_string s).

Fixpoint str_eqb (a b : str) : bool :=
  match a, b with
  | [], [] => true
  | x :: a', y :: b' => (x =? y) && str_eqb a' b'
  | _, _ => false
  end.

Definition in_range (lo hi c : N) : bool := (lo <=? c) && (c <=? hi).

Definition LF : N := 10.
Definition CR : N := 13.
Definition SPACE : N := 32.
Definition COMMA : N := 44.
Definition COLON : N := 58.
Definition DQUOTE : N := 34.
Definition UNDERSCORE : N := 95.
Definition DASH : N := 45.

(** [str.isspace] / the regex class [\s] on [str] patterns. *)
Definition is_space (c : N) : bool :=
  in_range 9 13 c || in_range 28 32 c || (c =? 133) || (c =? 160)
  || (c =? 5760) || in_range 8192 8202 c || (c =? 8232) || (c =? 8233)
  || (c =? 8239) || (c =? 8287) || (c =? 12288).

(** Line boundaries recognised by [str.splitlines]. *)
Definition is_linebreak (c : N) : bool :=
  in_range 10 13 c || in_range 28 30 c || (c =? 133) || (c =? 8232) || (c =? 8233).

Definition is_upper_ascii (c : N) : bool := in_range 65 90 c.
Definition is_lower_ascii (c : N) : bool := in_range 97 122 c.
Definition is_digit_ascii (c : N) : bool := in_range 48 57 c.
Definition is_alpha_ascii (c : N) : bool := is_upper_ascii c || is_lower_ascii c.

(** The Unicode tables of the interpreter for the code points above ASCII
    are taken as parameters. *)
Class UnicodeTables := {
  lower_nonascii : N -> list N;      (* lower-case mapping above ASCII *)
  decimal_nonascii : N -> bool       (* decimal digits (category Nd) above ASCII *)
}.

(** The tables restricted to ASCII: no case and no digits above it. *)
Definition ascii_tables : UnicodeTables :=
  {| lower_nonascii := fun c => [c]; decimal_nonascii := fun _ => false |}.

Section StrOps.
Context {U : UnicodeTables}.

Definition lower_char (c : N) : list N :=
  if is_upper_ascii c then [c + 32]
  else if c <? 128 then [c]
  else lower_nonascii c.

(** [s.lower()] *)
Definition lower (s : str) : str := flat_map lower_char s.
End StrOps.

Fixpoint dropwhile (p : N -> bool) (s : str) : str :=
  match s with
  | [] => []
  | c :: s' => if p c then dropwhile p s' else s
  end.

Definition lstrip (s : str) : str := dropwhile is_space s.
Definition rstrip (s : str) : str := rev (dropwhile is_space (rev s)).

(** [s.strip()] *)
Definition strip (s : str) : str := rstrip (lstrip s).

(** [sep.join(parts)] *)
Fixpoint join (sep : str) (parts : list str) : str :=
  match parts with
  | [] => []
  | [p] => p
  | p :: ps => p ++ sep ++ join sep ps
  end.

(** [s.count(c)] for a one-character needle. *)
Definition count_char (c : N) (s : str) : nat := length (filter (N.eqb c) s).

Definition mem_char (c : N) (s : str) : bool := existsb (N.eqb c) s.

(** [s.split(c, 1)] on a string that contains [c]: the text before the first
    occurrence and the text after it. *)
Fixpoint split_first (c : N) (s : str) : str * str :=
  match s with
  | [] => ([], [])
  | x :: s' => if x =? c then ([], s')
               else let (a, b) := split_first c s' in (x :: a, b)
  end.

(** [s.splitlines()]: [cur] is the current line, reversed. *)
Fixpoint splitlines_aux (cur : str) (s : str) : list str :=
  match s with
  | [] => match cur with [] => [] | _ => [rev cur] end
  | c :: s' =>
      if is_linebreak c then
        rev cur :: (if c =? CR
                    then match s' with
                         | d :: s'' => if d =? LF then splitlines_aux [] s''
                                       else splitlines_aux [] s'
                         | [] => splitlines_aux [] s'
                         end
                    else splitlines_aux [] s')
      else splitlines_aux (c :: cur) s'
  end.

Definition splitlines (s : str) : list str := splitlines_aux [] s.

(** [re.sub(r'[class]+', rep, s)]: every maximal run of characters of the
    class is replaced by [rep]. *)
Fixpoint sub_runs_aux (p : N -> bool) (rep : str) (in_run : bool) (s : str) : str :=
  match s with
  | [] => []
  | c :: s' =>
      if p c then (if in_run then [] else rep) ++ sub_runs_aux p rep true s'
      else c :: sub_runs_aux p rep false s'
  end.

Definition sub_runs (p : N -> bool) (rep : str) (s : str) : str :=
  sub_runs_aux p rep false s.

(** ** parser.py *)

(** [_RE_CONTROL = [\x00-\x08\x0e-\x1f\x7f-\x9f]+] *)
Definition is_control (c : N) : bool :=
  in_range 0 8 c || in_range 14 31 c || in_range 127 159 c.

(** [_RE_LONG_TOKEN = \S{120,}] substituted by one space: a maximal run of
    non-whitespace of length at least 120 becomes [" "]; [tok] is the current
    run, reversed. *)
Definition flush_token (tok : str) : str :=
  if (120 <=? length tok)%nat then [SPACE] else rev tok.

Fixpoint sub_long_tokens_aux (tok : str) (s : str) : str :=
  match s with
  | [] => match tok with [] => [] | _ => flush_token tok end
  | c :: s' =>
      if is_space c
      then (match tok with [] => [] | _ => flush_token tok end)
             ++ c :: sub_long_tokens_aux [] s'
      else sub_long_tokens_aux (c :: tok) s'
  end.

Definition sub_long_tokens (s : str) : str := sub_long_tokens_aux [] s.

Definition replace_char (a b : N) (s : str) : str :=
  map (fun c => if c =? a then b else c) s.

Definition _clean_text (raw : str) : str :=
  let text := sub_runs is_control [SPACE] raw in
  let text := replace_char CR LF text in
  let text := sub_long_tokens text in
  strip (sub_runs is_space [SPACE] text).


(** ** Python values and dictionaries *)

(** A [dict] keeps insertion order; assigning to an existing key replaces
    the value in place, assigning to a new key appends. *)
Definition dict (V : Type) := list (str * V).

Section Dict.
Variable V : Type.

Fixpoint dict_get (k : str) (d : dict V) : option V :=
  match d with
  | [] => None
  | (k', v) :: d' => if str_eqb k k' then Some v else dict_get k d'
  end.

Definition dict_mem (k : str) (d : dict V) : bool :=
  match dict_get k d with Some _ => true | None => false end.

Fixpoint dict_set (k : str) (v : V) (d : dict V) : dict V :=
  match d with
  | [] => [(k, v)]
  | (k', v') :: d' => if str_eqb k k' then (k', v) :: d'
                      else (k', v') :: dict_set k v d'
  end.

Definition dict_keys (d : dict V) : list str := map fst d.
Definition dict_values (d : dict V) : list V := map snd d.

(** [{k: v for k, v in pairs}] *)
Definition dict_of_pairs (pairs : list (str * V)) : dict V :=
  fold_left (fun d kv => dict_set (fst kv) (snd kv) d) pairs [].
End Dict.

Set Warnings "-register-all".

Inductive pyfloat := Fnan | Finf (negative : bool) | Ffin (q : Q).

(** The closed variant of the values the pipeline handles (what [json.loads]
    yields, plus the strings of the table and key:value extractors). *)
Inductive pyval :=
| PNone
| PBool (b : bool)
| PInt (z : Z)
| PFloat (f : pyfloat)
| PStr (s : str)
| PList (l : list pyval)
| PDict (d : list (str * pyval)).

Definition pydict := dict pyval.

Definition is_dict (v : pyval) : bool := match v with PDict _ => true | _ => false end.
Definition is_list (v : pyval) : bool := match v with PList _ => true | _ => false end.

(** [[d for d in xs if isinstance(d, dict)]] *)
Fixpoint only_dicts (xs : list pyval) : list pydict :=
  match xs with
  | [] => []
  | PDict d :: xs' => d :: only_dicts xs'
  | _ :: xs' => only_dicts xs'
  end.

(** [str(n)] for a non-negative integer. *)
Definition str_of_nat (n : nat) : str := txt (NilZero.string_of_uint (Nat.to_uint n)).

(** The libraries the extractor delegates to: the JSON decoder, the UTF-8
    decoder with [errors="ignore"], pdfminer, and BeautifulSoup reduced to what
    [extract_html_tables] reads from it (per [<table>], per [<tr>], the
    stripped texts of its [td]/[th] cells). [None] stands for a raised
    exception. *)
Class Collaborators := {
  json_loads : str -> option pyval;
  utf8_decode_ignore : list Byte.byte -> str;
  pdf_extract_text : list Byte.byte -> option str;
  soup_tables : str -> option (list (list (list str)))
}.

(** ** parser.py, continued *)

Definition LBRACE : N := 123.
Definition RBRACE : N := 125.
Definition LBRACKET : N := 91.
Definition RBRACKET : N := 93.

(** [_repair_json_fragment]: [re.sub(r',\s*([\]}])', r'\1', s)]. [pend] is a
    comma and the whitespace after it, reversed, not yet emitted. *)
Fixpoint repair_aux (pend : str) (s : str) : str :=
  match s with
  | [] => rev pend
  | c :: s' =>
      if c =? COMMA then rev pend ++ repair_aux [COMMA] s'
      else match pend with
           | [] => c :: repair_aux [] s'
           | _ => if is_space c then repair_aux (c :: pend) s'
                  else if (c =? RBRACKET) || (c =? RBRACE) then c :: repair_aux [] s'
                  else rev pend ++ c :: repair_aux [] s'
           end
  end.

Definition _repair_json_fragment (s : str) : str := repair_aux [] s.

(** [_extract_brace_jsons]: the stack only ever holds ['{'], so it is its
    depth; [cur] is [text[start:i]] reversed while a block is open. *)
Fixpoint brace_scan (depth : nat) (cur : str) (s : str) : list str :=
  match s with
  | [] => []
  | ch :: s' =>
      if ch =? LBRACE then
        brace_scan (S depth) (ch :: match depth with O => [] | _ => cur end) s'
      else if ch =? RBRACE then
        match depth with
        | O => brace_scan O cur s'
        | S O => rev (ch :: cur) :: brace_scan O [] s'
        | S d => brace_scan d (ch :: cur) s'
        end
      else brace_scan depth (match depth with O => cur | _ => ch :: cur end) s'
  end.

Definition _extract_brace_jsons (text : str) : list str := brace_scan O [] text.

Definition is_key_char (c : N) : bool :=
  is_alpha_ascii c || is_digit_ascii c || (c =? UNDERSCORE).

(** [_RE_SAFE_KEY = ^[A-Za-z0-9_\- ]{1,60}$]; [$] also matches just before a
    final newline. *)
Definition is_safe_key_char (c : N) : bool :=
  is_key_char c || (c =? DASH) || (c =? SPACE).

Definition safe_key_match (key : str) : bool :=
  let body := match rev key with
              | c :: r => if c =? LF then rev r else key
              | [] => key
              end in
  forallb is_safe_key_char body && (1 <=? length body)%nat && (length body <=? 60)%nat.

Definition is_nil (s : str) : bool := match s with [] => true | _ => false end.

Definition kv_of_line (line : str) : option (str * str) :=
  if negb (mem_char COLON line) then None
  else
    let (p0, p1) := split_first COLON line in
    let key := strip p0 in
    let val := strip p1 in
    if is_nil key || (80 <? length key)%nat then None
    else if safe_key_match key then Some (key, val)
    else
      let key2 := strip (filter (fun c => is_key_char c || (c =? SPACE)) key) in
      if is_nil key2 || (length key2 <? 1)%nat then None
      else Some (key2, val).

Definition extract_kv_pairs (text : str) : list (str * str) :=
  flat_map (fun line => match kv_of_line line with Some p => [p] | None => [] end)
           (splitlines text).

(** *** The standard [csv.reader] over [io.StringIO(block)]

    Default ("excel") dialect: delimiter comma, the double quote as quote character,
    doubled quotes, no escape character, not strict. The reader is the character
    automaton of the interpreter's csv module; escape states cannot be reached
    without an escape character and are left out. *)

Inductive csv_mode :=
| START_RECORD | START_FIELD | IN_FIELD | IN_QUOTED_FIELD
| QUOTE_IN_QUOTED_FIELD | EAT_CRNL.

Record csv_state := {
  mode : csv_mode;
  field : str;            (* current field, reversed *)
  fields : list str       (* fields of the current record, reversed *)
}.

Definition csv_reset : csv_state :=
  {| mode := START_RECORD; field := []; fields := [] |}.

Definition field_limit : N := 131072.

(** [parse_add_char]: fails once the field has reached the size limit. *)
Definition add_char (c : N) (m : csv_mode) (st : csv_state) : option csv_state :=
  if field_limit <=? N.of_nat (length (field st)) then None
  else Some {| mode := m; field := c :: field st; fields := fields st |}.

(** [parse_save_field] *)
Definition save_field (m : csv_mode) (st : csv_state) : csv_state :=
  {| mode := m; field := []; fields := rev (field st) :: fields st |}.

Definition set_mode (m : csv_mode) (st : csv_state) : csv_state :=
  {| mode := m; field := field st; fields := fields st |}.

Definition is_crlf (c : N) : bool := (c =? LF) || (c =? CR).

(** [parse_process_char]; [None] as input is the end-of-line marker the
    reader feeds after the characters of each line. *)
Definition csv_step (st : csv_state) (c : option N) : option csv_state :=
  let start_field (st : csv_state) :=
    match c with
    | None => Some (save_field START_RECORD st)
    | Some x =>
        if is_crlf x then Some (save_field EAT_CRNL st)
        else if x =? DQUOTE then Some (set_mode IN_QUOTED_FIELD st)
        else if x =? COMMA then Some (save_field START_FIELD st)
        else add_char x IN_FIELD st
    end in
  match mode st with
  | START_RECORD =>
      match c with
      | None => Some st
      | Some x => if is_crlf x then Some (set_mode EAT_CRNL st) else start_field st
      end
  | START_FIELD => start_field st
  | IN_FIELD =>
      match c with
      | None => Some (save_field START_RECORD st)
      | Some x =>
          if is_crlf x then Some (save_field EAT_CRNL st)
          else if x =? COMMA then Some (save_field START_FIELD st)
          else add_char x IN_FIELD st
      end
  | IN_QUOTED_FIELD =>
      match c with
      | None => Some st
      | Some x => if x =? DQUOTE then Some (set_mode QUOTE_IN_QUOTED_FIELD st)
                  else add_char x IN_QUOTED_FIELD st
      end
  | QUOTE_IN_QUOTED_FIELD =>
      match c with
      | None => Some (save_field START_RECORD st)
      | Some x =>
          if x =? DQUOTE then add_char x IN_QUOTED_FIELD st
          else if x =? COMMA then Some (save_field START_FIELD st)
          else if is_crlf x then Some (save_field EAT_CRNL st)
          else add_char x IN_FIELD st
      end
  | EAT_CRNL =>
      match c with
      | None => Some (set_mode START_RECORD st)
      | Some x => if is_crlf x then Some st else None
      end
  end.

(** One line of input: its characters, then the end-of-line marker. *)
Fixpoint csv_feed (st : csv_state) (line : str) : option csv_state :=
  match line with
  | [] => csv_step st None
  | c :: line' =>
      match csv_step st (Some c) with
      | Some st' => csv_feed st' line'
      | None => None
      end
  end.

Definition is_start_record (m : csv_mode) : bool :=
  match m with START_RECORD => true | _ => false end.

Definition is_in_quoted (m : csv_mode) : bool :=
  match m with IN_QUOTED_FIELD => true | _ => false end.

(** [list(reader)]: a record is returned each time the automaton is back in
    [START_RECORD] at the end of a line; at the end of the input an unfinished
    record is flushed. [None]: the reader raised [csv.Error]. *)
Fixpoint csv_records (st : csv_state) (lines : list str) : option (list (list str)) :=
  match lines with
  | [] =>
      if negb (is_nil (field st)) || is_in_quoted (mode st)
      then Some [rev (fields (save_field START_RECORD st))]
      else Some []
  | ln :: rest =>
      match csv_feed st ln with
      | None => None
      | Some st' =>
          if is_start_record (mode st')
          then option_map (cons (rev (fields st'))) (csv_records csv_reset rest)
          else csv_records st' rest
      end
  end.

(** Iterating an [io.StringIO]: lines end at ['\n'], which they keep. *)
Fixpoint stringio_lines_aux (cur : str) (s : str) : list str :=
  match s with
  | [] => match cur with [] => [] | _ => [rev cur] end
  | c :: s' => if c =? LF then rev (c :: cur) :: stringio_lines_aux [] s'
               else stringio_lines_aux (c :: cur) s'
  end.

Definition stringio_lines (s : str) : list str := stringio_lines_aux [] s.

Definition csv_reader (block : str) : option (list (list str)) :=
  csv_records csv_reset (stringio_lines block).

Section Sanitize.
Context {U : UnicodeTables}.
Variable V : Type.

(** The key rewriting of [_sanitize_keys]: strip, lower, whitespace runs
    to one underscore, then [_RE_KEY_NORMALIZE = [^A-Za-z0-9_]+] removed. *)
Definition sanitize_key (k : str) : str :=
  let k2 := lower (strip k) in
  let k2 := sub_runs is_space [UNDERSCORE] k2 in
  filter is_key_char k2.

Definition key_rejected (k2 : str) : bool :=
  is_nil k2 || (60 <? length k2)%nat.

Definition _sanitize_keys (d : dict V) : dict V :=
  fold_left (fun out kv =>
               let k2 := sanitize_key (fst kv) in
               if key_rejected k2 then out else dict_set k2 (snd kv) out)
            d [].
End Sanitize.

Definition has_letter (h : str) : bool := existsb is_alpha_ascii h.

(** [{header[j].strip(): r[j].strip() for j in range(len(header))}] for a row
    at least as long as the header. *)
Definition row_object (header r : list str) : dict str :=
  dict_of_pairs (map (fun hr => (strip (fst hr), strip (snd hr))) (combine header r)).

Section Tables.
Context {U : UnicodeTables}.

(** The body of the loop of [extract_csv_fragments] for one block. An
    exception of the reader skips the block. *)
Definition csv_block_records (block : str) : list (dict str) :=
  if (count_char COMMA block <? 1)%nat then []
  else match csv_reader block with
       | None => []
       | Some reader =>
           if (length reader <? 2)%nat then []
           else match reader with
                | [] => []
                | header :: data =>
                    if negb (existsb has_letter header) then []
                    else
                      let good_rows :=
                        filter (fun r => (length r =? length header)%nat) data in
                      map (fun r => _sanitize_keys (row_object header r)) good_rows
                end
       end.

Definition extract_csv_fragments (text : str) : list (dict str) :=
  let lines := filter (fun ln => negb (is_nil (strip ln))) (splitlines text) in
  flat_map (fun i => csv_block_records (join [LF] (firstn 20 (skipn i lines))))
           (seq 0 (Nat.max 1 (length lines))).

(** Padding a row with empty cells up to the header length. *)
Definition pad_row (n : nat) (r : list str) : list str :=
  r ++ repeat [] (n - length r).

Definition col_name (i : nat) : str := txt "col" ++ str_of_nat i.

Definition index_headers (n : nat) : list str := map col_name (seq 0 n).

(** The records of one [<table>], from its non-empty rows. *)
Definition table_records (rows : list (list str)) : list (dict str) :=
  match rows with
  | [] => []
  | hdr :: data =>
      if (2 <=? length rows)%nat && existsb has_letter hdr then
        let headers :=
          map (fun ih => if is_nil (snd ih) then col_name (fst ih) else snd ih)
              (combine (seq 0 (length hdr)) hdr) in
        map (fun r => _sanitize_keys (row_object headers (pad_row (length headers) r)))
            data
      else if (2 <=? length rows)%nat
              && forallb (fun r => (length r =? length hdr)%nat) rows then
        map (fun r => _sanitize_keys
                        (dict_of_pairs
                           (combine (index_headers (length r)) (map strip r))))
            rows
      else []
  end.

Context {C : Collaborators}.

Definition extract_html_tables (text : str) : list (dict str) :=
  match soup_tables text with
  | None => []
  | Some tables =>
      flat_map (fun trs => table_records
                             (filter (fun cols => negb (match cols with [] => true | _ => false end)) trs))
               tables
  end.

(** [try_parse_json]: the result of the parse, [None] when both attempts
    fail. *)
Definition try_parse_json (text : str) : option pyval :=
  let s := strip text in
  match json_loads s with
  | Some v => Some v
  | None => json_loads (_repair_json_fragment s)
  end.

Definition dict_fragment (r : option pyval) : list pydict :=
  match r with Some (PDict d) => [d] | _ => [] end.

Definition extract_json_fragments (text : str) : list pydict :=
  dict_fragment (try_parse_json text)
  ++ flat_map (fun frag => dict_fragment (try_parse_json frag))
              (_extract_brace_jsons text).

Definition _try_extract_pdf_text (b : list Byte.byte) : str :=
  match pdf_extract_text b with
  | Some t => t
  | None => utf8_decode_ignore b
  end.

(** The fragment bundle. *)
Record fragments := {
  json_fragments : list pydict;
  html_tables : list (dict str);
  csv_fragments : list (dict str);
  kv_pairs : list (str * str);
  raw_text : str
}.

(** [s.endswith(suffix)] *)
Definition endswith (suffix s : str) : bool :=
  str_eqb (skipn (length s - length suffix) s) suffix.

Definition is_pdf_name (filename : option str) : bool :=
  match filename with
  | Some f => negb (is_nil f) && endswith (txt ".pdf") (lower f)
  | None => false
  end.

Definition extract_fragments_from_bytes (b : list Byte.byte) (filename : option str)
  : fragments :=
  let text := if is_pdf_name filename then _try_extract_pdf_text b
              else utf8_decode_ignore b in
  let text := _clean_text text in
  {| json_fragments := extract_json_fragments text;
     html_tables := extract_html_tables text;
     csv_fragments := extract_csv_fragments text;
     kv_pairs := extract_kv_pairs text;
     raw_text := firstn (N.to_nat 10000) text |}.
End Tables.

(** ** schema_generator.py *)

(** The thresholds are binary floating-point numbers in the source and the
    ratios are quotients of two counts. They are compared here as exact
    rationals, which gives the same answer as long as a count stays below
    [2^50]. *)
Record StorageDecisionConfig := {
  CONSISTENCY_THRESHOLD : Q;
  MIN_COLUMNS_FOR_SQL : nat;
  MIN_DOCS_FOR_CONSISTENCY : nat;
  DATE_THRESHOLD : Q;
  INT_THRESHOLD : Q;
  FLOAT_THRESHOLD : Q;
  TREAT_LIST_AS_NONSCALAR : bool
}.

Definition CFG : StorageDecisionConfig := {|
  CONSISTENCY_THRESHOLD := 7 # 10;
  MIN_COLUMNS_FOR_SQL := 1;
  MIN_DOCS_FOR_CONSISTENCY := 2;
  DATE_THRESHOLD := 6 # 10;
  INT_THRESHOLD := 8 # 10;
  FLOAT_THRESHOLD := 5 # 10;
  TREAT_LIST_AS_NONSCALAR := true
|}.

(** [a / c] for a count [c >= 1]. *)
Definition ratio (a c : nat) : Q := Z.of_nat a # Pos.of_nat c.

(** [a / c >= t] *)
Definition ratio_ge (a c : nat) (t : Q) : bool := Qle_bool t (ratio a c).

Definition DOT : N := 46.
Definition PLUS : N := 43.

Definition ascii_lower (c : N) : N := if is_upper_ascii c then c + 32 else c.

Definition drop_sign (t : str) : str :=
  match t with
  | c :: r => if (c =? PLUS) || (c =? DASH) then r else t
  | [] => []
  end.

Fixpoint span_digits (p : N -> bool) (s : str) : nat * str :=
  match s with
  | c :: s' => if p c then let (n, r) := span_digits p s' in (S n, r) else (O, s)
  | [] => (O, [])
  end.

(** Decimal rendering of an integer, as [str] does. *)
Definition str_of_Z (z : Z) : str := txt (NilZero.string_of_int (Z.to_int z)).

(** What [str(v)] and the date parser need from the interpreter beyond the
    cases written out below. *)
Class Runtime := {
  py_repr : pyval -> str;              (* [str] of floats, lists and dicts *)
  dateutil_parse_ok : str -> bool      (* [dateparser.parse(s, fuzzy=False)] returns *)
}.

Section Classify.
Context {U : UnicodeTables} {R : Runtime}.

Definition is_decimal (c : N) : bool :=
  is_digit_ascii c || ((128 <=? c) && decimal_nonascii c).

(** A run of digits in which single underscores may separate digits. *)
Fixpoint digits_us (after_digit : bool) (s : str) : bool :=
  match s with
  | [] => after_digit
  | c :: s' =>
      if is_decimal c then digits_us true s'
      else if (c =? UNDERSCORE) && after_digit
           then match s' with d :: _ => is_decimal d | [] => false end
                && digits_us false s'
           else false
  end.

(** The longest run of digits [int] converts: the default of
    [sys.set_int_max_str_digits]; the sign and the underscores do not
    count. *)
Definition MAX_STR_DIGITS : N := 4300.

(** [int(s)] accepts [s]: optional sign and digits between whitespace, no
    more digits than the limit. *)
Definition int_literal (s : str) : bool :=
  let t := drop_sign (strip s) in
  digits_us false t
  && (N.of_nat (length (filter is_decimal t)) <=? MAX_STR_DIGITS).

Fixpoint us_between_digits (prev_digit : bool) (s : str) : bool :=
  match s with
  | [] => true
  | c :: s' =>
      if c =? UNDERSCORE
      then prev_digit
           && match s' with d :: _ => is_decimal d | [] => false end
           && us_between_digits false s'
      else us_between_digits (is_decimal c) s'
  end.

Definition is_exp_mark (c : N) : bool := (c =? 101) || (c =? 69).

(** [float(s)] accepts [s]: a decimal literal with optional fraction and
    exponent, or inf, infinity, nan in any case, signed, between
    whitespace; underscores only between digits. *)
Definition float_literal (s : str) : bool :=
  let t := strip s in
  if negb (us_between_digits false t) then false
  else
    let t := drop_sign (filter (fun c => negb (c =? UNDERSCORE)) t) in
    let lt := map ascii_lower t in
    if str_eqb lt (txt "inf") || str_eqb lt (txt "infinity") || str_eqb lt (txt "nan")
    then true
    else
      let (n1, r) := span_digits is_decimal t in
      let (n2, r) := match r with
                     | c :: r' => if c =? DOT then span_digits is_decimal r' else (O, r)
                     | [] => (O, r)
                     end in
      if (n1 + n2 =? 0)%nat then false
      else match r with
           | [] => true
           | c :: r' =>
               if is_exp_mark c
               then let (n3, r'') := span_digits is_decimal (drop_sign r') in
                    (0 <? n3)%nat && is_nil r''
               else false
           end.

Definition _is_int (v : pyval) : bool :=
  match v with
  | PBool _ => false
  | PInt _ => true
  | PFloat (Ffin _) => true
  | PFloat _ => false
  | PStr s => int_literal s
  | _ => false
  end.

(** [float(v)] does not raise. *)
Definition float_ok (v : pyval) : bool :=
  match v with
  | PBool _ => true
  | PInt z => (Z.abs z <? 2 ^ 1024 - 2 ^ 970)%Z
  | PFloat _ => true
  | PStr s => float_literal s
  | _ => false
  end.

Definition _is_float (v : pyval) : bool :=
  if float_ok v then negb (_is_int v) else false.

Definition py_str (v : pyval) : str :=
  match v with
  | PNone => txt "None"
  | PBool true => txt "True"
  | PBool false => txt "False"
  | PInt z => str_of_Z z
  | PStr s => s
  | _ => py_repr v
  end.

Definition bool_words : list str :=
  [txt "true"; txt "false"; txt "1"; txt "0"; txt "yes"; txt "no"; txt "y"; txt "n"].

Definition _is_bool (v : pyval) : bool :=
  match v with
  | PBool _ => true
  | _ => existsb (str_eqb (lower (strip (py_str v)))) bool_words
  end.

Definition _is_date (v : pyval) : bool :=
  match v with
  | PNone | PBool _ | PInt _ | PFloat _ => false
  | _ => let s := strip (py_str v) in
         if (length s <? 4)%nat || (40 <? length s)%nat then false
         else dateutil_parse_ok s
  end.

Definition is_nested (v : pyval) : bool := is_dict v || is_list v.

Definition _is_scalar (cfg : StorageDecisionConfig) (v : pyval) : bool :=
  if is_nested v && negb (TREAT_LIST_AS_NONSCALAR cfg) then true
  else negb (is_nested v).
End Classify.

Fixpoint str_mem (k : str) (ks : list str) : bool :=
  match ks with
  | [] => false
  | k' :: ks' => str_eqb k k' || str_mem k ks'
  end.

(** [set(keys)]: the distinct keys, and equality of two such sets. *)
Fixpoint dedup (ks : list str) : list str :=
  match ks with
  | [] => []
  | k :: ks' => if str_mem k ks' then dedup ks' else k :: dedup ks'
  end.

Definition keyset (d : pydict) : list str := dedup (dict_keys d).

Definition set_eqb (a b : list str) : bool :=
  forallb (fun k => str_mem k b) a && forallb (fun k => str_mem k a) b.

Definition two_digits (n : nat) : str :=
  (if (n <? 10)%nat then txt "0" else []) ++ str_of_nat n.

(** The binary64 number nearest to a ratio [q >= 0] of two counts, ties to
    even: what [/] returns for them. The quotient is scaled by a power of two
    so that its integer part has 53 bits, and rounded there; the range of
    normal numbers is assumed. *)
Definition binary64 (q : Q) : Q :=
  let a := Qnum q in
  let c := Zpos (Qden q) in
  if (a <=? 0)%Z then 0
  else
    let e := (Z.log2 a - Z.log2 c)%Z in
    let scaled := fun s => (a * 2 ^ Z.max s 0 / (c * 2 ^ Z.max (- s) 0))%Z in
    let s := if (2 ^ 53 <=? scaled (53 - e))%Z then (52 - e)%Z else (53 - e)%Z in
    let num := (a * 2 ^ Z.max s 0)%Z in
    let den := (c * 2 ^ Z.max (- s) 0)%Z in
    let m := (num / den)%Z in
    let r := (num mod den)%Z in
    let m := if (den <? 2 * r)%Z || ((2 * r =? den)%Z && Z.odd m) then (m + 1)%Z else m in
    (m * 2 ^ Z.max (- s) 0) # Z.to_pos (2 ^ Z.max s 0).

(** An exact value [q >= 0] written with two decimals, ties to even. *)
Definition decimal2 (q : Q) : str :=
  let x := (100 * Qnum q)%Z in
  let d := Zpos (Qden q) in
  let k := (x / d)%Z in
  let r := (x mod d)%Z in
  let k := if (d <? 2 * r)%Z || ((2 * r =? d)%Z && Z.odd k) then (k + 1)%Z else k in
  str_of_Z (k / 100) ++ [DOT] ++ two_digits (Z.to_nat (k mod 100)).

(** [f"{q:.2f}"] for the float [q]: the decimal expansion of the binary64
    number itself is rounded, not that of the ratio it approximates. *)
Definition fmt_2f (q : Q) : str := decimal2 (binary64 q).

(** The inner loop of the nested-structure count: stops at the first nested
    value. *)
Fixpoint has_nested_value (vs : list pyval) : bool :=
  match vs with
  | [] => false
  | v :: vs' => if is_nested v then true else has_nested_value vs'
  end.

Definition detect_storage_type (cfg : StorageDecisionConfig)
    (sample_docs : list pyval) (fr : fragments) : str * str :=
  if negb (match csv_fragments fr with [] => true | _ => false end)
  then (txt "sql", txt "contains csv fragments")
  else if negb (match html_tables fr with [] => true | _ => false end)
  then (txt "sql", txt "contains html tables")
  else
    let docs := only_dicts sample_docs in
    match docs with
    | [] =>
        match kv_pairs fr with
        | _ :: _ => (txt "object", txt "only key:value pairs")
        | [] => (txt "object", txt "no structured docs found")
        end
    | first :: _ =>
        let nested_count :=
          fold_left (fun n d => if has_nested_value (dict_values d) then S n else n)
                    docs O in
        let keysets := map keyset docs in
        let base := keyset first in
        let same_keys := length (filter (fun s => set_eqb s base) keysets) in
        let consistency := ratio same_keys (length keysets) in
        if (0 <? nested_count)%nat
        then (txt "nosql",
              txt "found nested structures in " ++ str_of_nat nested_count ++ txt " docs")
        else if (MIN_DOCS_FOR_CONSISTENCY cfg <=? length docs)%nat
                && Qle_bool (CONSISTENCY_THRESHOLD cfg) consistency
                && (MIN_COLUMNS_FOR_SQL cfg <=? length base)%nat
        then
          if forallb (fun d => forallb (_is_scalar cfg) (dict_values d)) docs
          then (txt "sql",
                txt "consistent flat rows (" ++ str_of_nat (length base)
                ++ txt " cols, consistency=" ++ fmt_2f consistency ++ txt ")")
          else (txt "nosql", txt "flat keys but some non-scalar values")
        else (txt "object", txt "no consistent tabular structure detected")
    end.

(** The per-field tallies of [infer_field_types]. *)
Record field_stats := {
  counts : nat;
  st_int : nat;
  st_float : nat;
  st_bool : nat;
  st_date : nat;
  st_object : nat;
  st_array : nat;
  sample : pyval
}.

Definition fresh_stats (v : pyval) : field_stats :=
  {| counts := 0; st_int := 0; st_float := 0; st_bool := 0; st_date := 0;
     st_object := 0; st_array := 0; sample := v |}.

(** The branch of the [if]/[elif] chain an occurrence takes. *)
Inductive tally_kind := KInt | KFloat | KBool | KDate | KObject | KArray | KOther.

Record field_type := {
  ft_type : str;
  ft_example : pyval;
  ft_count : nat
}.

Section Infer.
Context {U : UnicodeTables} {R : Runtime}.

Definition classify_value (v : pyval) : tally_kind :=
  if _is_int v then KInt
  else if _is_float v then KFloat
  else if _is_bool v then KBool
  else if _is_date v then KDate
  else if is_dict v then KObject
  else if is_list v then KArray
  else KOther.

Definition bump (b : bool) (n : nat) : nat := if b then S n else n.

Definition is_kind (a b : tally_kind) : bool :=
  match a, b with
  | KInt, KInt | KFloat, KFloat | KBool, KBool | KDate, KDate
  | KObject, KObject | KArray, KArray | KOther, KOther => true
  | _, _ => false
  end.

Definition tally (v : pyval) (s : field_stats) : field_stats :=
  let k := classify_value v in
  {| counts := S (counts s);
     st_int := bump (is_kind k KInt) (st_int s);
     st_float := bump (is_kind k KFloat) (st_float s);
     st_bool := bump (is_kind k KBool) (st_bool s);
     st_date := bump (is_kind k KDate) (st_date s);
     st_object := bump (is_kind k KObject) (st_object s);
     st_array := bump (is_kind k KArray) (st_array s);
     sample := sample s |}.

Definition tally_item (stats : dict field_stats) (kv : str * pyval) : dict field_stats :=
  let s := match dict_get (fst kv) stats with
           | Some s => s
           | None => fresh_stats (snd kv)
           end in
  dict_set (fst kv) (tally (snd kv) s) stats.

Definition infer_stats (docs : list pyval) : dict field_stats :=
  fold_left (fun stats d => fold_left tally_item d stats) (only_dicts docs) [].

Definition decide_type (cfg : StorageDecisionConfig) (s : field_stats) : str :=
  let c := counts s in
  if (0 <? st_object s)%nat then txt "object"
  else if (0 <? st_array s)%nat then txt "array"
  else if ratio_ge (st_date s) c (DATE_THRESHOLD cfg) then txt "date"
  else if ratio_ge (st_int s) c (INT_THRESHOLD cfg) then txt "integer"
  else if ratio_ge (st_float s) c (FLOAT_THRESHOLD cfg)
          || (ratio_ge (st_int s + st_float s) c (8 # 10) && (0 <? st_float s)%nat)
  then txt "decimal"
  else if ratio_ge (st_bool s) c (8 # 10) then txt "boolean"
  else txt "string".

Definition infer_field_types (cfg : StorageDecisionConfig) (docs : list pyval)
  : dict field_type :=
  map (fun ks => (fst ks, {| ft_type := decide_type cfg (snd ks);
                             ft_example := sample (snd ks);
                             ft_count := counts (snd ks) |}))
      (infer_stats docs).

Definition _sql_type_from_inferred (t : str) : str :=
  if str_eqb t (txt "integer") then txt "INTEGER"
  else if str_eqb t (txt "decimal") then txt "DECIMAL"
  else if str_eqb t (txt "boolean") then txt "BOOLEAN"
  else if str_eqb t (txt "date") then txt "TIMESTAMP"
  else txt "TEXT".

(** [re.sub(r'[^A-Za-z0-9_]', '_', k).lower()] *)
Definition colname (k : str) : str :=
  lower (map (fun c => if is_key_char c then c else UNDERSCORE) k).

Record sql_schema := {
  ddl : str;
  reason : option str;
  fields_of : dict field_type
}.

(** One entry of [cols]: four spaces, the quoted column name, the type. *)
Definition col_line (k : str) (meta : field_type) : str :=
  txt "    " ++ [DQUOTE] ++ colname k ++ [DQUOTE] ++ [SPACE]
  ++ _sql_type_from_inferred (ft_type meta).

Definition generate_sql_schema (cfg : StorageDecisionConfig)
    (table_name : str) (docs : list pyval) : sql_schema :=
  match docs with
  | [] => {| ddl := []; reason := Some (txt "no docs"); fields_of := [] |}
  | _ =>
      let field_types := infer_field_types cfg docs in
      let cols := map (fun km => col_line (fst km) (snd km)) field_types in
      {| ddl := txt "CREATE TABLE " ++ [DQUOTE] ++ table_name ++ [DQUOTE]
                ++ txt " (" ++ [LF] ++ join (COMMA :: [LF]) cols ++ [LF] ++ txt ");";
         reason := None;
         fields_of := field_types |}
  end.
End Infer.

(** ** schema_infer.py *)

(** [type(v).__name__] *)
Definition type_name (v : pyval) : str :=
  match v with
  | PNone => txt "NoneType"
  | PBool _ => txt "bool"
  | PInt _ => txt "int"
  | PFloat _ => txt "float"
  | PStr _ => txt "str"
  | PList _ => txt "list"
  | PDict _ => txt "dict"
  end.

Record property := {
  p_types : list str;
  p_example : pyval
}.

Definition is_none (v : pyval) : bool := match v with PNone => true | _ => false end.

Definition startswith_underscore (k : str) : bool :=
  match k with c :: _ => c =? UNDERSCORE | [] => false end.

(** One [k, v] of a document. The type names of a property form a set:
    [p_types] holds its members in the order they were added. *)
Definition infer_item (props : dict property) (kv : str * pyval) : dict property :=
  let (k, v) := kv in
  if startswith_underscore k then props
  else
    let p := match dict_get k props with
             | Some p => p
             | None => {| p_types := []; p_example := PNone |}
             end in
    let t := type_name v in
    dict_set k {| p_types := if str_mem t (p_types p) then p_types p else p_types p ++ [t];
                  p_example := if is_none (p_example p) then v else p_example p |}
             props.

(** The order in which [list(s)] lists a set of strings: it depends on the
    hash seed of the interpreter. [set_order l] is that order for the set
    whose members were added in the order [l]. *)
Class SetOrder := {
  set_order : list str -> list str;
  set_order_perm : forall l, Permutation (set_order l) l
}.

(** The last loop of [infer_schema]: each set of type names becomes a
    list. *)
Definition finalize_types {O : SetOrder} (props : dict property) : dict property :=
  map (fun kp => (fst kp, {| p_types := set_order (p_types (snd kp));
                             p_example := p_example (snd kp) |}))
      props.

(** [infer_schema(docs)["properties"]] *)
Definition infer_schema {O : SetOrder} (docs : list pydict) : dict property :=
  finalize_types (fold_left (fun props d => fold_left infer_item d props) docs []).

(** ** schema_registry.py *)

Definition MIN_PROMOTE_COUNT : Z := 2.

Definition _is_plausible_field_name (name : str) : bool :=
  let name := strip name in
  if is_nil name then false
  else if (120 <? length name)%nat then false
  else if existsb (fun c => c <? 32) name then false
  else true.

(** Code-point order on strings, and [sorted]. *)
Fixpoint str_leb (a b : str) : bool :=
  match a, b with
  | [], _ => true
  | _ :: _, [] => false
  | x :: a', y :: b' => if x <? y then true else if y <? x then false else str_leb a' b'
  end.

Section Sorting.
Variable A : Type.
Variable key : A -> str.

Fixpoint insert_sorted (x : A) (l : list A) : list A :=
  match l with
  | [] => [x]
  | y :: l' => if str_leb (key y) (key x) then y :: insert_sorted x l'
               else x :: l
  end.

(** A stable sort by [key]. *)
Definition sorted_by (l : list A) : list A :=
  fold_left (fun acc x => insert_sorted x acc) l [].
End Sorting.

(** [list(sorted(set(types)))] *)
Definition sorted_set (types : list str) : list str :=
  sorted_by (fun s => s) (dedup types).

(** A field's metadata as it sits in a [fields_map]; a key that is absent
    from the stored object (or [null]) is [None]. *)
Record field_meta := {
  fm_name : option str;
  fm_types : list str;
  fm_count : option Z;
  fm_first_seen : option str;
  fm_last_seen : option str;
  fm_example : pyval
}.

(** Truth value of a Python value, and [x or y] on the kinds of values the
    merge applies it to. *)
Definition truthy (v : pyval) : bool :=
  match v with
  | PNone => false
  | PBool b => b
  | PInt z => negb (z =? 0)%Z
  | PFloat (Ffin q) => negb (Qeq_bool q 0)
  | PFloat _ => true
  | PStr s => negb (is_nil s)
  | PList l => match l with [] => false | _ => true end
  | PDict d => match d with [] => false | _ => true end
  end.

Definition or_val (a b : pyval) : pyval := if truthy a then a else b.

Definition or_str (a b : option str) : option str :=
  match a with
  | Some (_ :: _) => a
  | _ => b
  end.

Definition get_count (default : Z) (m : field_meta) : Z :=
  match fm_count m with Some c => c | None => default end.

Definition _make_field_meta (name : str) (types : list str) (example : pyval)
    (seen_time : str) : field_meta :=
  {| fm_name := Some name;
     fm_types := sorted_set types;
     fm_count := Some 1%Z;
     fm_first_seen := Some seen_time;
     fm_last_seen := Some seen_time;
     fm_example := example |}.

(** An empty stored object: [not old_meta]. *)
Definition is_empty_meta (m : field_meta) : bool :=
  match fm_name m, fm_types m, fm_count m, fm_first_seen m, fm_last_seen m with
  | None, [], None, None, None => is_none (fm_example m)
  | _, _, _, _, _ => false
  end.

Definition _merge_field_meta (old_meta new_meta : field_meta) : field_meta :=
  if is_empty_meta old_meta then new_meta
  else
    {| fm_name := or_str (fm_name new_meta) (fm_name old_meta);
       fm_types := sorted_set (fm_types old_meta ++ fm_types new_meta);
       fm_count := Some (get_count 0 old_meta + get_count 0 new_meta)%Z;
       fm_first_seen := or_str (fm_first_seen old_meta) (fm_first_seen new_meta);
       fm_last_seen := or_str (fm_last_seen new_meta) (fm_last_seen old_meta);
       fm_example := or_val (fm_example old_meta) (fm_example new_meta) |}.

Definition _properties_to_fields_map (properties : dict property) (seen_time : str)
    : dict field_meta :=
  fold_left (fun out kp =>
               dict_set (fst kp)
                        (_make_field_meta (fst kp) (p_types (snd kp))
                                          (p_example (snd kp)) seen_time)
                        out)
            properties [].

(** [_fields_map_to_doc]: the metadata in key order. *)
Definition _fields_map_to_doc (fields_map : dict field_meta) : list field_meta :=
  map snd (sorted_by fst fields_map).

Record type_change := {
  tc_field : str;
  tc_old : list str;
  tc_new : list str
}.

Record schema_diff := {
  added : list str;
  removed : list str;
  type_changes : list type_change
}.

(** [compute_diff]; the two sides of a type change are sets turned into
    lists. *)
Definition compute_diff {O : SetOrder} (old_fields_map new_fields_map : dict field_meta)
  : schema_diff :=
  {| added := filter (fun k => negb (dict_mem k old_fields_map)) (dict_keys new_fields_map);
     removed := filter (fun k => negb (dict_mem k new_fields_map)) (dict_keys old_fields_map);
     type_changes :=
       flat_map (fun km =>
                   match dict_get (fst km) old_fields_map with
                   | Some old =>
                       let old_types := dedup (fm_types old) in
                       let new_types := dedup (fm_types (snd km)) in
                       if set_eqb old_types new_types then []
                       else [{| tc_field := fst km;
                                tc_old := set_order old_types;
                                tc_new := set_order new_types |}]
                   | None => []
                   end)
                new_fields_map |}.

Record instance_doc := {
  schema_instance_id : str;
  generated_at : str;
  i_source_id : option str;
  file_id : option str;
  properties : dict property;
  i_fields : list field_meta;
  i_storage_error : option str
}.

Record logical_doc := {
  logical_id : str;
  updated_at : str;
  l_source_id : option str;
  fields_map : dict field_meta;
  l_fields : list field_meta;
  l_storage_error : option str
}.

(** The schemas directory: what each path holds. [Unusable] is a file that
    [_load_json] cannot open or parse, or that parses to a false value. The
    registry is the only writer of the directory: between two calls its
    files stay as the earlier call left them. *)
Inductive file_content :=
| Unusable
| InstanceJson (doc : instance_doc)
| LogicalJson (doc : logical_doc).

Definition store := dict file_content.

Definition SLASH : N := 47.

(** The directory of a source, below the schemas directory. In the code
    [_source_dir] also creates it ([os.makedirs]) before it returns the path:
    how that ends is a [makedirs_outcome] of the call, below. *)
Definition _source_dir (source_id : option str) : str :=
  match source_id with
  | Some (c :: s) => c :: s
  | _ => txt "default"
  end.

Definition _logical_path (source_id : option str) : str :=
  _source_dir source_id ++ [SLASH] ++ txt "logical.json".

Definition _instance_path (source_id : option str) (generated_at schema_id : str) : str :=
  _source_dir source_id ++ [SLASH] ++ generated_at ++ txt "__" ++ schema_id ++ txt ".json".

(** [_load_json(path)] where a logical schema is expected: the document the
    file holds, [None] when it cannot be opened or parsed (the [except]
    branch) or holds something else. *)
Definition _load_json (st : store) (path : str) : option logical_doc :=
  match dict_get path st with
  | Some (LogicalJson doc) => Some doc
  | _ => None
  end.

(** A call either raises (the text is [str(e)]) or returns. *)
Inductive raised_or (A : Type) : Type :=
| Raised (e : str)
| Returned (a : A).
Arguments Raised {A} e.
Arguments Returned {A} a.

(** How [os.makedirs(d, exist_ok=True)] in [_source_dir] ends. *)
Inductive makedirs_outcome :=
| DirOk
| DirFailed (e : str).

(** [get_logical_schema(source_id)]: [_logical_path] goes through
    [_source_dir], so the call raises when the directory cannot be created;
    otherwise it is what [_load_json] finds at the logical path. *)
Definition get_logical_schema (mk : makedirs_outcome) (st : store)
    (source_id : option str) : raised_or (option logical_doc) :=
  match mk with
  | DirFailed e => Raised e
  | DirOk => Returned (_load_json st (_logical_path source_id))
  end.

(** How an attempt to write a document ends: done, and the file holds the
    document, which loads again; failed before the file was touched (the
    path or [open] raised); failed while dumping, which leaves a truncated
    file; or ended without an exception although the file does not load
    again afterwards (a file without read permission, a device). The text is
    [str(e)]. *)
Inductive write_outcome :=
| WriteOk
| OpenFailed (e : str)
| DumpFailed (e : str)
| WriteLost.

(** [with open(path, "w") as f: json.dump(doc, f)]: the store afterwards, or
    the exception and the store it leaves. *)
Definition write_json (path : str) (content : file_content) (o : write_outcome)
    (st : store) : store * option str :=
  match o with
  | WriteOk => (dict_set path content st, None)
  | OpenFailed e => (st, Some e)
  | DumpFailed e => (dict_set path Unusable st, Some e)
  | WriteLost => (dict_set path Unusable st, None)
  end.

(** The clock and the file system as one call sees them. *)
Record call_env := {
  now : str;                        (* [_nowz()] *)
  instance_write : write_outcome;
  logical_write : write_outcome
}.

(** [hashlib.sha1(...).hexdigest()] and [json.dumps(..., sort_keys=True)]. *)
Class Digest := {
  sha1_hexdigest : str -> str;
  json_dumps : pyval -> str
}.

Definition properties_value (props : dict property) : pyval :=
  PDict (map (fun kp => (fst kp,
                         PDict [(txt "types", PList (map PStr (p_types (snd kp))));
                                (txt "example", p_example (snd kp))]))
             props).

Definition types_value (m : dict field_meta) : pyval :=
  PDict (map (fun km => (fst km, PList (map PStr (fm_types (snd km)))))
             (sorted_by fst m)).

(** [sample_docs] as the caller passes it: [None], a list, or one value. *)
Definition as_list (sample_docs : pyval) : list pyval :=
  match sample_docs with
  | PNone => []
  | PList l => l
  | v => [v]
  end.

Record evolve_result := {
  r_logical_id : str;
  r_instance_id : str;
  r_logical_doc : logical_doc;
  r_instance_doc : instance_doc;
  r_diff : schema_diff
}.

Definition with_instance_error (d : instance_doc) (e : option str) : instance_doc :=
  match e with
  | None => d
  | Some _ =>
      {| schema_instance_id := schema_instance_id d; generated_at := generated_at d;
         i_source_id := i_source_id d; file_id := file_id d;
         properties := properties d; i_fields := i_fields d;
         i_storage_error := e |}
  end.

Definition with_logical_error (d : logical_doc) (e : option str) : logical_doc :=
  match e with
  | None => d
  | Some _ =>
      {| logical_id := logical_id d; updated_at := updated_at d;
         l_source_id := l_source_id d; fields_map := fields_map d;
         l_fields := l_fields d; l_storage_error := e |}
  end.

Section Registry.
Context {D : Digest} {O : SetOrder}.

(** The merge loop of [evolve_schema]. *)
Definition merge_maps (old_map new_map : dict field_meta) : dict field_meta :=
  fold_left (fun merged km =>
               match dict_get (fst km) merged with
               | Some old => dict_set (fst km) (_merge_field_meta old (snd km)) merged
               | None => dict_set (fst km) (snd km) merged
               end)
            new_map old_map.

(** The promotion filter. *)
Definition promote (merged_map : dict field_meta) : dict field_meta :=
  fold_left (fun promoted km =>
               if (MIN_PROMOTE_COUNT <=? get_count 1 (snd km))%Z
                  && _is_plausible_field_name (fst km)
               then dict_set (fst km) (snd km) promoted
               else promoted)
            merged_map [].

(** [evolve_schema], lines 138 to 218, on a call in which line 164 has
    resolved the logical path, that is, the directory of the source exists or
    could be created: the five results and the store the call leaves. What
    the caller gets when the directory cannot be created is
    [evolve_schema_call], below. *)
Definition evolve_schema (st : store) (env : call_env) (source_id : option str)
    (sample_docs : pyval) (fid : option str) : evolve_result * store :=
  let sample_docs := as_list sample_docs in
  let seen_time := now env in
  let safe_docs := only_dicts sample_docs in
  let properties := infer_schema safe_docs in
  let instance_hash_input :=
    json_dumps (properties_value properties)
    ++ match fid with Some (c :: s) => c :: s | _ => seen_time end in
  let instance_id :=
    txt "schema_inst_" ++ firstn 10 (sha1_hexdigest instance_hash_input) in
  let instance_doc :=
    {| schema_instance_id := instance_id;
       generated_at := seen_time;
       i_source_id := source_id;
       file_id := fid;
       properties := properties;
       i_fields := _fields_map_to_doc (_properties_to_fields_map properties seen_time);
       i_storage_error := None |} in
  let old_map := match _load_json st (_logical_path source_id) with
                 | Some logical => fields_map logical
                 | None => []
                 end in
  let new_map := _properties_to_fields_map properties seen_time in
  let merged_map := merge_maps old_map new_map in
  let promoted_map := promote merged_map in
  let diff := compute_diff old_map promoted_map in
  let logical_hash_input := json_dumps (types_value promoted_map) in
  let logical_id :=
    txt "schema_log_" ++ firstn 10 (sha1_hexdigest logical_hash_input) in
  let logical_doc :=
    {| logical_id := logical_id;
       updated_at := seen_time;
       l_source_id := source_id;
       fields_map := promoted_map;
       l_fields := _fields_map_to_doc promoted_map;
       l_storage_error := None |} in
  (* persist instance doc; [except Exception as e] keeps the message *)
  let (st1, e_inst) :=
    write_json (_instance_path source_id seen_time instance_id)
               (InstanceJson instance_doc) (instance_write env) st in
  let instance_doc := with_instance_error instance_doc e_inst in
  (* persist logical doc (overwrite) *)
  let (st2, e_log) :=
    write_json (_logical_path source_id) (LogicalJson logical_doc)
               (logical_write env) st1 in
  let logical_doc := with_logical_error logical_doc e_log in
  ({| r_logical_id := logical_id;
      r_instance_id := instance_id;
      r_logical_doc := logical_doc;
      r_instance_doc := instance_doc;
      r_diff := diff |}, st2).

(** [evolve_schema] as its caller sees it. Line 164 loads the current
    logical schema with [get_logical_schema], outside both [try] blocks:
    when the directory of the source cannot be created the exception leaves
    [evolve_schema] there, before anything is written. Otherwise the call
    runs to its [return]. *)
Definition evolve_schema_call (mk : makedirs_outcome) (st : store) (env : call_env)
    (source_id : option str) (sample_docs : pyval) (fid : option str)
  : raised_or (evolve_result * store) :=
  match get_logical_schema mk st source_id with
  | Raised e => Raised e
  | Returned _ => Returned (evolve_schema st env source_id sample_docs fid)
  end.

(** A sequence of calls for one source, each on the store the previous one
    left; the results in call order. *)
Fixpoint evolve_calls (st : store) (source_id : option str)
    (calls : list (call_env * pyval * option str)) : list evolve_result :=
  match calls with
  | [] => []
  | (env, docs, fid) :: rest =>
      let (r, st') := evolve_schema st env source_id docs fid in
      r :: evolve_calls st' source_id rest
  end.
End Registry.

(** Reading a [CREATE TABLE] text back: the quoted names that open its
    column lines (four spaces, a double quote, the name, a double quote). *)
Fixpoint split_on (sep : N) (cur : str) (s : str) : list str :=
  match s with
  | [] => [rev cur]
  | c :: s' => if c =? sep then rev cur :: split_on sep [] s'
               else split_on sep (c :: cur) s'
  end.

Definition quoted_name (line : str) : option str :=
  match line with
  | 32 :: 32 :: 32 :: 32 :: 34 :: rest => Some (fst (split_first DQUOTE rest))
  | _ => None
  end.

Definition ddl_columns (text : str) : list str :=
  flat_map (fun line => match quoted_name line with Some n => [n] | None => [] end)
           (split_on LF [] text).

(** ** The vocabulary of the properties *)

Definition single_line (s : str) : Prop := Forall (fun c => is_linebreak c = false) s.

Definition pending (st : csv_state) : bool :=
  negb (is_nil (field st)) || is_in_quoted (mode st).

(** A stand-in for the libraries on plain ASCII text: ASCII bytes decode to
    themselves, nothing parses as JSON or PDF, and there are no tables. *)
Definition plain_text_collaborators : Collaborators := {|
  json_loads := fun _ => None;
  utf8_decode_ignore :=
    fun b => filter (fun c => c <? 128) (map Byte.to_N b);
  pdf_extract_text := fun _ => None;
  soup_tables := fun _ => Some []
|}.

Definition bytes_of (s : str) : list Byte.byte :=
  flat_map (fun c => match Byte.of_N c with Some b => [b] | None => [] end) s.

(** Scenario C: the two lines [Name: Alice] and [Age: 30]. *)
Definition scenario_C_text : str := txt "Name: Alice" ++ [LF] ++ txt "Age: 30".

Definition is_clean_key_char (c : N) : bool :=
  is_lower_ascii c || is_digit_ascii c || (c =? UNDERSCORE).

(** [k] matches [^[a-z0-9_]+$] and is at most 60 characters long. *)
Definition clean_key (k : str) : Prop :=
  k <> [] /\ (length k <= 60)%nat /\ Forall (fun c => is_clean_key_char c = true) k.

Definition same_key_set (docs : list pydict) : Prop :=
  forall d d', In d docs -> In d' docs ->
               forall k, In k (dict_keys d) <-> In k (dict_keys d').

Definition all_values_scalar (docs : list pydict) : Prop :=
  forall d v, In d docs -> In v (dict_values d) -> is_nested v = false.

Definition no_tables (fr : fragments) : Prop :=
  csv_fragments fr = [] /\ html_tables fr = [].

(** Scenario A *)
Definition scenario_A_docs : list pydict :=
  [ [(txt "name", PStr (txt "Alice")); (txt "age", PStr (txt "30"))];
    [(txt "name", PStr (txt "Bob")); (txt "age", PStr (txt "41"))] ].

Definition no_fragments : fragments :=
  {| json_fragments := []; html_tables := []; csv_fragments := [];
     kv_pairs := []; raw_text := [] |}.

(** The number of documents that hold a dict or list value. *)
Definition docs_with_nested (sample_docs : list pyval) : nat :=
  length (filter (fun d => existsb is_nested (dict_values d)) (only_dicts sample_docs)).

(** Scenario B *)
Definition scenario_B_docs : list pyval :=
  [PDict [(txt "a", PInt 1); (txt "b", PDict [(txt "x", PInt 1)])]].

(** The values a field takes across the documents, in the order the loops
    visit them. *)
Definition occurrences_in (k : str) (d : pydict) : list pyval :=
  map snd (filter (fun kv => str_eqb (fst kv) k) d).

Definition occurrences (k : str) (docs : list pyval) : list pyval :=
  flat_map (occurrences_in k) (only_dicts docs).

(** A runtime in which nothing parses as a date. *)
Definition no_dates_runtime : Runtime :=
  {| py_repr := fun _ => txt "<value>"; dateutil_parse_ok := fun _ => false |}.

Section TallySpec.
Context {U : UnicodeTables} {R : Runtime}.

Definition count_kind (K : tally_kind) (vs : list pyval) : nat :=
  length (filter (fun v => is_kind (classify_value v) K) vs).

(** The statistics of one key after a run over some items. *)
Definition key_stats (k : str) (items : pydict) (init : option field_stats)
  : option field_stats :=
  fold_left (fun o kv =>
               if str_eqb (fst kv) k
               then Some (tally (snd kv) (match o with
                                          | Some s => s
                                          | None => fresh_stats (snd kv)
                                          end))
               else o)
            items init.

End TallySpec.

Definition stat_of (K : tally_kind) (s : field_stats) : nat :=
  match K with
  | KInt => st_int s | KFloat => st_float s | KBool => st_bool s
  | KDate => st_date s | KObject => st_object s | KArray => st_array s
  | KOther => 0
  end.





Definition no_char (x : N) (s : str) : Prop := Forall (fun c => (c =? x) = false) s.

Definition name_of_line (line : str) : list str :=
  match quoted_name line with Some n => [n] | None => [] end.

(** The outcome of the merge loop for one key. *)
Definition merged_key (k : str) (new_map : dict field_meta) (init : option field_meta)
  : option field_meta :=
  fold_left (fun o km =>
               if str_eqb (fst km) k
               then Some (match o with
                          | Some old => _merge_field_meta old (snd km)
                          | None => snd km
                          end)
               else o)
            new_map init.

Definition promotable (k : str) (m : field_meta) : bool :=
  (MIN_PROMOTE_COUNT <=? get_count 1 m)%Z && _is_plausible_field_name k.

Definition promote_step (promoted : dict field_meta) (km : str * field_meta)
  : dict field_meta :=
  if promotable (fst km) (snd km) then dict_set (fst km) (snd km) promoted
  else promoted.

(** The fields of a stored logical schema as [evolve_schema] leaves them:
    distinct names, each with a count of at least 2 and a plausible name. *)
Definition promoted_map (m : dict field_meta) : Prop :=
  NoDup (dict_keys m)
  /\ forall k meta, dict_get k m = Some meta -> promotable k meta = true.

Definition count_le (m1 m2 : field_meta) : Prop :=
  exists c1 c2, fm_count m1 = Some c1 /\ fm_count m2 = Some c2 /\ (c1 <= c2)%Z.

(** The same instance document, the storage error apart. *)
Definition same_instance_content (a b : instance_doc) : Prop :=
  schema_instance_id a = schema_instance_id b
  /\ generated_at a = generated_at b
  /\ i_source_id a = i_source_id b
  /\ file_id a = file_id b
  /\ properties a = properties b
  /\ i_fields a = i_fields b.

(** The same logical document, the storage error apart. *)
Definition same_logical_content (a b : logical_doc) : Prop :=
  logical_id a = logical_id b
  /\ updated_at a = updated_at b
  /\ l_source_id a = l_source_id b
  /\ fields_map a = fields_map b
  /\ l_fields a = l_fields b.

(** The exception a write ended with, if any. *)
Definition error_of (o : write_outcome) : option str :=
  match o with
  | WriteOk | WriteLost => None
  | OpenFailed e | DumpFailed e => Some e
  end.

(** The fields the registry reads back for a source. *)
Definition stored_fields (st : store) (source_id : option str) : dict field_meta :=
  match _load_json st (_logical_path source_id) with
  | Some logical => fields_map logical
  | None => []
  end.

Definition writes_succeed (env : call_env) : call_env :=
  {| now := now env; instance_write := WriteOk; logical_write := WriteOk |}.

(** No stored schema, or one without fields. *)
Definition nothing_promoted (st : store) (sid : option str) : Prop :=
  stored_fields st sid = [].

(** Scenario D: field [x] in the sample documents of two calls in a row. *)
Definition scenario_D_docs : pyval := PList [PDict [(txt "x", PInt 1)]].

Definition persisted (call : call_env * pyval * option str) : Prop :=
  logical_write (fst (fst call)) = WriteOk.

(** The order of one run of the interpreter: here the order in which the
    members were added. *)
Definition first_seen_order : SetOrder :=
  {| set_order := fun l => l; set_order_perm := @Permutation_refl str |}.

(** Any deterministic stand-in for the digest and the JSON printer. *)
Definition plain_digest : Digest :=
  {| sha1_hexdigest := fun s => s; json_dumps := fun _ => txt "{}" |}.

Definition ok_env (t : str) : call_env :=
  {| now := t; instance_write := WriteOk; logical_write := WriteOk |}.

(** A stored logical schema in which [x] has been seen twice. *)
Definition seeded_store : store :=
  [(txt "src/logical.json",
    LogicalJson {| logical_id := txt "schema_log_0"; updated_at := txt "t0";
                   l_source_id := Some (txt "src");
                   fields_map := [(txt "x", {| fm_name := Some (txt "x");
                                               fm_types := [txt "int"];
                                               fm_count := Some 2%Z;
                                               fm_first_seen := Some (txt "t0");
                                               fm_last_seen := Some (txt "t0");
                                               fm_example := PInt 1 |})];
                   l_fields := []; l_storage_error := None |})].

(** ** The vocabulary of the further properties *)

(** Walking a block body from brace depth [d]: the depth afterwards, or
    [None] if the depth drops to zero on the way. *)
Fixpoint stays_open (d : nat) (s : str) : option nat :=
  match s with
  | [] => Some d
  | c :: s' =>
      if c =? LBRACE then stays_open (S d) s'
      else if c =? RBRACE then
        match d with
        | S (S d') => stays_open (S d') s'
        | _ => None
        end
      else stays_open d s'
  end.

(** An opening brace, a body whose braces nest and close, the matching
    closing brace. *)
Definition brace_block (f : str) : Prop :=
  exists body, f = LBRACE :: body ++ [RBRACE] /\ stays_open 1 body = Some 1%nat.

Definition substring (f text : str) : Prop :=
  exists pre post, text = pre ++ f ++ post.

(** Neither a comma nor whitespace. *)
Definition is_payload (c : N) : bool := negb ((c =? COMMA) || is_space c).

(** No whitespace at either end. *)
Definition trimmed (s : str) : Prop := strip s = s.

Fixpoint no_double_space (s : str) : Prop :=
  match s with
  | c :: ((d :: _) as s') => ~ (c = SPACE /\ d = SPACE) /\ no_double_space s'
  | _ => True
  end.

(** Every maximal run of non-whitespace is shorter than 120 characters;
    [run] is the length of the run that is open. *)
Fixpoint short_tokens (run : nat) (s : str) : Prop :=
  match s with
  | [] => (run < 120)%nat
  | c :: s' => if is_space c then (run < 120)%nat /\ short_tokens O s'
               else short_tokens (S run) s'
  end.

(** The normal form [_clean_text] produces. *)
Definition clean_form (t : str) : Prop :=
  trimmed t
  /\ Forall (fun c => is_control c = false /\ (is_space c = true -> c = SPACE)) t
  /\ no_double_space t
  /\ short_tokens O t.

(** ** schema_generator.py: the document-store and JSON-Schema generators *)

(** A [bsonType] is one name or a list of names. *)
Inductive bson_type :=
| BsonOne (t : str)
| BsonAny (ts : list str).

Record mongo_property := {
  bsonType : bson_type;
  description : option str
}.

Definition mongo_property_of (t : str) : mongo_property :=
  if str_eqb t (txt "integer")
  then {| bsonType := BsonOne (txt "int"); description := Some (txt "type: " ++ t) |}
  else if str_eqb t (txt "decimal")
  then {| bsonType := BsonAny [txt "double"; txt "decimal"];
          description := Some (txt "type: " ++ t) |}
  else if str_eqb t (txt "boolean")
  then {| bsonType := BsonOne (txt "bool"); description := None |}
  else if str_eqb t (txt "date")
  then {| bsonType := BsonOne (txt "date"); description := None |}
  else if str_eqb t (txt "object")
  then {| bsonType := BsonOne (txt "object"); description := None |}
  else if str_eqb t (txt "array")
  then {| bsonType := BsonOne (txt "array"); description := None |}
  else {| bsonType := BsonOne (txt "string"); description := None |}.

(** The validator [{"$jsonSchema": {"bsonType": "object", "properties": ...}}]
    and the inferred fields. *)
Record mongo_schema := {
  validator_bsonType : str;
  validator_properties : dict mongo_property;
  mongo_fields : dict field_type
}.

Record json_property := {
  json_type : str;
  json_format : option str
}.

Definition json_property_of (t : str) : json_property :=
  if str_eqb t (txt "integer") then {| json_type := txt "integer"; json_format := None |}
  else if str_eqb t (txt "decimal") then {| json_type := txt "number"; json_format := None |}
  else if str_eqb t (txt "boolean") then {| json_type := txt "boolean"; json_format := None |}
  else if str_eqb t (txt "date")
  then {| json_type := txt "string"; json_format := Some (txt "date-time") |}
  else if str_eqb t (txt "object") then {| json_type := txt "object"; json_format := None |}
  else if str_eqb t (txt "array") then {| json_type := txt "array"; json_format := None |}
  else {| json_type := txt "string"; json_format := None |}.

(** [{"type": "object", "properties": props}] and the inferred fields. *)
Record json_schema := {
  schema_type : str;
  schema_properties : dict json_property;
  json_fields : dict field_type
}.

Section Generators.
Context {U : UnicodeTables} {R : Runtime}.

Definition generate_mongo_schema (cfg : StorageDecisionConfig)
    (collection_name : str) (docs : list pyval) : mongo_schema :=
  let field_types := infer_field_types cfg docs in
  let properties :=
    fold_left (fun props km =>
                 dict_set (fst km) (mongo_property_of (ft_type (snd km))) props)
              field_types [] in
  {| validator_bsonType := txt "object";
     validator_properties := properties;
     mongo_fields := field_types |}.

Definition generate_json_schema (cfg : StorageDecisionConfig) (docs : list pyval)
  : json_schema :=
  let field_types := infer_field_types cfg docs in
  let props :=
    fold_left (fun props km =>
                 dict_set (fst km) (json_property_of (ft_type (snd km))) props)
              field_types [] in
  {| schema_type := txt "object";
     schema_properties := props;
     json_fields := field_types |}.
End Generators.

(** ** sqlite_utils.py *)

Section SafeColumn.
Context {U : UnicodeTables}.

(** [_safe_colname]; the rewritten name holds ASCII only, where [isdigit]
    is the test for an ASCII digit. *)
Definition _safe_colname (name : str) : str :=
  let n := lower (map (fun c => if is_key_char c then c else UNDERSCORE) name) in
  let n := match n with
           | c :: _ => if is_digit_ascii c then txt "c_" ++ n else n
           | [] => n
           end in
  match n with
  | [] => txt "col"
  | _ => n
  end.
End SafeColumn.

(** ** transformer.py *)

(** The values [int(v)] and [float(v)] return, [None] when the conversion
    raises; they belong to the interpreter. *)
Class Conversions := {
  py_int : pyval -> option pyval;
  py_float : pyval -> option pyval
}.

Fixpoint is_prefix (p s : str) : bool :=
  match p, s with
  | [], _ => true
  | _ :: _, [] => false
  | x :: p', y :: s' => (x =? y) && is_prefix p' s'
  end.

(** [needle in hay] *)
Fixpoint contains (needle hay : str) : bool :=
  is_prefix needle hay
  || match hay with
     | [] => false
     | _ :: hay' => contains needle hay'
     end.

Section Transformer.
Context {U : UnicodeTables} {R : Runtime} {V : Conversions}.

Definition _cast_value (val : pyval) (target_type : str) : pyval :=
  if is_none val then PNone
  else if str_eqb target_type (txt "integer")
  then match py_int val with Some v => v | None => val end
  else if str_eqb target_type (txt "decimal")
  then match py_float val with Some v => v | None => val end
  else if str_eqb target_type (txt "boolean")
  then match val with
       | PBool _ => val
       | _ => PBool (existsb (str_eqb (lower (strip (py_str val))))
                             [txt "1"; txt "true"; txt "yes"; txt "y"])
       end
  else PStr (py_str val).

(** The target type chosen from the recorded type tags, if there are any. *)
Definition chosen_type (types : list str) : option str :=
  match types with
  | [] => None
  | _ =>
      let joined := lower (join [COMMA] types) in
      if contains (txt "int") joined || contains (txt "integer") joined
      then Some (txt "integer")
      else if contains (txt "float") joined || contains (txt "decimal") joined
      then Some (txt "decimal")
      else if contains (txt "bool") joined then Some (txt "boolean")
      else Some (txt "string")
  end.

(** One [k, v] of the loop: [out] and [extras]. *)
Definition transform_item (fields : dict field_meta) (acc : pydict * pydict)
    (kv : str * pyval) : pydict * pydict :=
  let (out, extras) := acc in
  match dict_get (fst kv) fields with
  | Some meta =>
      match chosen_type (fm_types meta) with
      | Some chosen => (dict_set (fst kv) (_cast_value (snd kv) chosen) out, extras)
      | None => (dict_set (fst kv) (snd kv) out, extras)
      end
  | None => (out, dict_set (fst kv) (snd kv) extras)
  end.

(** [transform_doc_best_effort(doc, logical_doc)]; [logical_doc] is [None]
    when the caller passes something that is not a dict, and [stamp] is the
    time of the call. *)
Definition transform_doc_best_effort (stamp : str) (doc : pyval)
    (logical : option logical_doc) : pydict :=
  match doc with
  | PDict d =>
      let fields := match logical with Some l => fields_map l | None => [] end in
      let (out, extras) := fold_left (transform_item fields) d ([], []) in
      let out := match extras with
                 | [] => out
                 | _ => dict_set (txt "_extra") (PDict extras) out
                 end in
      dict_set (txt "_normalized_at") (PStr stamp) out
  | _ => [(txt "_raw", doc)]
  end.
End Transformer.

(** ** upload.py: the candidate documents of a bundle *)

(** The JSON fragments, then one document of the key:value pairs if there
    are any; if that leaves nothing, one document holding the start of the raw
    text. *)
Definition candidate_docs (fr : fragments) : list pyval :=
  let docs :=
    map PDict (json_fragments fr)
    ++ match kv_pairs fr with
       | [] => []
       | kv => [PDict (dict_of_pairs (map (fun p => (fst p, PStr (snd p))) kv))]
       end in
  match docs, raw_text fr with
  | [], _ :: _ => [PDict [(txt "_text", PStr (firstn 500 (raw_text fr)))]]
  | _, _ => docs
  end.

Definition occurs_in_docs (k : str) (docs : list pydict) : Prop :=
  exists d, In d docs /\ In k (dict_keys d).

(** What the scanner holds while a block is open: the opening brace and a
    body that has kept the block open, at the depth of the stack. *)
Definition scan_state (depth : nat) (cur : str) : Prop :=
  match depth with
  | O => True
  | S _ => exists body, rev cur = LBRACE :: body /\ stays_open 1 body = Some depth
  end.

(** A key as [extract_kv_pairs] returns it. *)
Definition kv_key_ok (k : str) : Prop :=
  k <> [] /\ (length k <= 80)%nat /\ trimmed k
  /\ Forall (fun c => is_safe_key_char c = true) k.

(** Ordered by the name [key] extracts. *)
Definition key_le (A : Type) (key : A -> str) (a b : A) : Prop :=
  str_leb (key a) (key b) = true.

(** The field map normalization works with. *)
Definition fields_of_logical (logical : option logical_doc) : dict field_meta :=
  match logical with Some l => fields_map l | None => [] end.

(** A stand-in for [int] and [float] that converts numbers only. *)
Definition number_conversions : Conversions :=
  {| py_int := fun v => match v with
                        | PInt n => Some (PInt n)
                        | PBool b => Some (PInt (if b then 1 else 0))
                        | _ => None
                        end;
     py_float := fun v => match v with
                          | PFloat f => Some (PFloat f)
                          | PInt n => Some (PFloat (Ffin (inject_Z n)))
                          | _ => None
                          end |}.

(** A stand-in whose JSON parser knows the empty object only. *)
Definition empty_object_collaborators : Collaborators := {|
  json_loads := fun s => if str_eqb s (txt "{}") then Some (PDict []) else None;
  utf8_decode_ignore :=
    fun b => filter (fun c => c <? 128) (map Byte.to_N b);
  pdf_extract_text := fun _ => None;
  soup_tables := fun _ => Some []
|}.

(** * Properties *)

(** ** Strings and dictionaries *)

Lemma str_eqb_eq (a b : str) : str_eqb a b = true <-> a = b.
Proof.
  revert b; induction a as [|x a IH]; intros [|y b]; simpl; split;
    try congruence; try reflexivity.
  - rewrite andb_true_iff, N.eqb_eq, IH. intros [-> ->]; reflexivity.
  - intros E; injection E as -> ->.
    rewrite N.eqb_refl; simpl; apply IH; reflexivity.
Qed.

Lemma str_eqb_refl (a : str) : str_eqb a a = true.
Proof. apply str_eqb_eq; reflexivity. Qed.

Lemma str_eqb_neq (a b : str) : str_eqb a b = false <-> a <> b.
Proof.
  split.
  - intros E H. apply str_eqb_eq in H. congruence.
  - intros H. destruct (str_eqb a b) eqn:E; [|reflexivity].
    apply str_eqb_eq in E; contradiction.
Qed.

Lemma str_mem_In (k : str) (ks : list str) : str_mem k ks = true <-> In k ks.
Proof.
  induction ks as [|k' ks IH]; simpl.
  - split; [discriminate | tauto].
  - rewrite orb_true_iff, str_eqb_eq, IH. split; intros [H|H]; auto.
Qed.

(** Boolean facts about code points, by arithmetic. *)
Ltac char_arith :=
  unfold is_linebreak, is_space, is_control, is_key_char, is_safe_key_char,
    is_alpha_ascii, is_upper_ascii, is_lower_ascii, is_digit_ascii, in_range,
    LF, CR, SPACE, COMMA, COLON, DQUOTE, UNDERSCORE, DASH in *;
  rewrite <- ?not_true_iff_false in *;
  rewrite ?orb_true_iff, ?andb_true_iff, ?N.eqb_eq, ?N.leb_le, ?N.ltb_lt in *;
  lia.

Lemma linebreak_is_space (c : N) : is_linebreak c = true -> is_space c = true.
Proof. intros H. char_arith. Qed.

Lemma space_not_linebreak : is_linebreak SPACE = false.
Proof. reflexivity. Qed.

(** ** Cleaning leaves a single line *)

Lemma sub_runs_space_single_line (b : bool) (s : str) :
  single_line (sub_runs_aux is_space [SPACE] b s).
Proof.
  revert b; induction s as [|c s IH]; intros b; simpl.
  - constructor.
  - destruct (is_space c) eqn:E.
    + apply Forall_app; split; [|apply IH].
      destruct b; repeat constructor.
    + constructor; [|apply IH].
      destruct (is_linebreak c) eqn:L; [|reflexivity].
      apply linebreak_is_space in L; congruence.
Qed.

Lemma dropwhile_Forall (P : N -> Prop) (p : N -> bool) (s : str) :
  Forall P s -> Forall P (dropwhile p s).
Proof.
  induction 1 as [|c s Hc Hs IH]; simpl; [constructor|].
  destruct (p c); [exact IH | constructor; assumption].
Qed.

Lemma strip_Forall (P : N -> Prop) (s : str) : Forall P s -> Forall P (strip s).
Proof.
  intros H. unfold strip, rstrip, lstrip.
  apply Forall_rev, dropwhile_Forall, Forall_rev, dropwhile_Forall, H.
Qed.

Lemma clean_text_single_line (raw : str) : single_line (_clean_text raw).
Proof. unfold _clean_text. apply strip_Forall, sub_runs_space_single_line. Qed.

Lemma splitlines_aux_single_line (s cur : str) :
  single_line s ->
  splitlines_aux cur s = match rev cur ++ s with [] => [] | l => [l] end.
Proof.
  revert cur; induction s as [|c s IH]; intros cur H; simpl.
  - rewrite app_nil_r. destruct cur as [|x cur]; simpl; [reflexivity|].
    destruct (rev cur ++ [x]) eqn:E; [|reflexivity].
    apply app_eq_nil in E; destruct E; discriminate.
  - inversion H as [|? ? Hc Hs]; subst. rewrite Hc.
    rewrite (IH (c :: cur) Hs). simpl. rewrite <- app_assoc. reflexivity.
Qed.

Lemma splitlines_single_line (s : str) :
  single_line s -> splitlines s = match s with [] => [] | _ => [s] end.
Proof.
  intros H. unfold splitlines. rewrite splitlines_aux_single_line by exact H.
  destruct s; reflexivity.
Qed.

Lemma single_line_no_LF (s : str) : single_line s -> Forall (fun c => (c =? LF) = false) s.
Proof.
  apply Forall_impl. intros c H.
  destruct (c =? LF) eqn:E; [|reflexivity].
  apply N.eqb_eq in E; subst c. discriminate.
Qed.

Lemma stringio_lines_aux_no_LF (s cur : str) :
  Forall (fun c => (c =? LF) = false) s ->
  (length (stringio_lines_aux cur s) <= 1)%nat.
Proof.
  revert cur; induction s as [|c s IH]; intros cur H; simpl.
  - destruct cur; simpl; lia.
  - inversion H as [|? ? Hc Hs]; subst. rewrite Hc. apply IH, Hs.
Qed.

(** ** The csv reader returns at most one record per line *)

Lemma csv_records_bound (lines : list str) :
  forall st recs,
    csv_records st lines = Some recs ->
    (length recs <= length lines + (if pending st then 1 else 0))%nat.
Proof.
  induction lines as [|ln rest IH]; intros st recs; simpl.
  - fold (pending st). destruct (pending st); intros E; injection E as <-; simpl; lia.
  - destruct (csv_feed st ln) as [st'|]; [|discriminate].
    destruct (is_start_record (mode st')).
    + destruct (csv_records csv_reset rest) as [recs'|] eqn:E; [|discriminate].
      simpl. intros H; injection H as <-.
      apply IH in E. simpl in *. lia.
    + intros E. apply IH in E. destruct (pending st'), (pending st); lia.
Qed.

Lemma csv_reader_bound (block : str) (recs : list (list str)) :
  csv_reader block = Some recs ->
  (length recs <= length (stringio_lines block))%nat.
Proof.
  intros E. unfold csv_reader in E. apply csv_records_bound in E.
  change (pending csv_reset) with false in E. cbv iota in E. lia.
Qed.

Section SingleLine.
Context {U : UnicodeTables}.

Lemma csv_block_records_single_line (block : str) :
  single_line block -> csv_block_records block = [].
Proof.
  intros H. unfold csv_block_records.
  destruct (count_char COMMA block <? 1)%nat; [reflexivity|].
  destruct (csv_reader block) as [reader|] eqn:E; [|reflexivity].
  apply csv_reader_bound in E.
  pose proof (stringio_lines_aux_no_LF [] (single_line_no_LF H)) as B.
  unfold stringio_lines in E.
  destruct (length reader <? 2)%nat eqn:L; [reflexivity|].
  apply Nat.ltb_ge in L. lia.
Qed.

Lemma extract_csv_fragments_single_line (text : str) :
  single_line text -> extract_csv_fragments text = [].
Proof.
  intros H. unfold extract_csv_fragments.
  rewrite (splitlines_single_line H).
  destruct text as [|c text]; [reflexivity|].
  cbn [filter].
  destruct (negb (is_nil (strip (c :: text))));
    cbn [length Nat.max seq flat_map skipn firstn join];
    rewrite app_nil_r; apply csv_block_records_single_line;
    [exact H | constructor].
Qed.

Lemma extract_kv_pairs_single_line (text : str) :
  single_line text -> (length (extract_kv_pairs text) <= 1)%nat.
Proof.
  intros H. unfold extract_kv_pairs.
  rewrite (splitlines_single_line H).
  destruct text as [|c text]; simpl; [lia|].
  rewrite app_nil_r. destruct (kv_of_line (c :: text)); simpl; lia.
Qed.
End SingleLine.

(** ** The fragment bundle *)

(** C3: whatever the bytes and the file name, the bundle has no CSV fragment
    and at most one key:value pair, because the cleaned text, whatever the
    decoded text was, is one line. *)
Theorem bundle_csv_empty_kv_at_most_one
    {U : UnicodeTables} {C : Collaborators}
    (b : list Byte.byte) (filename : option str) :
  csv_fragments (extract_fragments_from_bytes b filename) = []
  /\ (length (kv_pairs (extract_fragments_from_bytes b filename)) <= 1)%nat
  /\ (forall raw, single_line (_clean_text raw)
                  /\ (length (splitlines (_clean_text raw)) <= 1)%nat).
Proof.
  unfold extract_fragments_from_bytes; cbn [csv_fragments kv_pairs].
  split; [|split].
  - apply extract_csv_fragments_single_line, clean_text_single_line.
  - apply extract_kv_pairs_single_line, clean_text_single_line.
  - intros raw. split; [apply clean_text_single_line|].
    rewrite (splitlines_single_line (clean_text_single_line raw)).
    destruct (_clean_text raw); simpl; lia.
Qed.

Lemma extract_fragments_kv_pairs
    {U : UnicodeTables} {C : Collaborators}
    (b : list Byte.byte) (filename : option str) :
  is_pdf_name filename = false ->
  kv_pairs (extract_fragments_from_bytes b filename)
  = extract_kv_pairs (_clean_text (utf8_decode_ignore b)).
Proof. intros H. unfold extract_fragments_from_bytes. rewrite H. reflexivity. Qed.

(** C2 (the code departs from the claim): on the bytes of scenario C the
    bundle holds the single pair [("Name", "Alice Age: 30")], because
    [_clean_text] has already turned the newline into a space; the same
    extractor applied to the text as given returns the two pairs in order. *)
Theorem scenario_C_bundle_merges_the_lines
    {U : UnicodeTables} {C : Collaborators}
    (b : list Byte.byte) (filename : option str) :
  is_pdf_name filename = false ->
  utf8_decode_ignore b = scenario_C_text ->
  kv_pairs (extract_fragments_from_bytes b filename)
    = [(txt "Name", txt "Alice Age: 30")]
  /\ extract_kv_pairs scenario_C_text
    = [(txt "Name", txt "Alice"); (txt "Age", txt "30")].
Proof.
  intros Hpdf Hdec. rewrite (extract_fragments_kv_pairs _ _ Hpdf), Hdec.
  split; vm_compute; reflexivity.
Qed.

Lemma scenario_C_bundle_witness :
  kv_pairs (extract_fragments_from_bytes (U := ascii_tables)
              (C := plain_text_collaborators) (bytes_of scenario_C_text) None)
    = [(txt "Name", txt "Alice Age: 30")]
  /\ extract_kv_pairs scenario_C_text
    = [(txt "Name", txt "Alice"); (txt "Age", txt "30")].
Proof.
  apply (scenario_C_bundle_merges_the_lines (U := ascii_tables)
           (C := plain_text_collaborators) (bytes_of scenario_C_text) None).
  - reflexivity.
  - vm_compute. reflexivity.
Defined.

(** ** Dictionaries *)

Section DictFacts.
Variable V : Type.

Lemma dict_get_set (k k' : str) (v : V) (d : dict V) :
  dict_get k (dict_set k' v d) = if str_eqb k k' then Some v else dict_get k d.
Proof.
  induction d as [|[k0 v0] d IH]; simpl.
  - destruct (str_eqb k k'); reflexivity.
  - destruct (str_eqb k' k0) eqn:E; simpl.
    + apply str_eqb_eq in E; subst k0.
      destruct (str_eqb k k'); reflexivity.
    + destruct (str_eqb k k0) eqn:E0.
      * apply str_eqb_eq in E0; subst k0.
        assert (str_eqb k k' = false) as ->; [|reflexivity].
        apply str_eqb_neq. apply str_eqb_neq in E. congruence.
      * exact IH.
Qed.

Lemma dict_keys_set (k k' : str) (v : V) (d : dict V) :
  In k (dict_keys (dict_set k' v d)) <-> k = k' \/ In k (dict_keys d).
Proof.
  induction d as [|[k0 v0] d IH]; simpl.
  - intuition.
  - destruct (str_eqb k' k0) eqn:E; simpl.
    + apply str_eqb_eq in E; subst k0. intuition congruence.
    + rewrite IH. tauto.
Qed.

Lemma dict_get_In (k : str) (v : V) (d : dict V) :
  dict_get k d = Some v -> In (k, v) d.
Proof.
  induction d as [|[k0 v0] d IH]; simpl; [discriminate|].
  destruct (str_eqb k k0) eqn:E.
  - apply str_eqb_eq in E; subst k0. intros H; injection H as ->. left; reflexivity.
  - intros H; right; apply IH, H.
Qed.

Lemma dict_mem_keys (k : str) (d : dict V) :
  dict_mem k d = true <-> In k (dict_keys d).
Proof.
  unfold dict_mem. induction d as [|[k0 v0] d IH]; simpl.
  - split; [discriminate | contradiction].
  - destruct (str_eqb k k0) eqn:E.
    + apply str_eqb_eq in E; subst k0. tauto.
    + rewrite IH. apply str_eqb_neq in E. intuition congruence.
Qed.

Lemma dict_set_length (k : str) (v : V) (d : dict V) :
  length (dict_set k v d) = if dict_mem k d then length d else S (length d).
Proof.
  unfold dict_mem. induction d as [|[k0 v0] d IH]; simpl; [reflexivity|].
  destruct (str_eqb k k0); simpl; [reflexivity|].
  rewrite IH. destruct (dict_get k d); reflexivity.
Qed.

Lemma dict_set_NoDup (k : str) (v : V) (d : dict V) :
  NoDup (dict_keys d) -> NoDup (dict_keys (dict_set k v d)).
Proof.
  induction d as [|[k0 v0] d IH]; simpl; intros H.
  - repeat constructor. intros [].
  - inversion H as [|? ? Hn Hd]; subst.
    destruct (str_eqb k k0) eqn:E; simpl.
    + constructor; assumption.
    + constructor; [|apply IH, Hd].
      fold (dict_keys (dict_set k v d)). rewrite dict_keys_set.
      apply str_eqb_neq in E. intros [->|Hin]; [congruence | contradiction].
Qed.
End DictFacts.

(** ** Sanitized keys *)

Lemma sub_runs_aux_In (p : N -> bool) (rep : str) (c : N) (s : str) (b : bool) :
  In c (sub_runs_aux p rep b s) -> In c rep \/ In c s.
Proof.
  revert b; induction s as [|x s IH]; intros b; simpl; [tauto|].
  destruct (p x).
  - rewrite in_app_iff. intros [H|H].
    + destruct b; [contradiction | auto].
    + apply IH in H. tauto.
  - intros [->|H]; [auto|]. apply IH in H. tauto.
Qed.

Section SanitizeFacts.
Context {U : UnicodeTables}.
Hypothesis lower_never_upper :
  forall c x, 128 <= c -> In x (lower_nonascii c) -> is_upper_ascii x = false.

Lemma lower_not_upper (s : str) (x : N) : In x (lower s) -> is_upper_ascii x = false.
Proof.
  unfold lower. rewrite in_flat_map. intros (c & _ & H).
  unfold lower_char in H.
  destruct (is_upper_ascii c) eqn:E.
  - destruct H as [<-|[]]. char_arith.
  - destruct (c <? 128) eqn:L.
    + destruct H as [<-|[]]. exact E.
    + apply lower_never_upper with (c := c); [|exact H]. apply N.ltb_ge in L. lia.
Qed.

Lemma sanitize_key_chars (k : str) :
  Forall (fun c => is_clean_key_char c = true) (sanitize_key k).
Proof.
  unfold sanitize_key. apply Forall_forall. intros c H.
  apply filter_In in H. destruct H as [H K].
  apply sub_runs_aux_In in H. destruct H as [[<-|[]]|H]; [reflexivity|].
  apply lower_not_upper in H.
  unfold is_clean_key_char. unfold is_key_char, is_alpha_ascii in K.
  rewrite H in K. exact K.
Qed.

Lemma accepted_key_clean (k : str) :
  key_rejected (sanitize_key k) = false -> clean_key (sanitize_key k).
Proof.
  unfold key_rejected. intros H. apply orb_false_iff in H. destruct H as [H1 H2].
  repeat split.
  - intros E. rewrite E in H1. discriminate.
  - apply Nat.ltb_ge in H2. exact H2.
  - apply sanitize_key_chars.
Qed.

(** What [_sanitize_keys] keeps: every entry of the result is the value of
    an input key whose rewritten form was accepted, under that form. *)
Lemma sanitize_keys_fold (V : Type) (d : dict V) :
  forall (acc : dict V) (k : str) (v : V),
    dict_get k (fold_left (fun out kv =>
                 let k2 := sanitize_key (fst kv) in
                 if key_rejected k2 then out else dict_set k2 (snd kv) out) d acc)
      = Some v ->
    dict_get k acc = Some v
    \/ exists k0, In (k0, v) d /\ sanitize_key k0 = k /\ key_rejected k = false.
Proof.
  induction d as [|[k1 v1] d IH]; intros acc k v; simpl; [auto|].
  intros H. apply IH in H. destruct H as [H|(k0 & Hin & Hk & Hr)].
  - destruct (key_rejected (sanitize_key k1)) eqn:R; [auto|].
    rewrite dict_get_set in H.
    destruct (str_eqb k (sanitize_key k1)) eqn:E; [|auto].
    apply str_eqb_eq in E. injection H as ->.
    right. exists k1. subst k. auto.
  - right. exists k0. auto.
Qed.

Lemma sanitize_keys_entry (V : Type) (d : dict V) (k : str) (v : V) :
  dict_get k (_sanitize_keys d) = Some v ->
  exists k0, In (k0, v) d /\ sanitize_key k0 = k /\ key_rejected k = false.
Proof.
  intros H. apply sanitize_keys_fold in H.
  destruct H as [H|H]; [discriminate | exact H].
Qed.

Lemma dict_keys_get (V : Type) (d : dict V) (k : str) :
  In k (dict_keys d) -> exists v, dict_get k d = Some v.
Proof.
  intros H. apply dict_mem_keys in H. unfold dict_mem in H.
  destruct (dict_get k d) as [v|]; [eauto | discriminate].
Qed.

Lemma sanitize_keys_clean (V : Type) (d : dict V) (k : str) :
  In k (dict_keys (_sanitize_keys d)) -> clean_key k.
Proof.
  intros H. apply dict_keys_get in H. destruct H as [v H].
  apply sanitize_keys_entry in H. destruct H as (k0 & _ & <- & R).
  apply accepted_key_clean, R.
Qed.

Lemma csv_block_records_clean (block : str) (rec : dict str) (k : str) :
  In rec (csv_block_records block) -> In k (dict_keys rec) -> clean_key k.
Proof.
  unfold csv_block_records.
  destruct (count_char COMMA block <? 1)%nat; [contradiction|].
  destruct (csv_reader block) as [reader|]; [|contradiction].
  destruct (length reader <? 2)%nat; [contradiction|].
  destruct reader as [|header data]; [contradiction|].
  destruct (negb (existsb has_letter header)); [contradiction|].
  rewrite in_map_iff. intros (r & <- & _). apply sanitize_keys_clean.
Qed.

Lemma table_records_clean (rows : list (list str)) (rec : dict str) (k : str) :
  In rec (table_records rows) -> In k (dict_keys rec) -> clean_key k.
Proof.
  unfold table_records. destruct rows as [|hdr data]; [contradiction|].
  destruct ((2 <=? length (hdr :: data))%nat && existsb has_letter hdr).
  - rewrite in_map_iff. intros (r & <- & _). apply sanitize_keys_clean.
  - destruct ((2 <=? length (hdr :: data))%nat
              && forallb (fun r => (length r =? length hdr)%nat) (hdr :: data));
      [|contradiction].
    rewrite in_map_iff. intros (r & <- & _). apply sanitize_keys_clean.
Qed.

(** C10: every key of every record of the CSV and HTML-table paths is made
    of [a-z0-9_] only, is not empty and has at most 60 characters; and an
    entry of a sanitized record always comes from an input key whose
    rewritten form passed the test, so a key whose form is empty or longer
    than 60 characters leaves neither key nor value behind. *)
Theorem table_and_csv_keys_are_clean :
  (forall text rec k,
      In rec (extract_csv_fragments text) -> In k (dict_keys rec) -> clean_key k)
  /\ (forall (C : Collaborators) text rec k,
      In rec (extract_html_tables text) -> In k (dict_keys rec) -> clean_key k)
  /\ (forall (V : Type) (d : dict V) k v,
      dict_get k (_sanitize_keys d) = Some v ->
      clean_key k
      /\ exists k0, In (k0, v) d /\ sanitize_key k0 = k /\ key_rejected k = false).
Proof.
  split; [|split].
  - intros text rec k. unfold extract_csv_fragments. rewrite in_flat_map.
    intros (i & _ & H). revert H. apply csv_block_records_clean.
  - intros C text rec k. unfold extract_html_tables.
    destruct (soup_tables text) as [tables|]; [|contradiction].
    rewrite in_flat_map. intros (trs & _ & H). revert H. apply table_records_clean.
  - intros V d k v H. split.
    + apply sanitize_keys_clean with (d := d).
      apply dict_mem_keys. unfold dict_mem. rewrite H. reflexivity.
    + apply sanitize_keys_entry, H.
Qed.
End SanitizeFacts.

Lemma ascii_tables_never_upper (c x : N) :
  128 <= c -> In x (lower_nonascii (UnicodeTables := ascii_tables) c) ->
  is_upper_ascii x = false.
Proof. intros Hc [<-|[]]. char_arith. Qed.

Lemma table_and_csv_keys_witness :
  clean_key (txt "full_name")
  /\ exists k0, In (k0, txt "Alice") [(txt " Full  Name! ", txt "Alice"); (txt "???", txt "x")]
                /\ sanitize_key (U := ascii_tables) k0 = txt "full_name"
                /\ key_rejected (txt "full_name") = false.
Proof.
  apply (proj2 (proj2 (@table_and_csv_keys_are_clean ascii_tables
                         ascii_tables_never_upper))
           str [(txt " Full  Name! ", txt "Alice"); (txt "???", txt "x")]).
  vm_compute. reflexivity.
Defined.

(** ** Storage decision *)

Lemma only_dicts_map (docs : list pydict) : only_dicts (map PDict docs) = docs.
Proof. induction docs as [|d docs IH]; simpl; [|rewrite IH]; reflexivity. Qed.

Lemma has_nested_value_existsb (vs : list pyval) :
  has_nested_value vs = existsb is_nested vs.
Proof.
  induction vs as [|v vs IH]; simpl; [reflexivity|].
  destruct (is_nested v); [reflexivity | exact IH].
Qed.

(** The loop that counts the documents with a nested value. *)
Lemma nested_count_fold (docs : list pydict) (n : nat) :
  fold_left (fun n d => if has_nested_value (dict_values d) then S n else n) docs n
  = (n + length (filter (fun d => existsb is_nested (dict_values d)) docs))%nat.
Proof.
  revert n; induction docs as [|d docs IH]; intros n; simpl; [lia|].
  rewrite IH, has_nested_value_existsb.
  destruct (existsb is_nested (dict_values d)); simpl; lia.
Qed.

Lemma dedup_In (k : str) (ks : list str) : In k (dedup ks) <-> In k ks.
Proof.
  induction ks as [|k' ks IH]; simpl; [tauto|].
  destruct (str_mem k' ks) eqn:E.
  - rewrite IH. apply str_mem_In in E. intuition congruence.
  - simpl. rewrite IH. tauto.
Qed.

Lemma set_eqb_iff (a b : list str) :
  set_eqb a b = true <-> (forall k, In k a <-> In k b).
Proof.
  unfold set_eqb. rewrite andb_true_iff, !forallb_forall. split.
  - intros [H1 H2] k. split; intros H.
    + apply str_mem_In, H1, H.
    + apply str_mem_In, H2, H.
  - intros H. split; intros k Hk; apply str_mem_In, H, Hk.
Qed.

Lemma ratio_den (n : nat) : (1 <= n)%nat -> Zpos (Pos.of_nat n) = Z.of_nat n.
Proof.
  intros H. rewrite <- positive_nat_Z, Nat2Pos.id by lia. reflexivity.
Qed.

Lemma binary64_one (n : nat) :
  (1 <= n)%nat -> binary64 (ratio n n) = (2 ^ 52 # Z.to_pos (2 ^ 52)).
Proof.
  intros H. unfold binary64, ratio. cbn [Qnum Qden].
  rewrite (ratio_den H).
  assert (Z.of_nat n <> 0)%Z as Hn by lia.
  assert ((Z.of_nat n <=? 0)%Z = false) as -> by (apply Z.leb_gt; lia).
  rewrite Z.sub_diag.
  change (Z.max (53 - 0) 0) with 53%Z. change (Z.max (- (53 - 0)) 0) with 0%Z.
  change (2 ^ 0)%Z with 1%Z. rewrite !Z.mul_1_r.
  rewrite (Z.mul_comm (Z.of_nat n) (2 ^ 53)), Z.div_mul by exact Hn.
  rewrite Z.leb_refl. cbv iota.
  change (Z.max (52 - 0) 0) with 52%Z. change (Z.max (- (52 - 0)) 0) with 0%Z.
  change (2 ^ 0)%Z with 1%Z. rewrite !Z.mul_1_r.
  rewrite (Z.mul_comm (Z.of_nat n) (2 ^ 52)), Z.div_mul, Z.mod_mul by exact Hn.
  assert ((Z.of_nat n <? 2 * 0)%Z = false) as -> by (apply Z.ltb_ge; lia).
  assert ((2 * 0 =? Z.of_nat n)%Z = false) as -> by (apply Z.eqb_neq; lia).
  reflexivity.
Qed.

Lemma fmt_2f_one (n : nat) : (1 <= n)%nat -> fmt_2f (ratio n n) = txt "1.00".
Proof.
  intros H. unfold fmt_2f. rewrite (binary64_one H). vm_compute. reflexivity.
Qed.

Lemma ratio_full_consistency (n : nat) :
  (1 <= n)%nat -> Qle_bool (CONSISTENCY_THRESHOLD CFG) (ratio n n) = true.
Proof.
  intros H. unfold Qle_bool, ratio. cbn [Qnum Qden CONSISTENCY_THRESHOLD CFG].
  rewrite (ratio_den H). apply Z.leb_le. lia.
Qed.

Lemma flat_consistent_docs_are_sql (fr : fragments) (first : pydict) (rest : list pydict) :
  no_tables fr ->
  (2 <= length (first :: rest))%nat ->
  same_key_set (first :: rest) ->
  dict_keys first <> [] ->
  all_values_scalar (first :: rest) ->
  detect_storage_type CFG (map PDict (first :: rest)) fr
  = (txt "sql",
     txt "consistent flat rows (" ++ str_of_nat (length (keyset first))
     ++ txt " cols, consistency=1.00)").
Proof.
  intros [Hcsv Hhtml] Hlen Hkeys Hne Hscalar.
  unfold detect_storage_type. rewrite Hcsv, Hhtml. cbn [negb].
  rewrite only_dicts_map.
  set (docs := first :: rest) in *.
  assert (filter (fun d => existsb is_nested (dict_values d)) docs = []) as Hnest.
  { transitivity (filter (fun _ => false) docs); [|apply filter_false].
    apply filter_ext_in. intros d Hd.
    destruct (existsb is_nested (dict_values d)) eqn:E; [|reflexivity].
    apply existsb_exists in E. destruct E as (v & Hv & Nv).
    rewrite (Hscalar d v Hd Hv) in Nv. discriminate. }
  rewrite nested_count_fold, Hnest. cbn [length Nat.add Nat.ltb Nat.leb].
  assert (filter (fun s => set_eqb s (keyset first)) (map keyset docs) = map keyset docs)
    as Hsame.
  { apply forallb_filter_id. apply forallb_forall. intros s Hs.
    apply in_map_iff in Hs. destruct Hs as (d & <- & Hd).
    apply set_eqb_iff. intros k. unfold keyset. rewrite !dedup_In.
    apply Hkeys; [exact Hd | left; reflexivity]. }
  rewrite Hsame, length_map.
  assert (1 <= length docs)%nat as Hpos by lia.
  rewrite (ratio_full_consistency Hpos), (fmt_2f_one Hpos).
  assert ((MIN_DOCS_FOR_CONSISTENCY CFG <=? length docs)%nat = true) as ->
    by (apply Nat.leb_le; exact Hlen).
  assert ((MIN_COLUMNS_FOR_SQL CFG <=? length (keyset first))%nat = true) as ->.
  { apply Nat.leb_le. cbn [MIN_COLUMNS_FOR_SQL CFG].
    destruct (keyset first) as [|k ks] eqn:E; [|simpl; lia].
    destruct (dict_keys first) as [|k ks] eqn:K; [congruence|].
    assert (In k (keyset first)) as Hin
        by (unfold keyset; rewrite K; apply dedup_In; left; reflexivity).
    rewrite E in Hin. contradiction. }
  assert (forallb (fun d => forallb (_is_scalar CFG) (dict_values d)) docs = true) as ->.
  { apply forallb_forall. intros d Hd. apply forallb_forall. intros v Hv.
    unfold _is_scalar. rewrite (Hscalar d v Hd Hv). reflexivity. }
  reflexivity.
Qed.

(** C5: with no CSV fragment and no HTML table, at least two documents that
    share one non-empty key set and hold scalar values only are classified
    [sql]; for scenario A the reason cites 2 columns and consistency 1.00. *)
Theorem consistent_scalar_docs_decide_sql :
  (forall (fr : fragments) (docs : list pydict),
      no_tables fr ->
      (2 <= length docs)%nat ->
      same_key_set docs ->
      (forall d, In d docs -> dict_keys d <> []) ->
      all_values_scalar docs ->
      fst (detect_storage_type CFG (map PDict docs) fr) = txt "sql")
  /\ (forall fr : fragments,
      no_tables fr ->
      detect_storage_type CFG (map PDict scenario_A_docs) fr
      = (txt "sql", txt "consistent flat rows (2 cols, consistency=1.00)")).
Proof.
  split.
  - intros fr docs Hfr Hlen Hkeys Hne Hscalar.
    destruct docs as [|first rest]; [simpl in Hlen; lia|].
    rewrite (flat_consistent_docs_are_sql Hfr Hlen Hkeys); [reflexivity| |exact Hscalar].
    apply Hne. left; reflexivity.
  - intros fr Hfr. unfold scenario_A_docs.
    rewrite (@flat_consistent_docs_are_sql fr _ _ Hfr).
    + reflexivity.
    + simpl; lia.
    + intros d d' Hd Hd' k.
      assert (dict_keys d = [txt "name"; txt "age"]) as ->
          by (destruct Hd as [<-|[<-|[]]]; reflexivity).
      assert (dict_keys d' = [txt "name"; txt "age"]) as ->
          by (destruct Hd' as [<-|[<-|[]]]; reflexivity).
      tauto.
    + discriminate.
    + intros d v Hd Hv.
      destruct Hd as [<-|[<-|[]]]; destruct Hv as [<-|[<-|[]]]; reflexivity.
Qed.

Lemma consistent_scalar_docs_witness :
  detect_storage_type CFG (map PDict scenario_A_docs) no_fragments
  = (txt "sql", txt "consistent flat rows (2 cols, consistency=1.00)").
Proof.
  apply (proj2 consistent_scalar_docs_decide_sql no_fragments).
  split; reflexivity.
Defined.

Lemma in_only_dicts (d : pydict) (xs : list pyval) :
  In d (only_dicts xs) <-> In (PDict d) xs.
Proof.
  induction xs as [|x xs IH]; simpl; [tauto|].
  destruct x; simpl; rewrite IH; intuition (try discriminate; try congruence).
Qed.

(** C6: with no CSV fragment and no HTML table, as soon as one document
    holds a dict or list value the decision is [nosql], with the number of
    such documents in the reason, whatever the key sets and the
    thresholds. *)
Theorem nested_docs_decide_nosql
    (cfg : StorageDecisionConfig) (fr : fragments) (sample_docs : list pyval)
    (d : pydict) (v : pyval) :
  no_tables fr ->
  In (PDict d) sample_docs -> In v (dict_values d) -> is_nested v = true ->
  detect_storage_type cfg sample_docs fr
  = (txt "nosql",
     txt "found nested structures in " ++ str_of_nat (docs_with_nested sample_docs)
     ++ txt " docs").
Proof.
  intros [Hcsv Hhtml] Hd Hv Hn.
  unfold detect_storage_type, docs_with_nested. rewrite Hcsv, Hhtml. cbn [negb].
  apply in_only_dicts in Hd.
  destruct (only_dicts sample_docs) as [|first rest] eqn:E; [contradiction|].
  rewrite nested_count_fold. cbn [Nat.add].
  assert (In d (filter (fun d => existsb is_nested (dict_values d)) (first :: rest)))
    as Hin.
  { apply filter_In. split; [exact Hd|].
    apply existsb_exists. exists v. split; assumption. }
  destruct (filter (fun d => existsb is_nested (dict_values d)) (first :: rest))
    as [|x l]; [contradiction|].
  reflexivity.
Qed.

Lemma nested_docs_witness :
  detect_storage_type CFG scenario_B_docs no_fragments
  = (txt "nosql", txt "found nested structures in 1 docs").
Proof.
  apply (@nested_docs_decide_nosql CFG no_fragments scenario_B_docs
           [(txt "a", PInt 1); (txt "b", PDict [(txt "x", PInt 1)])]
           (PDict [(txt "x", PInt 1)])).
  - split; reflexivity.
  - simpl. left. reflexivity.
  - simpl. right. left. reflexivity.
  - reflexivity.
Defined.

(** ** Type inference *)

Section InferFacts.
Context {U : UnicodeTables} {R : Runtime}.

Lemma str_eqb_sym (a b : str) : str_eqb a b = str_eqb b a.
Proof.
  destruct (str_eqb b a) eqn:E.
  - apply str_eqb_eq in E; subst. apply str_eqb_refl.
  - apply str_eqb_neq. apply str_eqb_neq in E. congruence.
Qed.

Lemma tally_items_get (k : str) (items : pydict) :
  forall stats, dict_get k (fold_left tally_item items stats)
                = key_stats k items (dict_get k stats).
Proof.
  induction items as [|[k1 v1] items IH]; intros stats; [reflexivity|].
  cbn [fold_left key_stats]. rewrite IH. unfold tally_item. cbn [fst snd].
  rewrite dict_get_set, (str_eqb_sym k1 k).
  destruct (str_eqb k k1) eqn:E; [|reflexivity].
  apply str_eqb_eq in E; subst k1. reflexivity.
Qed.

Lemma infer_stats_get_fold (k : str) (ds : list pydict) :
  forall stats,
    dict_get k (fold_left (fun stats d => fold_left tally_item d stats) ds stats)
    = key_stats k (concat ds) (dict_get k stats).
Proof.
  induction ds as [|d ds IH]; intros stats; [reflexivity|].
  cbn [fold_left concat]. rewrite IH, tally_items_get.
  unfold key_stats. rewrite fold_left_app. reflexivity.
Qed.

Lemma stat_of_tally (K : tally_kind) (v : pyval) (s : field_stats) :
  K <> KOther ->
  stat_of K (tally v s) = bump (is_kind (classify_value v) K) (stat_of K s).
Proof. intros H. destruct K; try reflexivity. congruence. Qed.

Lemma key_stats_counts (k : str) (K : tally_kind) (items : pydict) :
  K <> KOther ->
  forall init,
    match key_stats k items init with
    | Some s =>
        let n0 := match init with Some s0 => stat_of K s0 | None => O end in
        let c0 := match init with Some s0 => counts s0 | None => O end in
        stat_of K s = (n0 + count_kind K (occurrences_in k items))%nat
        /\ counts s = (c0 + length (occurrences_in k items))%nat
    | None => init = None /\ occurrences_in k items = []
    end.
Proof.
  intros HK. induction items as [|[k1 v1] items IH]; intros init.
  - simpl. destruct init; simpl; auto.
  - cbn [key_stats fold_left fst snd]. unfold occurrences_in. cbn [filter fst].
    destruct (str_eqb k1 k) eqn:E.
    + specialize (IH (Some (tally v1 (match init with
                                      | Some s => s
                                      | None => fresh_stats v1
                                      end)))).
      unfold key_stats in IH. cbn [fst snd] in IH.
      destruct (fold_left _ items _) as [s|]; [|destruct IH; discriminate].
      cbn zeta in IH. destruct IH as [IH1 IH2].
      rewrite IH1, IH2, (stat_of_tally _ _ HK).
      unfold count_kind, occurrences_in. cbn [map filter snd length].
      destruct init as [s0|]; cbn [tally counts];
        destruct (is_kind (classify_value v1) K); cbn [bump length];
        destruct K; cbn [stat_of fresh_stats st_int st_float st_bool st_date
                           st_object st_array counts]; split; lia.
    + apply IH.
Qed.

Lemma occurrences_concat (k : str) (ds : list pydict) :
  occurrences_in k (concat ds) = flat_map (occurrences_in k) ds.
Proof.
  induction ds as [|d ds IH]; [reflexivity|].
  unfold occurrences_in in *. cbn [concat flat_map].
  rewrite filter_app, map_app, IH. reflexivity.
Qed.

(** Each tally is the number of occurrences that took its branch. *)
Lemma infer_stats_tallies (docs : list pyval) (k : str) (s : field_stats)
      (K : tally_kind) :
  K <> KOther ->
  dict_get k (infer_stats docs) = Some s ->
  stat_of K s = count_kind K (occurrences k docs)
  /\ counts s = length (occurrences k docs).
Proof.
  intros HK H. unfold infer_stats in H. rewrite infer_stats_get_fold in H.
  pose proof (key_stats_counts k (concat (only_dicts docs)) HK None) as P.
  cbn [dict_get] in H. rewrite H in P. cbn zeta in P.
  rewrite occurrences_concat in P. exact P.
Qed.





Lemma filter_length_le (A : Type) (p q : A -> bool) (l : list A) :
  (forall a, p a = true -> q a = true) ->
  (length (filter p l) <= length (filter q l))%nat.
Proof.
  intros H. induction l as [|a l IH]; simpl; [lia|].
  destruct (p a) eqn:P.
  - rewrite (H a P). simpl. lia.
  - destruct (q a); simpl; lia.
Qed.

Lemma dict_get_map (A B : Type) (f : A -> B) (k : str) (d : dict A) :
  dict_get k (map (fun ks => (fst ks, f (snd ks))) d) = option_map f (dict_get k d).
Proof.
  induction d as [|[k0 v0] d IH]; simpl; [reflexivity|].
  destruct (str_eqb k k0); [reflexivity | exact IH].
Qed.


End InferFacts.



(** An actual boolean is accepted by [float] and is not an integer for
    [_is_int], so it takes the float branch and a column of booleans is typed
    decimal. *)
Remark actual_boolean_is_tallied_float {U : UnicodeTables} {R : Runtime} (b : bool) :
  classify_value (PBool b) = KFloat
  /\ option_map ft_type
       (dict_get (txt "flag")
          (infer_field_types CFG [PDict [(txt "flag", PBool b)]]))
     = Some (txt "decimal").
Proof. split; reflexivity. Qed.

(** ** Relational DDL *)

Lemma split_on_no_sep (sep : N) (a cur : str) :
  no_char sep a -> split_on sep cur a = [rev cur ++ a].
Proof.
  revert cur; induction a as [|c a IH]; intros cur H; simpl.
  - rewrite app_nil_r. reflexivity.
  - inversion H as [|? ? Hc Ha]; subst. rewrite Hc, (IH _ Ha). simpl.
    rewrite <- app_assoc. reflexivity.
Qed.

Lemma split_on_app (sep : N) (a b cur : str) :
  no_char sep a ->
  split_on sep cur (a ++ sep :: b) = (rev cur ++ a) :: split_on sep [] b.
Proof.
  revert cur; induction a as [|c a IH]; intros cur H; simpl.
  - rewrite N.eqb_refl, app_nil_r. reflexivity.
  - inversion H as [|? ? Hc Ha]; subst. rewrite Hc, (IH _ Ha). simpl.
    rewrite <- app_assoc. reflexivity.
Qed.

Lemma split_first_no_sep (x : N) (a b : str) :
  no_char x a -> split_first x (a ++ x :: b) = (a, b).
Proof.
  induction 1 as [|c a Hc Ha IH]; simpl.
  - rewrite N.eqb_refl. reflexivity.
  - rewrite Hc, IH. reflexivity.
Qed.

Section DdlFacts.
Context {U : UnicodeTables} {R : Runtime}.

(** The column name only has ASCII left when it is lowered. *)
Lemma colname_ascii (k : str) :
  colname k = map (fun c => if is_key_char c then ascii_lower c else UNDERSCORE) k.
Proof.
  unfold colname, lower. induction k as [|c k IH]; [reflexivity|].
  cbn [map flat_map]. rewrite IH. unfold lower_char, ascii_lower.
  destruct (is_key_char c) eqn:K.
  - destruct (is_upper_ascii c) eqn:E; [reflexivity|].
    assert ((c <? 128) = true) as -> by char_arith. reflexivity.
  - reflexivity.
Qed.

Lemma colname_chars (k : str) :
  Forall (fun c => is_clean_key_char c = true) (colname k).
Proof.
  rewrite colname_ascii. apply Forall_forall. intros x H.
  apply in_map_iff in H. destruct H as (c & <- & _).
  destruct (is_key_char c) eqn:K; [|reflexivity].
  unfold ascii_lower, is_clean_key_char.
  destruct (is_upper_ascii c) eqn:E.
  - assert (is_lower_ascii (c + 32) = true) as -> by char_arith. reflexivity.
  - unfold is_key_char, is_alpha_ascii in K. rewrite E in K. exact K.
Qed.

Lemma clean_chars_no (x : N) (s : str) :
  is_clean_key_char x = false ->
  Forall (fun c => is_clean_key_char c = true) s -> no_char x s.
Proof.
  intros Hx. apply Forall_impl. intros c Hc.
  destruct (c =? x) eqn:E; [|reflexivity].
  apply N.eqb_eq in E; subst c. congruence.
Qed.

Lemma colname_fixed (k : str) :
  Forall (fun c => is_clean_key_char c = true) k -> colname k = k.
Proof.
  intros H. rewrite colname_ascii.
  induction H as [|c k Hc Hk IH]; [reflexivity|].
  cbn [map]. rewrite IH. f_equal.
  assert (is_key_char c = true) as -> by (unfold is_clean_key_char in Hc; char_arith).
  unfold ascii_lower.
  assert (is_upper_ascii c = false) as -> by (unfold is_clean_key_char in Hc; char_arith).
  reflexivity.
Qed.

Lemma sql_type_no_LF (t : str) : no_char LF (_sql_type_from_inferred t).
Proof.
  unfold _sql_type_from_inferred.
  repeat match goal with |- context [if ?b then _ else _] => destruct b end;
    repeat constructor.
Qed.

Lemma col_line_no_LF (k : str) (meta : field_type) : no_char LF (col_line k meta).
Proof.
  unfold col_line, no_char. rewrite !Forall_app. repeat split.
  - repeat constructor.
  - repeat constructor.
  - apply clean_chars_no; [reflexivity | apply colname_chars].
  - repeat constructor.
  - repeat constructor.
  - apply sql_type_no_LF.
Qed.

Lemma quoted_name_col_line (k : str) (meta : field_type) (tail : str) :
  quoted_name (col_line k meta ++ tail) = Some (colname k).
Proof.
  unfold col_line.
  change (txt "    ") with [SPACE; SPACE; SPACE; SPACE].
  cbn [app]. rewrite <- app_assoc. cbn [app quoted_name SPACE DQUOTE].
  rewrite split_first_no_sep; [reflexivity|].
  apply clean_chars_no; [reflexivity | apply colname_chars].
Qed.
End DdlFacts.

Section DdlColumns.
Context {U : UnicodeTables} {R : Runtime}.

Lemma join_cons (sep p : str) (ps : list str) :
  ps <> [] -> join sep (p :: ps) = p ++ sep ++ join sep ps.
Proof. destruct ps; [congruence | reflexivity]. Qed.

Lemma ddl_body_columns (fts : dict field_type) :
  flat_map name_of_line
    (split_on LF [] (join (COMMA :: [LF]) (map (fun km => col_line (fst km) (snd km)) fts)
                     ++ LF :: txt ");"))
  = map colname (dict_keys fts).
Proof.
  induction fts as [|[k meta] fts IH]; [reflexivity|].
  unfold dict_keys in *. cbn [map fst snd].
  destruct fts as [|km' fts'].
  - cbn [map join].
    rewrite split_on_app by apply col_line_no_LF.
    cbn [rev app flat_map]. unfold name_of_line at 1.
    rewrite <- (app_nil_r (col_line k meta)), quoted_name_col_line. reflexivity.
  - set (rest := km' :: fts') in *.
    rewrite join_cons by discriminate.
    replace ((col_line k meta ++ (COMMA :: [LF]) ++ join (COMMA :: [LF])
                (map (fun km => col_line (fst km) (snd km)) rest)) ++ LF :: txt ");")
      with ((col_line k meta ++ [COMMA]) ++ LF ::
              (join (COMMA :: [LF]) (map (fun km => col_line (fst km) (snd km)) rest)
               ++ LF :: txt ");"))
      by (rewrite <- !app_assoc; reflexivity).
    rewrite split_on_app.
    + cbn [rev app flat_map]. unfold name_of_line at 1.
      rewrite quoted_name_col_line. cbn [app]. f_equal. exact IH.
    + apply Forall_app. split; [apply col_line_no_LF | repeat constructor].
Qed.

Lemma ddl_columns_generated (cfg : StorageDecisionConfig) (table_name : str)
      (docs : list pyval) :
  docs <> [] -> no_char LF table_name ->
  ddl_columns (ddl (generate_sql_schema cfg table_name docs))
  = map colname (dict_keys (infer_field_types cfg docs)).
Proof.
  intros Hdocs Hname. unfold generate_sql_schema.
  destruct docs as [|d docs]; [congruence|]. cbn [ddl].
  unfold ddl_columns. fold name_of_line.
  set (fts := infer_field_types cfg (d :: docs)).
  replace (txt "CREATE TABLE " ++ [DQUOTE] ++ table_name ++ [DQUOTE] ++ txt " (" ++ [LF]
           ++ join (COMMA :: [LF]) (map (fun km => col_line (fst km) (snd km)) fts)
           ++ [LF] ++ txt ");")
    with ((txt "CREATE TABLE " ++ [DQUOTE] ++ table_name ++ [DQUOTE] ++ txt " (")
            ++ LF :: (join (COMMA :: [LF])
                           (map (fun km => col_line (fst km) (snd km)) fts)
                      ++ LF :: txt ");"))
    by (rewrite <- !app_assoc; reflexivity).
  rewrite split_on_app.
  - cbn [flat_map rev app]. rewrite ddl_body_columns. reflexivity.
  - unfold no_char. rewrite !Forall_app. repeat split;
      try (repeat constructor); exact Hname.
Qed.

(** C8, as the code has it: the columns of the generated DDL are the
    inferred field names after the column-name rewriting (every character
    outside [A-Za-z0-9_] becomes an underscore, then lower case), in the same
    order; the rewriting leaves a name made of [a-z0-9_] alone, so for such
    field names the columns are exactly the inferred fields. The [fields]
    entry of the result is the inference itself. *)
Theorem ddl_columns_are_rewritten_fields
    (cfg : StorageDecisionConfig) (table_name : str) (docs : list pyval) :
  docs <> [] -> no_char LF table_name ->
  ddl_columns (ddl (generate_sql_schema cfg table_name docs))
  = map colname (dict_keys (infer_field_types cfg docs))
  /\ fields_of (generate_sql_schema cfg table_name docs) = infer_field_types cfg docs
  /\ (Forall (fun k => Forall (fun c => is_clean_key_char c = true) k)
             (dict_keys (infer_field_types cfg docs)) ->
      ddl_columns (ddl (generate_sql_schema cfg table_name docs))
      = dict_keys (infer_field_types cfg docs)).
Proof.
  intros Hdocs Hname. split; [|split].
  - apply ddl_columns_generated; assumption.
  - destruct docs; [congruence | reflexivity].
  - intros Hclean. rewrite ddl_columns_generated by assumption.
    induction Hclean as [|k ks Hk Hks IH]; [reflexivity|].
    cbn [map]. rewrite IH, (colname_fixed Hk). reflexivity.
Qed.
End DdlColumns.

Lemma ddl_columns_witness :
  ddl_columns (ddl (generate_sql_schema (U := ascii_tables) (R := no_dates_runtime)
                      CFG (txt "people") (map PDict scenario_A_docs)))
  = [txt "name"; txt "age"].
Proof.
  refine (proj2 (proj2 (@ddl_columns_are_rewritten_fields ascii_tables no_dates_runtime
                          CFG (txt "people") (map PDict scenario_A_docs) _ _)) _).
  - discriminate.
  - vm_compute. repeat constructor.
  - vm_compute. repeat constructor.
Defined.

(** C8 as stated fails: a field named [Name] gives the column [name]. *)
Lemma ddl_column_differs_from_field :
  let docs := [PDict [(txt "Name", PStr (txt "Alice"))]] in
  let fields := infer_field_types (U := ascii_tables) (R := no_dates_runtime) CFG docs in
  let columns :=
    ddl_columns (ddl (generate_sql_schema (U := ascii_tables) (R := no_dates_runtime)
                        CFG (txt "t") docs)) in
  ~ (forall k, In k columns <-> In k (dict_keys fields)).
Proof.
  intros docs fields columns H.
  destruct (proj2 (H (txt "Name"))) as [E|[]].
  - vm_compute. left. reflexivity.
  - vm_compute in E. discriminate E.
Qed.

(** ** Schema registry *)

Section MapFacts.
Variable V : Type.

Lemma dict_get_None_keys (k : str) (d : dict V) :
  dict_get k d = None <-> ~ In k (dict_keys d).
Proof.
  rewrite <- dict_mem_keys. unfold dict_mem.
  destruct (dict_get k d); split; intros H; try congruence; try reflexivity;
    try (exfalso; apply H; reflexivity).
Qed.

Lemma dict_In_get (k : str) (v : V) (d : dict V) :
  NoDup (dict_keys d) -> In (k, v) d -> dict_get k d = Some v.
Proof.
  induction d as [|[k0 v0] d IH]; simpl; intros Hd Hin; [contradiction|].
  inversion Hd as [|? ? Hn Hd']; subst.
  destruct Hin as [E|Hin].
  - injection E as -> ->. rewrite str_eqb_refl. reflexivity.
  - destruct (str_eqb k k0) eqn:E; [|apply IH; assumption].
    apply str_eqb_eq in E; subst k0. exfalso. apply Hn.
    apply in_map_iff. exists (k, v). split; [reflexivity | exact Hin].
Qed.

Lemma dict_set_In (k k0 : str) (v v0 : V) (d : dict V) :
  In (k0, v0) (dict_set k v d) -> v0 = v \/ In (k0, v0) d.
Proof.
  induction d as [|[k1 v1] d IH]; simpl.
  - intros [E|[]]. injection E as _ <-. left; reflexivity.
  - destruct (str_eqb k k1); simpl.
    + intros [E|H]; [injection E as _ <-; left; reflexivity | right; right; exact H].
    + intros [E|H]; [right; left; exact E|].
      destruct (IH H) as [->|H']; [left; reflexivity | right; right; exact H'].
Qed.

(** A dictionary built by assignments from the empty one has distinct
    keys. *)
Lemma fold_set_NoDup (A : Type) (f : dict V -> A -> option (str * V)) (l : list A) :
  forall acc, NoDup (dict_keys acc) ->
    NoDup (dict_keys (fold_left (fun d a => match f d a with
                                            | Some kv => dict_set (fst kv) (snd kv) d
                                            | None => d
                                            end) l acc)).
Proof.
  induction l as [|a l IH]; intros acc H; simpl; [exact H|].
  apply IH. destruct (f acc a) as [[k v]|]; [apply dict_set_NoDup|]; exact H.
Qed.
End MapFacts.

Lemma properties_to_fields_map_NoDup (props : dict property) (t : str) :
  NoDup (dict_keys (_properties_to_fields_map props t)).
Proof.
  unfold _properties_to_fields_map.
  apply (fold_set_NoDup
           (fun (_ : dict field_meta) (kp : str * property) =>
              Some (fst kp, _make_field_meta (fst kp) (p_types (snd kp))
                                             (p_example (snd kp)) t))).
  constructor.
Qed.

Lemma properties_to_fields_map_count (props : dict property) (t : str) (k : str)
      (m : field_meta) :
  dict_get k (_properties_to_fields_map props t) = Some m -> fm_count m = Some 1%Z.
Proof.
  intros H. apply dict_get_In in H. revert H.
  unfold _properties_to_fields_map.
  assert (forall acc : dict field_meta,
             (forall k m, In (k, m) acc -> fm_count m = Some 1%Z) ->
             forall k m,
               In (k, m) (fold_left
                            (fun out kp =>
                               dict_set (fst kp)
                                        (_make_field_meta (fst kp) (p_types (snd kp))
                                                          (p_example (snd kp)) t) out)
                            props acc) ->
               fm_count m = Some 1%Z) as G.
  { induction props as [|kp props IH]; intros acc Hacc k0 m0; simpl.
    - apply Hacc.
    - apply IH. intros k1 m1 Hin. apply dict_set_In in Hin.
      destruct Hin as [->|Hin]; [reflexivity | exact (Hacc _ _ Hin)]. }
  apply G. intros ? ? [].
Qed.

Lemma merge_maps_get (k : str) (new_map : dict field_meta) :
  forall old_map,
    dict_get k (merge_maps old_map new_map) = merged_key k new_map (dict_get k old_map).
Proof.
  unfold merge_maps, merged_key.
  induction new_map as [|[k1 m1] new_map IH]; intros old_map; [reflexivity|].
  cbn [fold_left fst snd]. rewrite IH.
  destruct (str_eqb k1 k) eqn:E.
  - apply str_eqb_eq in E; subst k1.
    destruct (dict_get k old_map); rewrite dict_get_set, str_eqb_refl; reflexivity.
  - rewrite str_eqb_sym in E.
    destruct (dict_get k1 old_map); rewrite dict_get_set, E; reflexivity.
Qed.

Lemma merge_maps_NoDup (new_map old_map : dict field_meta) :
  NoDup (dict_keys old_map) -> NoDup (dict_keys (merge_maps old_map new_map)).
Proof.
  unfold merge_maps. revert old_map.
  induction new_map as [|[k m] new_map IH]; intros old_map H; [exact H|].
  cbn [fold_left fst snd]. apply IH.
  destruct (dict_get k old_map); apply dict_set_NoDup, H.
Qed.

Lemma promote_unfold (m : dict field_meta) : promote m = fold_left promote_step m [].
Proof. reflexivity. Qed.

Lemma promote_fold_NoDup (m : dict field_meta) :
  forall acc, NoDup (dict_keys acc) -> NoDup (dict_keys (fold_left promote_step m acc)).
Proof.
  induction m as [|[k v] m IH]; intros acc H; [exact H|].
  cbn [fold_left]. apply IH. unfold promote_step. cbn [fst snd].
  destruct (promotable k v); [apply dict_set_NoDup|]; exact H.
Qed.

Lemma promote_NoDup (m : dict field_meta) : NoDup (dict_keys (promote m)).
Proof. rewrite promote_unfold. apply promote_fold_NoDup. constructor. Qed.

(** Whatever is in the promoted map was in the merged map and passed the
    filter. *)
Lemma promote_fold_entry (m : dict field_meta) :
  forall acc k meta,
    dict_get k (fold_left promote_step m acc) = Some meta ->
    dict_get k acc = Some meta \/ (In (k, meta) m /\ promotable k meta = true).
Proof.
  induction m as [|[k1 v1] m IH]; intros acc k meta H; [left; exact H|].
  cbn [fold_left] in H. apply IH in H. destruct H as [H|[H P]].
  - unfold promote_step in H. cbn [fst snd] in H.
    destruct (promotable k1 v1) eqn:E; [|left; exact H].
    rewrite dict_get_set in H. destruct (str_eqb k k1) eqn:K; [|left; exact H].
    apply str_eqb_eq in K; subst k1. injection H as <-.
    right. split; [left; reflexivity | exact E].
  - right. split; [right; exact H | exact P].
Qed.

Lemma promote_entry (m : dict field_meta) (k : str) (meta : field_meta) :
  dict_get k (promote m) = Some meta -> In (k, meta) m /\ promotable k meta = true.
Proof.
  rewrite promote_unfold. intros H. apply promote_fold_entry in H.
  destruct H as [H|H]; [discriminate | exact H].
Qed.

(** On a map with distinct keys the filter keeps exactly the entries that
    pass. *)
Lemma promote_fold_get (m : dict field_meta) :
  NoDup (dict_keys m) ->
  forall acc k,
    dict_get k (fold_left promote_step m acc)
    = match dict_get k m with
      | Some meta => if promotable k meta then Some meta else dict_get k acc
      | None => dict_get k acc
      end.
Proof.
  induction m as [|[k1 v1] m IH]; intros Hd acc k; [reflexivity|].
  inversion Hd as [|? ? Hn Hd']; subst.
  cbn [fold_left]. rewrite (IH Hd'). cbn [dict_get].
  unfold promote_step. cbn [fst snd].
  destruct (str_eqb k k1) eqn:K.
  - apply str_eqb_eq in K; subst k1.
    apply dict_get_None_keys in Hn. rewrite Hn.
    destruct (promotable k v1); [|reflexivity].
    rewrite dict_get_set, str_eqb_refl. reflexivity.
  - destruct (promotable k1 v1); [|reflexivity].
    rewrite dict_get_set, K. reflexivity.
Qed.

Lemma promote_get (m : dict field_meta) (k : str) (meta : field_meta) :
  NoDup (dict_keys m) -> dict_get k m = Some meta -> promotable k meta = true ->
  dict_get k (promote m) = Some meta.
Proof.
  intros Hd Hg Hp. rewrite promote_unfold, promote_fold_get by exact Hd.
  rewrite Hg, Hp. reflexivity.
Qed.

Lemma promotable_count (k : str) (m : field_meta) :
  promotable k m = true -> exists c, fm_count m = Some c /\ (2 <= c)%Z.
Proof.
  unfold promotable, get_count, MIN_PROMOTE_COUNT. intros H.
  apply andb_true_iff in H. destruct H as [H _]. apply Z.leb_le in H.
  destruct (fm_count m) as [c|]; [exists c; split; [reflexivity | exact H] | lia].
Qed.

Lemma merge_count (m0 m1 : field_meta) (c0 n : Z) :
  fm_count m0 = Some c0 -> fm_count m1 = Some n ->
  fm_count (_merge_field_meta m0 m1) = Some (c0 + n)%Z.
Proof.
  intros H0 H1. unfold _merge_field_meta, is_empty_meta, get_count.
  rewrite H0, H1. destruct (fm_name m0), (fm_types m0); reflexivity.
Qed.

Lemma merged_key_absent (k : str) (new_map : dict field_meta) (o : option field_meta) :
  ~ In k (dict_keys new_map) -> merged_key k new_map o = o.
Proof.
  unfold merged_key. revert o.
  induction new_map as [|[k1 m1] new_map IH]; intros o H; [reflexivity|].
  cbn [fold_left fst snd]. simpl in H.
  destruct (str_eqb k1 k) eqn:E.
  - apply str_eqb_eq in E. tauto.
  - apply IH. tauto.
Qed.

Lemma merged_key_fresh (k : str) (new_map : dict field_meta) :
  NoDup (dict_keys new_map) -> merged_key k new_map None = dict_get k new_map.
Proof.
  induction new_map as [|[k1 m1] new_map IH]; intros H; [reflexivity|].
  inversion H as [|? ? Hn Hd]; subst.
  unfold merged_key. cbn [fold_left fst snd dict_get].
  rewrite (str_eqb_sym k k1).
  destruct (str_eqb k1 k) eqn:E.
  - apply str_eqb_eq in E; subst k1. apply merged_key_absent, Hn.
  - apply IH, Hd.
Qed.

(** Merging never lowers a count that is already there. *)
Lemma merged_key_count (k : str) (new_map : dict field_meta) :
  (forall k1 m1, In (k1, m1) new_map -> exists n, fm_count m1 = Some n /\ (0 <= n)%Z) ->
  forall m0 c0,
    fm_count m0 = Some c0 ->
    exists m c, merged_key k new_map (Some m0) = Some m
                /\ fm_count m = Some c /\ (c0 <= c)%Z.
Proof.
  unfold merged_key.
  induction new_map as [|[k1 m1] new_map IH]; intros Hnew m0 c0 H0.
  - exists m0, c0. repeat split; [exact H0 | lia].
  - cbn [fold_left fst snd].
    assert (forall k2 m2, In (k2, m2) new_map ->
                          exists n, fm_count m2 = Some n /\ (0 <= n)%Z) as Hnew'
        by (intros k2 m2 Hin; apply (Hnew k2 m2); right; exact Hin).
    destruct (str_eqb k1 k).
    + destruct (Hnew k1 m1 (or_introl eq_refl)) as (n & Hn & Hpos).
      destruct (IH Hnew' (_merge_field_meta m0 m1) (c0 + n)%Z (merge_count _ _ H0 Hn))
        as (m & c & Hm & Hc & Hle).
      exists m, c. repeat split; [exact Hm | exact Hc | lia].
    + apply IH; assumption.
Qed.

Lemma promote_is_promoted_map (m : dict field_meta) : promoted_map (promote m).
Proof.
  split; [apply promote_NoDup|].
  intros k meta H. apply promote_entry in H. apply H.
Qed.

(** One merge and promotion on top of a promoted map keeps every field and
    never lowers a count. *)
Lemma promote_merge_grows (old_map : dict field_meta) (props : dict property) (t : str) :
  promoted_map old_map ->
  let new_map := _properties_to_fields_map props t in
  let promoted := promote (merge_maps old_map new_map) in
  (forall k m1, dict_get k old_map = Some m1 ->
                exists m2, dict_get k promoted = Some m2 /\ count_le m1 m2)
  /\ (length old_map <= length promoted)%nat.
Proof.
  intros [Hnd Hok] new_map promoted.
  assert (forall k m1, dict_get k old_map = Some m1 ->
                       exists m2, dict_get k promoted = Some m2 /\ count_le m1 m2) as Hkeep.
  { intros k m1 H1.
    pose proof (Hok k m1 H1) as Hp.
    destruct (promotable_count _ _ Hp) as (c1 & Hc1 & Hge).
    destruct (@merged_key_count k new_map) with (m0 := m1) (c0 := c1)
      as (m2 & c2 & Hm & Hc2 & Hle); [|exact Hc1|].
    { intros k1 m0 Hin.
      apply (dict_In_get _ _ _ (properties_to_fields_map_NoDup props t)) in Hin.
      apply properties_to_fields_map_count in Hin.
      exists 1%Z. split; [exact Hin | lia]. }
    exists m2. split.
    - apply promote_get.
      + apply merge_maps_NoDup, Hnd.
      + rewrite merge_maps_get, H1. exact Hm.
      + unfold promotable in *. apply andb_true_iff in Hp. destruct Hp as [_ Hp].
        rewrite Hp, andb_true_r. unfold get_count. rewrite Hc2.
        apply Z.leb_le. unfold MIN_PROMOTE_COUNT. lia.
    - exists c1, c2. auto. }
  split; [exact Hkeep|].
  rewrite <- (length_map fst old_map), <- (length_map fst promoted).
  apply NoDup_incl_length; [exact Hnd|].
  intros k Hin. apply dict_keys_get in Hin. destruct Hin as [m1 H1].
  destruct (Hkeep k m1 H1) as (m2 & H2 & _).
  apply dict_mem_keys. unfold dict_mem. rewrite H2. reflexivity.
Qed.

Section RegistryFacts.
Context {D : Digest} {O : SetOrder}.

Lemma evolve_fields_map (st : store) (env : call_env) (sid : option str)
      (docs : pyval) (fid : option str) :
  fields_map (r_logical_doc (fst (evolve_schema st env sid docs fid)))
  = promote (merge_maps (stored_fields st sid)
                        (_properties_to_fields_map
                           (infer_schema (only_dicts (as_list docs))) (now env))).
Proof.
  unfold evolve_schema, stored_fields.
  destruct (instance_write env), (logical_write env); reflexivity.
Qed.

Lemma evolve_diff (st : store) (env : call_env) (sid : option str)
      (docs : pyval) (fid : option str) :
  r_diff (fst (evolve_schema st env sid docs fid))
  = compute_diff (stored_fields st sid)
                 (fields_map (r_logical_doc (fst (evolve_schema st env sid docs fid)))).
Proof.
  unfold evolve_schema, stored_fields.
  destruct (instance_write env), (logical_write env); reflexivity.
Qed.

(** After a successful write the next call reads the document returned. *)
Lemma evolve_persists (st : store) (env : call_env) (sid : option str)
      (docs : pyval) (fid : option str) :
  logical_write env = WriteOk ->
  _load_json (snd (evolve_schema st env sid docs fid)) (_logical_path sid)
  = Some (r_logical_doc (fst (evolve_schema st env sid docs fid))).
Proof.
  intros H. unfold evolve_schema, _load_json. rewrite H.
  destruct (instance_write env); cbn [write_json snd fst r_logical_doc with_logical_error];
    rewrite dict_get_set, str_eqb_refl; reflexivity.
Qed.

(** C9 (the code departs from the claim): a failure to create the
    directory of the source, met when line 164 loads the current logical
    schema, is raised to the caller, whatever the two writes would have done
    and before either is tried. Only a call that gets past line 164 records
    its write failures: it returns its five results, which are those of the
    run in which both writes succeed, except that the document whose write
    raised carries the error text in [storage_error]. *)
Theorem source_dir_failure_is_raised
    (st : store) (env : call_env) (sid : option str) (docs : pyval) (fid : option str) :
  (forall e, evolve_schema_call (DirFailed e) st env sid docs fid = Raised e)
  /\ exists r st' r0 st0,
       evolve_schema_call DirOk st env sid docs fid = Returned (r, st')
       /\ evolve_schema_call DirOk st (writes_succeed env) sid docs fid
          = Returned (r0, st0)
       /\ i_storage_error (r_instance_doc r0) = None
       /\ l_storage_error (r_logical_doc r0) = None
       /\ i_storage_error (r_instance_doc r) = error_of (instance_write env)
       /\ l_storage_error (r_logical_doc r) = error_of (logical_write env)
       /\ same_instance_content (r_instance_doc r) (r_instance_doc r0)
       /\ same_logical_content (r_logical_doc r) (r_logical_doc r0)
       /\ r_logical_id r = r_logical_id r0
       /\ r_instance_id r = r_instance_id r0
       /\ r_diff r = r_diff r0.
Proof.
  split; [reflexivity|].
  unfold evolve_schema_call, get_logical_schema.
  destruct (evolve_schema st env sid docs fid) as [r st'] eqn:E.
  destruct (evolve_schema st (writes_succeed env) sid docs fid) as [r0 st0] eqn:E0.
  exists r, st', r0, st0.
  split; [reflexivity|]. split; [reflexivity|].
  apply (f_equal fst) in E, E0. cbn [fst] in E, E0. subst r r0.
  unfold same_instance_content, same_logical_content, evolve_schema, writes_succeed.
  cbn [now instance_write logical_write].
  destruct (instance_write env), (logical_write env);
    cbn [write_json fst snd error_of]; repeat split; reflexivity.
Qed.

Lemma evolve_keeps_nothing_promoted (st : store) (env : call_env) (sid : option str)
      (docs : pyval) (fid : option str) :
  nothing_promoted st sid ->
  fields_map (r_logical_doc (fst (evolve_schema st env sid docs fid))) = [] ->
  nothing_promoted (snd (evolve_schema st env sid docs fid)) sid.
Proof.
  unfold nothing_promoted. intros H0 Hr.
  destruct (logical_write env) eqn:W.
  - unfold stored_fields. rewrite evolve_persists by exact W. exact Hr.
  - revert H0. unfold evolve_schema, stored_fields, _load_json. rewrite W.
    destruct (instance_write env); cbn [write_json snd]; try (intros H; exact H);
      rewrite dict_get_set;
      destruct (str_eqb _ _); try reflexivity; intros H; exact H.
  - unfold evolve_schema, stored_fields, _load_json. rewrite W.
    destruct (instance_write env); cbn [write_json snd];
      rewrite dict_get_set, str_eqb_refl; reflexivity.
  - unfold evolve_schema, stored_fields, _load_json. rewrite W.
    destruct (instance_write env); cbn [write_json snd];
      rewrite dict_get_set, str_eqb_refl; reflexivity.
Qed.

(** Starting from nothing promoted, a call promotes nothing: every field of
    the merged map has count 1. *)
Lemma evolve_promotes_nothing (st : store) (env : call_env) (sid : option str)
      (docs : pyval) (fid : option str) :
  nothing_promoted st sid ->
  fields_map (r_logical_doc (fst (evolve_schema st env sid docs fid))) = []
  /\ added (r_diff (fst (evolve_schema st env sid docs fid))) = [].
Proof.
  intros H0.
  assert (fields_map (r_logical_doc (fst (evolve_schema st env sid docs fid))) = [])
    as Hempty.
  { rewrite evolve_fields_map, H0.
    set (new_map := _properties_to_fields_map _ _).
    destruct (promote (merge_maps [] new_map)) as [|[k meta] rest] eqn:E;
      [reflexivity|].
    assert (dict_get k (promote (merge_maps [] new_map)) = Some meta) as Hg
        by (rewrite E; cbn [dict_get]; rewrite str_eqb_refl; reflexivity).
    apply promote_entry in Hg. destruct Hg as [Hin Hp].
    apply dict_In_get in Hin; [|apply merge_maps_NoDup; constructor].
    rewrite merge_maps_get in Hin. cbn [dict_get] in Hin.
    rewrite merged_key_fresh in Hin by apply properties_to_fields_map_NoDup.
    apply properties_to_fields_map_count in Hin.
    apply promotable_count in Hp. destruct Hp as (c & Hc & Hge).
    rewrite Hin in Hc. injection Hc as <-. lia. }
  split; [exact Hempty|].
  rewrite evolve_diff, Hempty. reflexivity.
Qed.

(** From a source with nothing promoted, no sequence of calls ever promotes
    a field: the logical schema only stores promoted fields, so the count of
    the others starts again from 1 at each call. *)
Lemma nothing_is_ever_promoted (calls : list (call_env * pyval * option str)) :
  forall (st : store) (sid : option str),
    nothing_promoted st sid ->
    Forall (fun r => fields_map (r_logical_doc r) = [] /\ added (r_diff r) = [])
           (evolve_calls st sid calls).
Proof.
  induction calls as [|[[env docs] fid] calls IH]; intros st sid H0; [constructor|].
  cbn [evolve_calls].
  destruct (evolve_schema st env sid docs fid) as [r st'] eqn:E.
  pose proof (evolve_promotes_nothing env docs fid H0) as Hr.
  pose proof (@evolve_keeps_nothing_promoted st env sid docs fid H0) as Hst.
  rewrite E in Hr, Hst. cbn [fst snd] in Hr, Hst.
  constructor; [exact Hr|]. apply IH. apply Hst, Hr.
Qed.

(** C1 (the code departs from the claim): for a source without a stored
    logical schema, the first call leaves [x] out of the promoted map, and so
    does the second: the stored schema of the first call has no [x] to merge
    with, the merged count of [x] is 1 again, [x] is not promoted and the
    diff reports nothing added. *)
Theorem scenario_D_second_call_promotes_nothing
    (sid : option str) (env1 env2 : call_env) (fid1 fid2 : option str) :
  let (r1, st1) := evolve_schema [] env1 sid scenario_D_docs fid1 in
  let (r2, st2) := evolve_schema st1 env2 sid scenario_D_docs fid2 in
  dict_get (txt "x") (fields_map (r_logical_doc r1)) = None
  /\ option_map fm_count
       (dict_get (txt "x")
          (merge_maps (stored_fields st1 sid)
             (_properties_to_fields_map
                (infer_schema (only_dicts (as_list scenario_D_docs))) (now env2))))
     = Some (Some 1%Z)
  /\ dict_get (txt "x") (fields_map (r_logical_doc r2)) = None
  /\ added (r_diff r2) = [].
Proof.
  assert (nothing_promoted [] sid) as H0 by reflexivity.
  pose proof (evolve_promotes_nothing env1 scenario_D_docs fid1 H0) as [Hf1 _].
  pose proof (@evolve_keeps_nothing_promoted [] env1 sid scenario_D_docs fid1 H0 Hf1)
    as H1.
  destruct (evolve_schema [] env1 sid scenario_D_docs fid1) as [r1 st1].
  cbn [fst snd] in Hf1, H1.
  pose proof (evolve_promotes_nothing env2 scenario_D_docs fid2 H1) as [Hf2 Ha2].
  destruct (evolve_schema st1 env2 sid scenario_D_docs fid2) as [r2 st2].
  cbn [fst snd] in Hf2, Ha2.
  rewrite Hf1, Hf2, Ha2, H1. repeat split.
Qed.

(** C4: along any sequence of calls for one source, each reading the
    logical schema the previous one persisted, the promoted map never loses
    a field, so its size never decreases, and the count of a field never
    decreases from one call to the next. *)
Theorem promoted_fields_only_grow (calls : list (call_env * pyval * option str)) :
  forall (st : store) (sid : option str) (i : nat) (r1 r2 : evolve_result),
    Forall persisted calls ->
    nth_error (evolve_calls st sid calls) i = Some r1 ->
    nth_error (evolve_calls st sid calls) (S i) = Some r2 ->
    (length (fields_map (r_logical_doc r1)) <= length (fields_map (r_logical_doc r2)))%nat
    /\ (forall f m1,
           dict_get f (fields_map (r_logical_doc r1)) = Some m1 ->
           exists m2, dict_get f (fields_map (r_logical_doc r2)) = Some m2
                      /\ count_le m1 m2).
Proof.
  induction calls as [|[[env docs] fid] calls IH]; intros st sid i r1 r2 Hok H1 H2.
  - destruct i; discriminate H1.
  - inversion Hok as [|? ? Hw Hok']; subst. unfold persisted in Hw. cbn [fst] in Hw.
    cbn [evolve_calls] in H1, H2.
    pose proof (@evolve_persists st env sid docs fid Hw) as Hp.
    pose proof (evolve_fields_map st env sid docs fid) as Hf.
    destruct (evolve_schema st env sid docs fid) as [r st'].
    cbn [fst snd] in Hp, Hf.
    destruct i as [|i].
    + cbn [nth_error] in H1, H2. injection H1 as <-.
      destruct calls as [|[[env2 docs2] fid2] calls]; [discriminate H2|].
      cbn [evolve_calls] in H2.
      pose proof (evolve_fields_map st' env2 sid docs2 fid2) as Hf2.
      destruct (evolve_schema st' env2 sid docs2 fid2) as [r' st''].
      cbn [fst nth_error] in Hf2, H2. injection H2 as <-.
      rewrite Hf2. unfold stored_fields. rewrite Hp.
      assert (promoted_map (fields_map (r_logical_doc r))) as Hgood
          by (rewrite Hf; apply promote_is_promoted_map).
      destruct (promote_merge_grows
                  (infer_schema (only_dicts (as_list docs2))) (now env2) Hgood)
        as [Hkeep Hlen].
      split; [exact Hlen | exact Hkeep].
    + cbn [nth_error] in H1, H2. exact (IH st' sid i r1 r2 Hok' H1 H2).
Qed.
End RegistryFacts.

Lemma promoted_fields_witness :
  exists r1 r2,
    let results :=
      evolve_calls (D := plain_digest) (O := first_seen_order) seeded_store
        (Some (txt "src"))
        [(ok_env (txt "t1"), scenario_D_docs, None);
         (ok_env (txt "t2"), scenario_D_docs, None)] in
    nth_error results 0 = Some r1 /\ nth_error results 1 = Some r2
    /\ (length (fields_map (r_logical_doc r1))
        <= length (fields_map (r_logical_doc r2)))%nat
    /\ (forall f m1,
           dict_get f (fields_map (r_logical_doc r1)) = Some m1 ->
           exists m2, dict_get f (fields_map (r_logical_doc r2)) = Some m2
                      /\ count_le m1 m2).
Proof.
  eexists. eexists. cbv zeta.
  split; [vm_compute; reflexivity|].
  split; [vm_compute; reflexivity|].
  apply (@promoted_fields_only_grow plain_digest first_seen_order
           [(ok_env (txt "t1"), scenario_D_docs, None);
            (ok_env (txt "t2"), scenario_D_docs, None)]
           seeded_store (Some (txt "src")) 0).
  - repeat constructor.
  - vm_compute. reflexivity.
  - vm_compute. reflexivity.
Defined.

(** * Further properties *)

(** ** Brace blocks *)

Lemma stays_open_app (a b : str) :
  forall d, stays_open d (a ++ b)
            = match stays_open d a with
              | Some d' => stays_open d' b
              | None => None
              end.
Proof.
  induction a as [|c a IH]; intros d; [reflexivity|]. simpl.
  destruct (c =? LBRACE); [apply IH|].
  destruct (c =? RBRACE); [|apply IH].
  destruct d as [|[|d]]; [reflexivity | reflexivity | apply IH].
Qed.

Lemma brace_scan_blocks (s : str) :
  forall depth cur,
    scan_state depth cur -> Forall brace_block (brace_scan depth cur s).
Proof.
  induction s as [|ch s IH]; intros depth cur Inv; [constructor|].
  cbn [brace_scan].
  destruct (ch =? LBRACE) eqn:EL.
  - apply N.eqb_eq in EL; subst ch. apply IH.
    destruct depth as [|d]; cbn [scan_state].
    + exists []. split; reflexivity.
    + destruct Inv as (body & Hc & Hb).
      exists (body ++ [LBRACE]). split.
      * cbn [rev]. rewrite Hc. reflexivity.
      * rewrite stays_open_app, Hb. reflexivity.
  - destruct (ch =? RBRACE) eqn:ER.
    + apply N.eqb_eq in ER; subst ch.
      destruct depth as [|[|d]].
      * apply IH. exact I.
      * destruct Inv as (body & Hc & Hb).
        constructor; [|apply IH; exact I].
        exists body. split; [|exact Hb]. cbn [rev]. rewrite Hc. reflexivity.
      * destruct Inv as (body & Hc & Hb).
        apply IH. exists (body ++ [RBRACE]). split.
        -- cbn [rev]. rewrite Hc. reflexivity.
        -- rewrite stays_open_app, Hb. reflexivity.
    + apply IH. destruct depth as [|d]; [exact I|].
      destruct Inv as (body & Hc & Hb).
      exists (body ++ [ch]). split.
      * cbn [rev]. rewrite Hc. reflexivity.
      * rewrite stays_open_app, Hb. cbn [stays_open]. rewrite EL, ER. reflexivity.
Qed.

(** X1: every fragment returned by [_extract_brace_jsons] is one complete
    top-level block: it opens with a brace, closes with the matching one, and
    its braces nest properly in between. *)
Theorem brace_fragments_are_blocks (text : str) :
  Forall brace_block (_extract_brace_jsons text).
Proof. apply brace_scan_blocks. exact I. Qed.

Lemma brace_scan_substrings (s : str) :
  forall depth cur done f,
    (depth <> O -> exists p, done = p ++ rev cur) ->
    In f (brace_scan depth cur s) -> substring f (done ++ s).
Proof.
  induction s as [|ch s IH]; intros depth cur done f Inv Hin; [contradiction|].
  cbn [brace_scan] in Hin.
  assert (forall cur' depth',
             (depth' <> O -> exists p, done ++ [ch] = p ++ rev cur') ->
             In f (brace_scan depth' cur' s) -> substring f (done ++ ch :: s)) as Step.
  { intros cur' depth' Inv' Hin'.
    replace (done ++ ch :: s) with ((done ++ [ch]) ++ s)
      by (rewrite <- app_assoc; reflexivity).
    apply (IH depth' cur'); assumption. }
  assert (depth <> O -> exists p, done ++ [ch] = p ++ rev (ch :: cur)) as Push.
  { intros Hd. destruct (Inv Hd) as [p Hp]. exists p.
    cbn [rev]. rewrite Hp, app_assoc. reflexivity. }
  destruct (ch =? LBRACE).
  - destruct depth as [|d].
    + apply (Step [ch] 1%nat); [intros _; exists done; reflexivity | exact Hin].
    + apply (Step (ch :: cur) (S (S d))); [intros _; apply Push; discriminate | exact Hin].
  - destruct (ch =? RBRACE).
    + destruct depth as [|[|d]].
      * apply (Step cur O); [congruence | exact Hin].
      * destruct Hin as [<-|Hin].
        -- destruct (Push ltac:(discriminate)) as [p Hp].
           exists p, s.
           replace (done ++ ch :: s) with ((done ++ [ch]) ++ s)
             by (rewrite <- app_assoc; reflexivity).
           rewrite Hp, <- app_assoc. reflexivity.
        -- apply (Step [] O); [congruence | exact Hin].
      * apply (Step (ch :: cur) (S d)); [intros _; apply Push; discriminate | exact Hin].
    + destruct depth as [|d].
      * apply (Step cur O); [congruence | exact Hin].
      * apply (Step (ch :: cur) (S d)); [intros _; apply Push; discriminate | exact Hin].
Qed.

(** X2: every fragment returned by [_extract_brace_jsons] is a contiguous
    piece of the scanned text. *)
Theorem brace_fragments_are_substrings (text : str) :
  Forall (fun f => substring f text) (_extract_brace_jsons text).
Proof.
  apply Forall_forall. intros f H.
  apply (@brace_scan_substrings text O [] [] f); [congruence | exact H].
Qed.

(** ** The JSON repair *)

Lemma repair_aux_payload (s : str) :
  forall pend,
    Forall (fun c => is_payload c = false) pend ->
    filter is_payload (repair_aux pend s) = filter is_payload s.
Proof.
  assert (forall pend, Forall (fun c => is_payload c = false) pend ->
                       filter is_payload (rev pend) = []) as Hpend.
  { intros pend H. apply Forall_rev in H.
    induction H as [|c l Hc Hl IH]; [reflexivity|]. cbn [filter]. rewrite Hc. exact IH. }
  induction s as [|c s IH]; intros pend H; cbn [repair_aux].
  - apply Hpend, H.
  - destruct (c =? COMMA) eqn:EC.
    + rewrite filter_app, (Hpend _ H), IH.
      * cbn [filter app]. unfold is_payload at 2. rewrite EC. reflexivity.
      * constructor; [reflexivity | constructor].
    + destruct pend as [|p pend]; [cbn [filter]; rewrite IH by constructor; reflexivity|].
      destruct (is_space c) eqn:ES.
      * rewrite IH.
        -- cbn [filter]. unfold is_payload at 2. rewrite ES, orb_true_r. reflexivity.
        -- constructor; [unfold is_payload; rewrite ES, orb_true_r; reflexivity | exact H].
      * destruct ((c =? RBRACKET) || (c =? RBRACE)).
        -- cbn [filter]. rewrite IH by constructor. reflexivity.
        -- rewrite filter_app, (Hpend _ H). cbn [filter app].
           rewrite IH by constructor. reflexivity.
Qed.

Lemma repair_aux_length (s : str) :
  forall pend, (length (repair_aux pend s) <= length pend + length s)%nat.
Proof.
  induction s as [|c s IH]; intros pend; cbn [repair_aux].
  - rewrite length_rev. simpl. lia.
  - destruct (c =? COMMA).
    + rewrite length_app, length_rev. specialize (IH [COMMA]). simpl in *. lia.
    + destruct pend as [|p pend].
      * specialize (IH []). simpl in *. lia.
      * destruct (is_space c); [specialize (IH (c :: p :: pend)); simpl in *; lia|].
        destruct ((c =? RBRACKET) || (c =? RBRACE)).
        -- specialize (IH []). simpl in *. lia.
        -- rewrite length_app, length_rev. specialize (IH []). simpl in *. lia.
Qed.

Lemma repair_aux_no_comma (s : str) :
  no_char COMMA s -> repair_aux [] s = s.
Proof.
  induction 1 as [|c s Hc Hs IH]; [reflexivity|].
  cbn [repair_aux]. rewrite Hc, IH. reflexivity.
Qed.

(** X3: [_repair_json_fragment] only ever deletes commas and whitespace:
    the other characters come out unchanged and in order, the text never
    grows, and a text without a comma is returned as it is. *)
Theorem repair_only_drops_commas_and_spaces :
  (forall s, filter is_payload (_repair_json_fragment s) = filter is_payload s)
  /\ (forall s, (length (_repair_json_fragment s) <= length s)%nat)
  /\ (forall s, no_char COMMA s -> _repair_json_fragment s = s).
Proof.
  split; [|split].
  - intros s. apply repair_aux_payload. constructor.
  - intros s. apply (repair_aux_length s []).
  - exact repair_aux_no_comma.
Qed.

Lemma repair_witness :
  _repair_json_fragment (txt "{a: [1 2]}") = txt "{a: [1 2]}".
Proof.
  apply (proj2 (proj2 repair_only_drops_commas_and_spaces)).
  vm_compute. repeat constructor.
Defined.

(** ** Trimming *)

Lemma dropwhile_split (p : N -> bool) (s : str) :
  exists pre, s = pre ++ dropwhile p s /\ Forall (fun c => p c = true) pre.
Proof.
  induction s as [|c s (pre & E & F)]; [exists []; split; [reflexivity | constructor]|].
  cbn [dropwhile]. destruct (p c) eqn:P.
  - exists (c :: pre). split; [cbn [app]; rewrite <- E; reflexivity | constructor; assumption].
  - exists []. split; [reflexivity | constructor].
Qed.

Lemma dropwhile_head (p : N -> bool) (s r : str) (c : N) :
  dropwhile p s = c :: r -> p c = false.
Proof.
  induction s as [|x s IH]; cbn [dropwhile]; [discriminate|].
  destruct (p x) eqn:P; [exact IH|]. intros E; injection E as <- _. exact P.
Qed.

Lemma dropwhile_fixed (p : N -> bool) (s : str) :
  match s with c :: _ => p c = false | [] => True end -> dropwhile p s = s.
Proof. destruct s as [|c s]; [reflexivity|]. cbn [dropwhile]. intros ->. reflexivity. Qed.

Lemma dropwhile_length (p : N -> bool) (s : str) :
  (length (dropwhile p s) <= length s)%nat.
Proof.
  induction s as [|c s IH]; [simpl; lia|]. cbn [dropwhile].
  destruct (p c); simpl in *; lia.
Qed.

Lemma strip_length (s : str) : (length (strip s) <= length s)%nat.
Proof.
  unfold strip, rstrip, lstrip. rewrite length_rev.
  pose proof (dropwhile_length is_space (rev (dropwhile is_space s))) as H1.
  pose proof (dropwhile_length is_space s) as H2.
  rewrite length_rev in H1. lia.
Qed.

Lemma strip_last (s r : str) (c : N) : strip s = r ++ [c] -> is_space c = false.
Proof.
  unfold strip, rstrip. intros E.
  apply (f_equal (@rev N)) in E. rewrite rev_involutive, rev_app_distr in E.
  cbn [rev app] in E. exact (dropwhile_head _ _ E).
Qed.

Lemma strip_first (s r : str) (c : N) : strip s = c :: r -> is_space c = false.
Proof.
  unfold strip, rstrip, lstrip. intros E.
  destruct (dropwhile_split is_space (rev (dropwhile is_space s))) as (pre & Hs & _).
  apply (f_equal (@rev N)) in Hs. rewrite rev_involutive, rev_app_distr, E in Hs.
  cbn [app] in Hs. exact (dropwhile_head _ _ Hs).
Qed.

Lemma strip_trimmed (s : str) : trimmed (strip s).
Proof.
  unfold trimmed. remember (strip s) as t eqn:Et. symmetry in Et.
  destruct t as [|c r]; [reflexivity|].
  pose proof (@strip_first s r c Et) as Hc.
  unfold strip at 1, lstrip, rstrip.
  rewrite (dropwhile_fixed is_space (c :: r)) by exact Hc.
  destruct (exists_last (l := c :: r) ltac:(discriminate)) as (r' & c' & E').
  rewrite E' in Et. pose proof (@strip_last s r' c' Et) as Hl.
  rewrite E', rev_app_distr. cbn [rev app].
  rewrite (dropwhile_fixed is_space (c' :: rev r')) by exact Hl.
  cbn [rev]. rewrite rev_involutive. reflexivity.
Qed.

Lemma strip_In (s : str) (c : N) : In c (strip s) -> In c s.
Proof.
  intros H.
  assert (Forall (fun x => In x s) (strip s)) as F
      by (apply strip_Forall, Forall_forall; auto).
  rewrite Forall_forall in F. exact (F c H).
Qed.

(** ** Key:value pairs *)

Lemma kv_of_line_shape (line k v : str) :
  kv_of_line line = Some (k, v) -> kv_key_ok k /\ trimmed v.
Proof.
  unfold kv_of_line.
  destruct (negb (mem_char COLON line)); [discriminate|].
  destruct (split_first COLON line) as [p0 p1].
  destruct (is_nil (strip p0) || (80 <? length (strip p0))%nat) eqn:G; [discriminate|].
  apply orb_false_iff in G. destruct G as [Hnil Hlen]. apply Nat.ltb_ge in Hlen.
  destruct (safe_key_match (strip p0)) eqn:M.
  - intros E; injection E as <- <-. split; [|apply strip_trimmed].
    repeat split; [intros E; rewrite E in Hnil; discriminate | exact Hlen
                  | apply strip_trimmed |].
    unfold safe_key_match in M.
    destruct (rev (strip p0)) as [|c r] eqn:R.
    + apply (f_equal (@rev N)) in R. rewrite rev_involutive in R.
      rewrite R in Hnil. discriminate.
    + assert (strip p0 = rev r ++ [c]) as Hk
          by (apply (f_equal (@rev N)) in R; rewrite rev_involutive in R; exact R).
      pose proof (@strip_last p0 (rev r) c Hk) as Hsp.
      assert ((c =? LF) = false) as HLF.
      { destruct (c =? LF) eqn:E; [|reflexivity].
        apply N.eqb_eq in E; subst c. discriminate Hsp. }
      rewrite HLF in M.
      apply andb_true_iff in M. destruct M as [M _].
      apply andb_true_iff in M. destruct M as [M _].
      apply Forall_forall. exact (proj1 (forallb_forall _ _) M).
  - set (keep := fun c => is_key_char c || (c =? SPACE)).
    destruct (is_nil (strip (filter keep (strip p0)))
              || (length (strip (filter keep (strip p0))) <? 1)%nat) eqn:G2;
      [discriminate|].
    apply orb_false_iff in G2. destruct G2 as [Hnil2 _].
    intros E; injection E as <- <-. split; [|apply strip_trimmed].
    repeat split.
    + intros E. rewrite E in Hnil2. discriminate.
    + pose proof (strip_length (filter keep (strip p0))) as L1.
      pose proof (List.filter_length_le keep (strip p0)) as L2.
      lia.
    + apply strip_trimmed.
    + apply Forall_forall. intros c Hc. apply strip_In in Hc.
      apply filter_In in Hc. destruct Hc as [_ Hc].
      unfold is_safe_key_char. unfold keep in Hc. apply orb_true_iff in Hc.
      destruct Hc as [-> | ->]; [reflexivity | apply orb_true_r].
Qed.

(** X4: every pair returned by [extract_kv_pairs] has a key that is not
    empty, has at most 80 characters, all of them letters, digits,
    underscore, dash or space, and neither the key nor the value has
    whitespace at its ends; there is at most one pair per line. *)
Theorem kv_pairs_are_well_formed (text : str) :
  Forall (fun kv => kv_key_ok (fst kv) /\ trimmed (snd kv)) (extract_kv_pairs text)
  /\ (length (extract_kv_pairs text) <= length (splitlines text))%nat.
Proof.
  unfold extract_kv_pairs. split.
  - apply Forall_forall. intros [k v] H. apply in_flat_map in H.
    destruct H as (line & _ & H).
    destruct (kv_of_line line) as [[k' v']|] eqn:E; [|contradiction].
    destruct H as [H|[]]. injection H as -> ->.
    exact (kv_of_line_shape _ E).
  - induction (splitlines text) as [|line ls IH]; [simpl; lia|].
    cbn [flat_map]. rewrite length_app.
    destruct (kv_of_line line); simpl in *; lia.
Qed.

(** ** CSV windows *)

Lemma splitlines_aux_In_bounded (n : nat) :
  forall s cur line c,
    (length s <= n)%nat ->
    In line (splitlines_aux cur s) -> In c line -> In c cur \/ In c s.
Proof.
  induction n as [|n IH]; intros s cur line c Hn Hl Hc.
  - destruct s; [|simpl in Hn; lia].
    cbn [splitlines_aux] in Hl. destruct cur as [|y cur]; [contradiction|].
    destruct Hl as [<-|[]]. left. apply in_rev. exact Hc.
  - destruct s as [|x s].
    + cbn [splitlines_aux] in Hl. destruct cur as [|y cur]; [contradiction|].
      destruct Hl as [<-|[]]. left. apply in_rev. exact Hc.
    + cbn [splitlines_aux] in Hl. simpl in Hn.
      assert (In line (splitlines_aux [] s) -> In c cur \/ In c (x :: s)) as Tail.
      { intros Hl'. destruct (IH s [] line c ltac:(lia) Hl' Hc) as [[]|H].
        right. right. exact H. }
      destruct (is_linebreak x).
      * destruct Hl as [<-|Hl]; [left; apply in_rev; exact Hc|].
        destruct (x =? CR); [|exact (Tail Hl)].
        destruct s as [|d s']; [exact (Tail Hl)|].
        destruct (d =? LF); [|exact (Tail Hl)].
        simpl in Hn.
        destruct (IH s' [] line c ltac:(lia) Hl Hc) as [[]|H].
        right. right. right. exact H.
      * destruct (IH s (x :: cur) line c ltac:(lia) Hl Hc) as [H|H];
          [|right; right; exact H].
        destruct H as [<-|H]; [right; left; reflexivity | left; exact H].
Qed.

Lemma splitlines_In (text line : str) (c : N) :
  In line (splitlines text) -> In c line -> In c text.
Proof.
  intros Hl Hc.
  destruct (@splitlines_aux_In_bounded (length text) text [] line c (le_n _) Hl Hc)
    as [[]|H].
  exact H.
Qed.

Lemma join_In (sep : str) (parts : list str) (c : N) :
  In c (join sep parts) -> In c sep \/ exists p, In p parts /\ In c p.
Proof.
  induction parts as [|p ps IH]; [contradiction|].
  destruct ps as [|q ps].
  - cbn [join]. intros H. right. exists p. split; [left; reflexivity | exact H].
  - rewrite join_cons by discriminate. rewrite !in_app_iff.
    intros [H|[H|H]].
    + right. exists p. split; [left; reflexivity | exact H].
    + left. exact H.
    + destruct (IH H) as [Hs|(p' & Hp & Hc)]; [left; exact Hs|].
      right. exists p'. split; [right; exact Hp | exact Hc].
Qed.

Lemma count_char_absent (x : N) (s : str) :
  ~ In x s -> count_char x s = O.
Proof.
  intros H. unfold count_char.
  induction s as [|c s IH]; [reflexivity|]. cbn [filter].
  destruct (x =? c) eqn:E.
  - apply N.eqb_eq in E. subst c. exfalso. apply H. left. reflexivity.
  - apply IH. intros Hin. apply H. right. exact Hin.
Qed.

Lemma In_firstn (A : Type) (n : nat) (l : list A) (x : A) :
  In x (firstn n l) -> In x l.
Proof.
  intros H. rewrite <- (firstn_skipn n l). apply in_or_app. left. exact H.
Qed.

Lemma In_skipn (A : Type) (n : nat) (l : list A) (x : A) :
  In x (skipn n l) -> In x l.
Proof.
  intros H. rewrite <- (firstn_skipn n l). apply in_or_app. right. exact H.
Qed.

(** X5: a text without a comma has no CSV fragment: no window of its lines
    passes the comma test. *)
Theorem no_comma_no_csv_fragment {U : UnicodeTables} (text : str) :
  ~ In COMMA text -> extract_csv_fragments text = [].
Proof.
  intros H. unfold extract_csv_fragments.
  set (lines := filter (fun ln => negb (is_nil (strip ln))) (splitlines text)).
  assert (forall i, csv_block_records (join [LF] (firstn 20 (skipn i lines))) = []) as Hb.
  { intros i. unfold csv_block_records.
    rewrite count_char_absent; [reflexivity|].
    intros Hin. apply join_In in Hin.
    destruct Hin as [[E|[]]|(ln & Hln & Hc)]; [discriminate E|].
    apply In_firstn, In_skipn in Hln.
    unfold lines in Hln. apply filter_In in Hln. destruct Hln as [Hln _].
    apply H. exact (@splitlines_In text ln COMMA Hln Hc). }
  induction (seq 0 (Nat.max 1 (length lines))) as [|i l IH]; [reflexivity|].
  cbn [flat_map]. rewrite Hb, IH. reflexivity.
Qed.

Lemma no_comma_witness :
  extract_csv_fragments (U := ascii_tables) scenario_C_text = [].
Proof.
  apply (no_comma_no_csv_fragment (U := ascii_tables)).
  vm_compute. intros H.
  repeat (destruct H as [H|H]; [discriminate H|]). exact H.
Defined.

(** ** The normal form of cleaned text *)

Lemma sub_runs_aux_class (p : N -> bool) (rep : str) (s : str) :
  forall b, Forall (fun c => p c = false \/ In c rep) (sub_runs_aux p rep b s).
Proof.
  induction s as [|c s IH]; intros b; cbn [sub_runs_aux]; [constructor|].
  destruct (p c) eqn:P.
  - apply Forall_app. split; [|apply IH].
    destruct b; [constructor|]. apply Forall_forall. intros x Hx. right. exact Hx.
  - constructor; [left; exact P | apply IH].
Qed.

Lemma sub_runs_aux_fixed (p : N -> bool) (rep : str) (s : str) (b : bool) :
  Forall (fun c => p c = false) s -> sub_runs_aux p rep b s = s.
Proof.
  intros H. revert b. induction H as [|c s Hc Hs IH]; intros b; [reflexivity|].
  cbn [sub_runs_aux]. rewrite Hc, IH. reflexivity.
Qed.

Lemma sub_long_tokens_aux_In (s : str) :
  forall tok c, In c (sub_long_tokens_aux tok s) -> c = SPACE \/ In c tok \/ In c s.
Proof.
  assert (forall tok c, In c (match tok with [] => [] | _ => flush_token tok end) ->
                        c = SPACE \/ In c tok) as Hflush.
  { intros tok c H. destruct tok as [|t tok]; [contradiction|].
    unfold flush_token in H. destruct (120 <=? length (t :: tok))%nat.
    - destruct H as [<-|[]]. left. reflexivity.
    - right. apply in_rev. exact H. }
  induction s as [|x s IH]; intros tok c H; cbn [sub_long_tokens_aux] in H.
  - destruct (Hflush _ _ H) as [E|E]; [left; exact E | right; left; exact E].
  - destruct (is_space x).
    + apply in_app_or in H. destruct H as [H|[<-|H]].
      * destruct (Hflush _ _ H) as [E|E]; [left; exact E | right; left; exact E].
      * right. right. left. reflexivity.
      * destruct (IH _ _ H) as [E|[[]|E]]; [left; exact E | right; right; right; exact E].
    + destruct (IH _ _ H) as [E|[[<-|E]|E]].
      * left; exact E.
      * right. right. left. reflexivity.
      * right. left. exact E.
      * right. right. right. exact E.
Qed.

Lemma clean_text_no_control (raw : str) :
  Forall (fun c => is_control c = false) (_clean_text raw).
Proof.
  unfold _clean_text. apply Forall_forall. intros c H.
  apply strip_In in H. apply sub_runs_aux_In in H.
  destruct H as [[<-|[]]|H]; [reflexivity|].
  apply sub_long_tokens_aux_In in H. destruct H as [->|[[]|H]]; [reflexivity|].
  unfold replace_char in H. apply in_map_iff in H. destruct H as (x & <- & Hx).
  pose proof (sub_runs_aux_class is_control [SPACE] raw false) as F.
  rewrite Forall_forall in F. specialize (F x Hx).
  destruct (x =? CR); [reflexivity|].
  destruct F as [F|[<-|[]]]; [exact F | reflexivity].
Qed.

Lemma clean_text_plain_spaces (raw : str) :
  Forall (fun c => is_space c = true -> c = SPACE) (_clean_text raw).
Proof.
  unfold _clean_text. apply strip_Forall.
  eapply Forall_impl; [|apply (sub_runs_aux_class is_space [SPACE])].
  intros c [H|[<-|[]]] Hs; [congruence | reflexivity].
Qed.

Lemma no_double_space_app_l (a b : str) : no_double_space (a ++ b) -> no_double_space a.
Proof.
  induction a as [|c a IH]; [intros _; exact I|].
  destruct a as [|d a]; [intros _; exact I|].
  cbn [app no_double_space]. intros [H1 H2]. split; [exact H1 | apply IH, H2].
Qed.

Lemma no_double_space_app_r (a b : str) : no_double_space (a ++ b) -> no_double_space b.
Proof.
  induction a as [|c a IH]; [intros H; exact H|].
  intros H. apply IH. destruct a as [|d a].
  - destruct b; [exact I | apply H].
  - apply H.
Qed.

Lemma rstrip_prefix (s : str) : exists post, s = rstrip s ++ post.
Proof.
  unfold rstrip.
  destruct (dropwhile_split is_space (rev s)) as (pre & E & _).
  exists (rev pre). apply (f_equal (@rev N)) in E.
  rewrite rev_involutive, rev_app_distr in E. exact E.
Qed.

Lemma strip_no_double_space (s : str) : no_double_space s -> no_double_space (strip s).
Proof.
  intros H. unfold strip.
  destruct (rstrip_prefix (lstrip s)) as (post & E).
  destruct (dropwhile_split is_space s) as (pre & E' & _).
  fold (lstrip s) in E'. rewrite E' in H. apply no_double_space_app_r in H.
  rewrite E in H. apply no_double_space_app_l in H. exact H.
Qed.

Lemma sub_runs_space_no_double (s : str) :
  forall b,
    no_double_space (sub_runs_aux is_space [SPACE] b s)
    /\ (b = true -> match sub_runs_aux is_space [SPACE] b s with
                    | c :: _ => c <> SPACE
                    | [] => True
                    end).
Proof.
  induction s as [|c s IH]; intros b; cbn [sub_runs_aux]; [split; [exact I | auto]|].
  destruct (is_space c) eqn:E.
  - destruct (IH true) as [H1 H2]. specialize (H2 eq_refl).
    destruct b; cbn [app]; [split; [exact H1 | intros _; exact H2]|].
    split; [|discriminate].
    destruct (sub_runs_aux is_space [SPACE] true s) as [|d r]; [exact I|].
    split; [intros [_ Hd]; exact (H2 Hd) | exact H1].
  - destruct (IH false) as [H1 _].
    assert (c <> SPACE) as Hc by (intros ->; discriminate E).
    split; [|intros _; exact Hc].
    destruct (sub_runs_aux is_space [SPACE] false s) as [|d r]; [exact I|].
    split; [intros [Hd _]; exact (Hc Hd) | exact H1].
Qed.

Lemma short_tokens_run (s : str) : forall run, short_tokens run s -> (run < 120)%nat.
Proof.
  induction s as [|c s IH]; intros run; cbn [short_tokens]; [auto|].
  destruct (is_space c); [tauto|]. intros H. apply IH in H. lia.
Qed.

Lemma short_tokens_token (a b : str) :
  Forall (fun c => is_space c = false) a ->
  forall run, short_tokens run (a ++ b) <-> short_tokens (run + length a) b.
Proof.
  induction 1 as [|c a Hc Ha IH]; intros run.
  - cbn [app length]. rewrite Nat.add_0_r. tauto.
  - cbn [app short_tokens length]. rewrite Hc, IH.
    replace (S run + length a)%nat with (run + S (length a))%nat by lia. tauto.
Qed.

Lemma short_tokens_app_l (a b : str) :
  forall run, short_tokens run (a ++ b) -> short_tokens run a.
Proof.
  induction a as [|c a IH]; intros run; cbn [app short_tokens].
  - apply short_tokens_run.
  - destruct (is_space c); [intros [H1 H2]; split; [exact H1 | apply IH, H2] | apply IH].
Qed.

Lemma short_tokens_lstrip (s : str) : short_tokens O s -> short_tokens O (lstrip s).
Proof.
  unfold lstrip. induction s as [|c s IH]; [auto|].
  cbn [dropwhile short_tokens]. destruct (is_space c) eqn:E.
  - intros [_ H]. apply IH, H.
  - intros H. cbn [short_tokens]. rewrite E. exact H.
Qed.

Lemma strip_short_tokens (s : str) : short_tokens O s -> short_tokens O (strip s).
Proof.
  intros H. apply short_tokens_lstrip in H. unfold strip.
  destruct (rstrip_prefix (lstrip s)) as (post & E).
  rewrite E in H. apply short_tokens_app_l in H. exact H.
Qed.

Lemma sub_long_tokens_short (s : str) :
  forall tok,
    Forall (fun c => is_space c = false) tok ->
    short_tokens O (sub_long_tokens_aux tok s).
Proof.
  assert (forall tok rest,
             Forall (fun c => is_space c = false) tok ->
             (short_tokens O rest) ->
             forall x, is_space x = true ->
             short_tokens O (match tok with [] => [] | _ => flush_token tok end
                             ++ x :: rest)) as Hflush.
  { intros tok rest Htok Hrest x Hx. destruct tok as [|t tok].
    - cbn [app short_tokens]. rewrite Hx. split; [lia | exact Hrest].
    - unfold flush_token. destruct (120 <=? length (t :: tok))%nat eqn:L.
      + cbn [app short_tokens]. change (is_space SPACE) with true. cbn iota.
        rewrite Hx. repeat split; try lia. exact Hrest.
      + apply Nat.leb_gt in L.
        apply short_tokens_token; [apply Forall_rev, Htok|].
        cbn [short_tokens]. rewrite Hx, length_rev. split; [simpl in *; lia | exact Hrest]. }
  induction s as [|x s IH]; intros tok Htok; cbn [sub_long_tokens_aux].
  - destruct tok as [|t tok]; [simpl; lia|].
    unfold flush_token. destruct (120 <=? length (t :: tok))%nat eqn:L.
    + cbn [short_tokens]. change (is_space SPACE) with true. cbn iota. lia.
    + apply Nat.leb_gt in L. rewrite <- (app_nil_r (rev (t :: tok))).
      apply short_tokens_token; [apply Forall_rev, Htok|].
      cbn [short_tokens]. rewrite length_rev. simpl in *. lia.
  - destruct (is_space x) eqn:E.
    + apply Hflush; [exact Htok | apply IH; constructor | exact E].
    + apply IH. constructor; assumption.
Qed.

Lemma sub_runs_space_short (s : str) :
  forall run b,
    (b = true -> run = O) ->
    short_tokens run s -> short_tokens run (sub_runs_aux is_space [SPACE] b s).
Proof.
  induction s as [|c s IH]; intros run b Hb H; cbn [sub_runs_aux]; [exact H|].
  cbn [short_tokens] in H. destruct (is_space c) eqn:E.
  - destruct H as [H1 H2]. specialize (IH O true (fun _ => eq_refl) H2).
    destruct b; cbn [app].
    + rewrite (Hb eq_refl). exact IH.
    + cbn [short_tokens]. change (is_space SPACE) with true. cbn iota.
      split; [exact H1 | exact IH].
  - cbn [short_tokens]. rewrite E. apply IH; [discriminate | exact H].
Qed.

Lemma clean_text_form (raw : str) : clean_form (_clean_text raw).
Proof.
  repeat split.
  - apply strip_trimmed.
  - pose proof (clean_text_no_control raw) as A.
    pose proof (clean_text_plain_spaces raw) as B.
    rewrite Forall_forall in *. intros c Hc. split; [apply A, Hc | apply B, Hc].
  - unfold _clean_text. apply strip_no_double_space.
    apply (proj1 (sub_runs_space_no_double _ false)).
  - unfold _clean_text. apply strip_short_tokens.
    apply sub_runs_space_short; [discriminate|].
    apply sub_long_tokens_short. constructor.
Qed.

Lemma sub_long_tokens_fixed (s : str) :
  forall tok,
    Forall (fun c => is_space c = false) tok ->
    short_tokens (length tok) s ->
    sub_long_tokens_aux tok s = rev tok ++ s.
Proof.
  assert (forall tok, (length tok < 120)%nat ->
                      match tok with [] => [] | _ => flush_token tok end = rev tok)
    as Hflush.
  { intros tok L. destruct tok as [|t tok]; [reflexivity|].
    unfold flush_token. apply Nat.leb_gt in L. rewrite L. reflexivity. }
  induction s as [|x s IH]; intros tok Htok H; cbn [sub_long_tokens_aux short_tokens] in *.
  - rewrite app_nil_r. apply Hflush, H.
  - destruct (is_space x) eqn:E.
    + destruct H as [H1 H2]. rewrite (IH [] (Forall_nil _) H2).
      cbn [rev app]. f_equal. apply Hflush, H1.
    + rewrite (IH (x :: tok)); [|constructor; assumption | exact H].
      cbn [rev]. rewrite <- app_assoc. reflexivity.
Qed.

Lemma sub_runs_space_fixed (s : str) :
  forall b,
    Forall (fun c => is_space c = true -> c = SPACE) s ->
    no_double_space s ->
    (b = true -> match s with c :: _ => is_space c = false | [] => True end) ->
    sub_runs_aux is_space [SPACE] b s = s.
Proof.
  induction s as [|c s IH]; intros b Hs Hd Hb; [reflexivity|].
  inversion Hs as [|? ? Hc Hs']; subst. cbn [sub_runs_aux].
  assert (no_double_space s) as Hd' by (destruct s; [exact I | apply Hd]).
  destruct (is_space c) eqn:E.
  - destruct b; [specialize (Hb eq_refl); congruence|].
    rewrite (Hc eq_refl) in *. cbn [app]. f_equal.
    apply IH; [exact Hs' | exact Hd'|]. intros _.
    destruct s as [|d s]; [exact I|].
    inversion Hs' as [|? ? Hdd _]; subst.
    destruct (is_space d) eqn:Ed; [|reflexivity].
    exfalso. apply (proj1 Hd). split; [reflexivity | exact (Hdd eq_refl)].
  - f_equal. apply IH; [exact Hs' | exact Hd' | discriminate].
Qed.

Lemma clean_form_fixed (t : str) : clean_form t -> _clean_text t = t.
Proof.
  intros (Ht & Hc & Hd & Hs).
  unfold _clean_text. unfold sub_runs at 2.
  rewrite sub_runs_aux_fixed
    by (eapply Forall_impl; [|exact Hc]; intros c [H _]; exact H).
  assert (replace_char CR LF t = t) as ->.
  { unfold replace_char. rewrite <- (map_id t) at 2. apply map_ext_in.
    intros c Hin. rewrite Forall_forall in Hc. destruct (Hc c Hin) as [_ Hsp].
    destruct (c =? CR) eqn:E; [|reflexivity].
    apply N.eqb_eq in E. subst c. discriminate (Hsp eq_refl). }
  unfold sub_long_tokens. rewrite sub_long_tokens_fixed by (constructor || exact Hs).
  cbn [rev app]. unfold sub_runs.
  rewrite sub_runs_space_fixed; [exact Ht | | exact Hd | discriminate].
  eapply Forall_impl; [|exact Hc]. intros c [_ H]. exact H.
Qed.

(** X6: cleaned text is in normal form: no whitespace at the ends, no
    control character, no whitespace character other than single spaces
    between words, and no word of 120 characters or more; cleaning a cleaned
    text changes nothing. *)
Theorem clean_text_is_a_normal_form (raw : str) :
  clean_form (_clean_text raw)
  /\ _clean_text (_clean_text raw) = _clean_text raw.
Proof.
  split; [apply clean_text_form | apply clean_form_fixed, clean_text_form].
Qed.

(** ** Storage decision, continued *)

Lemma no_nested_all_scalar (cfg : StorageDecisionConfig) (docs : list pydict) :
  filter (fun d => existsb is_nested (dict_values d)) docs = [] ->
  forallb (fun d => forallb (_is_scalar cfg) (dict_values d)) docs = true.
Proof.
  intros H. apply forallb_forall. intros d Hd. apply forallb_forall. intros v Hv.
  assert (existsb is_nested (dict_values d) = false) as E.
  { destruct (existsb is_nested (dict_values d)) eqn:E; [|reflexivity].
    assert (In d (filter (fun d => existsb is_nested (dict_values d)) docs)) as Hin
        by (apply filter_In; split; assumption).
    rewrite H in Hin. contradiction. }
  assert (is_nested v = false) as Hn.
  { destruct (is_nested v) eqn:N; [|reflexivity].
    rewrite <- E. symmetry. apply existsb_exists. exists v. split; assumption. }
  unfold _is_scalar. rewrite Hn. reflexivity.
Qed.

(** X7: the decision is always one of [sql], [nosql], [object], and the
    reason "flat keys but some non-scalar values" is never given: once no
    document holds a nested value, every value is scalar. *)
Theorem storage_decision_is_one_of_three
    (cfg : StorageDecisionConfig) (sample_docs : list pyval) (fr : fragments) :
  In (fst (detect_storage_type cfg sample_docs fr)) [txt "sql"; txt "nosql"; txt "object"]
  /\ snd (detect_storage_type cfg sample_docs fr)
     <> txt "flat keys but some non-scalar values".
Proof.
  unfold detect_storage_type.
  destruct (csv_fragments fr); cbn [negb];
    [|split; [left; reflexivity | intros E; discriminate E]].
  destruct (html_tables fr); cbn [negb];
    [|split; [left; reflexivity | intros E; discriminate E]].
  destruct (only_dicts sample_docs) as [|first rest].
  - destruct (kv_pairs fr); (split; [right; right; left; reflexivity
                                    | intros E; discriminate E]).
  - rewrite nested_count_fold. cbn [Nat.add].
    destruct (filter (fun d => existsb is_nested (dict_values d)) (first :: rest))
      as [|x l] eqn:F.
    + cbn [length Nat.ltb Nat.leb]. rewrite (no_nested_all_scalar cfg _ F).
      match goal with |- context [if ?b then _ else _] => destruct b end;
        (split; [cbn [fst]; auto | intros E; discriminate E]).
      * left. reflexivity.
      * right. right. left. reflexivity.
    + cbn [length Nat.ltb Nat.leb].
      split; [right; left; reflexivity | intros E; discriminate E].
Qed.

(** X8: without table fragments, fewer dict documents than
    [MIN_DOCS_FOR_CONSISTENCY] (two by default) never give [sql]. *)
Theorem too_few_docs_never_sql
    (cfg : StorageDecisionConfig) (sample_docs : list pyval) (fr : fragments) :
  no_tables fr ->
  (length (only_dicts sample_docs) < MIN_DOCS_FOR_CONSISTENCY cfg)%nat ->
  fst (detect_storage_type cfg sample_docs fr) <> txt "sql".
Proof.
  intros [Hcsv Hhtml] Hlen. unfold detect_storage_type.
  rewrite Hcsv, Hhtml. cbn [negb].
  destruct (only_dicts sample_docs) as [|first rest] eqn:E.
  - destruct (kv_pairs fr); intros H; discriminate H.
  - match goal with |- context [(0 <? ?n)%nat] => destruct (0 <? n)%nat end;
      [intros H; discriminate H|].
    apply Nat.leb_gt in Hlen. rewrite Hlen. cbn [andb].
    intros H; discriminate H.
Qed.

Lemma too_few_docs_witness :
  fst (detect_storage_type CFG
         [PDict [(txt "name", PStr (txt "Alice")); (txt "age", PStr (txt "30"))]]
         no_fragments)
  <> txt "sql".
Proof.
  apply too_few_docs_never_sql.
  - split; reflexivity.
  - simpl. lia.
Defined.

(** ** Type inference, continued *)

Section InferMore.
Context {U : UnicodeTables} {R : Runtime}.

Lemma tally_items_NoDup (items : pydict) :
  forall stats, NoDup (dict_keys stats) ->
                NoDup (dict_keys (fold_left tally_item items stats)).
Proof.
  induction items as [|kv items IH]; intros stats H; [exact H|].
  cbn [fold_left]. apply IH. unfold tally_item. apply dict_set_NoDup, H.
Qed.

Lemma infer_stats_NoDup (docs : list pyval) : NoDup (dict_keys (infer_stats docs)).
Proof.
  unfold infer_stats.
  assert (forall ds stats, NoDup (dict_keys stats) ->
            NoDup (dict_keys (fold_left (fun stats d => fold_left tally_item d stats)
                                        ds stats))) as G.
  { induction ds as [|d ds IH]; intros stats H; [exact H|].
    cbn [fold_left]. apply IH, tally_items_NoDup, H. }
  apply G. constructor.
Qed.

Lemma infer_field_types_keys (cfg : StorageDecisionConfig) (docs : list pyval) :
  dict_keys (infer_field_types cfg docs) = dict_keys (infer_stats docs).
Proof.
  unfold infer_field_types, dict_keys. rewrite map_map. reflexivity.
Qed.

Lemma key_stats_sample (k : str) (items : pydict) :
  forall init,
    match key_stats k items init, init with
    | Some s, Some s0 => sample s = sample s0
    | Some s, None => sample s = hd PNone (occurrences_in k items)
    | None, _ => init = None /\ occurrences_in k items = []
    end.
Proof.
  induction items as [|[k1 v1] items IH]; intros init.
  - destruct init; simpl; auto.
  - unfold key_stats, occurrences_in in *. cbn [fold_left filter fst snd].
    destruct (str_eqb k1 k).
    + specialize (IH (Some (tally v1 (match init with
                                      | Some s => s
                                      | None => fresh_stats v1
                                      end)))).
      destruct (fold_left _ items _) as [s|]; [|destruct IH; discriminate].
      destruct init; cbn [map hd snd]; exact IH.
    + apply IH.
Qed.

Lemma key_stats_absent (k : str) (items : pydict) (init : option field_stats) :
  occurrences_in k items = [] -> key_stats k items init = init.
Proof.
  unfold key_stats, occurrences_in. revert init.
  induction items as [|[k1 v1] items IH]; intros init H; [reflexivity|].
  cbn [fold_left filter fst snd] in *.
  destruct (str_eqb k1 k); [discriminate H | apply IH, H].
Qed.

Lemma infer_stats_entry (docs : list pyval) (k : str) :
  match dict_get k (infer_stats docs) with
  | Some s => counts s = length (occurrences k docs)
              /\ sample s = hd PNone (occurrences k docs)
              /\ occurrences k docs <> []
  | None => occurrences k docs = []
  end.
Proof.
  unfold infer_stats. rewrite infer_stats_get_fold. cbn [dict_get].
  pose proof (key_stats_sample k (concat (only_dicts docs)) None) as Hs.
  assert (KInt <> KOther) as HK by discriminate.
  pose proof (key_stats_counts k (concat (only_dicts docs)) HK None) as Hc.
  pose proof (@key_stats_absent k (concat (only_dicts docs)) None) as Ha.
  rewrite occurrences_concat in Hs, Hc, Ha. fold (occurrences k docs) in Hs, Hc, Ha.
  destruct (key_stats k (concat (only_dicts docs)) None) as [s|]; [|apply Hs].
  cbn zeta in Hc. destruct Hc as [_ Hc].
  repeat split; [exact Hc | exact Hs|].
  intros E. specialize (Ha E). discriminate Ha.
Qed.

(** X9: [infer_field_types] returns one entry per field name that occurs in
    a dict document, each name once; its count is the number of occurrences
    of the field and its example is the first value seen. *)
Theorem inferred_fields_are_the_occurring_keys
    (cfg : StorageDecisionConfig) (docs : list pyval) :
  NoDup (dict_keys (infer_field_types cfg docs))
  /\ (forall k, In k (dict_keys (infer_field_types cfg docs)) <-> occurrences k docs <> [])
  /\ (forall k ft,
         dict_get k (infer_field_types cfg docs) = Some ft ->
         ft_count ft = length (occurrences k docs)
         /\ ft_example ft = hd PNone (occurrences k docs)).
Proof.
  rewrite infer_field_types_keys. split; [apply infer_stats_NoDup|]. split.
  - intros k. pose proof (infer_stats_entry docs k) as H.
    rewrite <- dict_mem_keys. unfold dict_mem.
    destruct (dict_get k (infer_stats docs)).
    + split; [intros _; apply H | reflexivity].
    + split; [discriminate | intros N; contradiction].
  - intros k ft H. unfold infer_field_types in H.
    rewrite (dict_get_map (fun s => {| ft_type := decide_type cfg s;
                                        ft_example := sample s;
                                        ft_count := counts s |})) in H.
    pose proof (infer_stats_entry docs k) as Hs.
    destruct (dict_get k (infer_stats docs)) as [s|]; [|discriminate].
    injection H as <-. cbn [ft_count ft_example]. split; apply Hs.
Qed.

Lemma count_kinds_partition (vs : list pyval) :
  (count_kind KInt vs + count_kind KFloat vs + count_kind KBool vs
   + count_kind KDate vs + count_kind KObject vs + count_kind KArray vs
   + count_kind KOther vs = length vs)%nat.
Proof.
  unfold count_kind. induction vs as [|v vs IH]; [reflexivity|].
  cbn [filter length]. destruct (classify_value v); cbn [is_kind length]; lia.
Qed.

Lemma infer_stats_all_tallies (docs : list pyval) (k : str) (s : field_stats) :
  dict_get k (infer_stats docs) = Some s ->
  counts s = length (occurrences k docs)
  /\ st_int s = count_kind KInt (occurrences k docs)
  /\ st_float s = count_kind KFloat (occurrences k docs)
  /\ st_bool s = count_kind KBool (occurrences k docs)
  /\ st_date s = count_kind KDate (occurrences k docs)
  /\ st_object s = count_kind KObject (occurrences k docs)
  /\ st_array s = count_kind KArray (occurrences k docs).
Proof.
  intros H.
  assert (forall K, K <> KOther ->
                    stat_of K s = count_kind K (occurrences k docs)
                    /\ counts s = length (occurrences k docs)) as G
      by (intros K HK; apply (infer_stats_tallies docs k HK H)).
  repeat split;
    first [ apply (G KInt); discriminate | apply (G KFloat); discriminate
          | apply (G KBool); discriminate | apply (G KDate); discriminate
          | apply (G KObject); discriminate | apply (G KArray); discriminate ].
Qed.

(** X10: in the statistics of a field every occurrence is counted once and
    is tallied in at most one of the six categories: the tallies together
    never exceed the count, and the count is at least 1. *)
Theorem tallies_never_exceed_the_count (docs : list pyval) (k : str) (s : field_stats) :
  dict_get k (infer_stats docs) = Some s ->
  (st_int s + st_float s + st_bool s + st_date s + st_object s + st_array s
   <= counts s)%nat
  /\ (1 <= counts s)%nat.
Proof.
  intros H.
  destruct (infer_stats_all_tallies docs k H) as (Hc & Hi & Hf & Hb & Hd & Ho & Ha).
  pose proof (count_kinds_partition (occurrences k docs)) as P.
  pose proof (infer_stats_entry docs k) as E. rewrite H in E.
  destruct E as (_ & _ & Hne).
  split; [lia|]. rewrite Hc. destruct (occurrences k docs); [congruence | simpl; lia].
Qed.

Lemma count_kind_all (K : tally_kind) (vs : list pyval) :
  Forall (fun v => classify_value v = K) vs ->
  count_kind K vs = length vs
  /\ forall K', K' <> K -> count_kind K' vs = O.
Proof.
  unfold count_kind. induction 1 as [|v vs Hv Hvs [IH1 IH2]]; [split; reflexivity|].
  cbn [filter]. rewrite Hv. split.
  - destruct K; cbn [is_kind length]; rewrite IH1; reflexivity.
  - intros K' HK'. specialize (IH2 K' HK').
    destruct K, K'; cbn [is_kind]; try exact IH2; congruence.
Qed.

Lemma ratio_ge_full (n : nat) (t : Q) :
  (1 <= n)%nat -> Qle_bool t 1 = true -> ratio_ge n n t = true.
Proof.
  intros Hn Ht. unfold ratio_ge, ratio. unfold Qle_bool in *.
  cbn [Qnum Qden] in *. rewrite (ratio_den Hn).
  apply Z.leb_le. apply Z.leb_le in Ht. nia.
Qed.

Lemma ratio_ge_zero (n : nat) (t : Q) :
  Qle_bool t 0 = false -> ratio_ge O n t = false.
Proof.
  intros Ht. unfold ratio_ge, ratio. unfold Qle_bool in *.
  cbn [Qnum Qden Z.of_nat] in *.
  apply Z.leb_gt. apply Z.leb_gt in Ht. nia.
Qed.

(** X11: a field all of whose occurrences pass the integer test is typed
    [integer]; finite floats pass it (as integers and digit strings within
    the digit limit do), because [int] accepts them, so a column of values
    such as 1.5 is typed [integer] too. *)
Theorem all_integer_like_is_integer (docs : list pyval) (k : str) (ft : field_type) :
  dict_get k (infer_field_types CFG docs) = Some ft ->
  Forall (fun v => _is_int v = true) (occurrences k docs) ->
  ft_type ft = txt "integer"
  /\ forall q, _is_int (PFloat (Ffin q)) = true.
Proof.
  intros H Hall. split; [|reflexivity].
  unfold infer_field_types in H.
  rewrite (dict_get_map (fun s => {| ft_type := decide_type CFG s;
                                      ft_example := sample s;
                                      ft_count := counts s |})) in H.
  destruct (dict_get k (infer_stats docs)) as [s|] eqn:Hs; [|discriminate].
  injection H as <-. cbn [ft_type].
  destruct (infer_stats_all_tallies docs k Hs) as (Hc & Hi & Hf & Hb & Hd & Ho & Ha).
  assert (1 <= length (occurrences k docs))%nat as Hpos.
  { pose proof (infer_stats_entry docs k) as E. rewrite Hs in E.
    destruct E as (_ & _ & Hne).
    destruct (occurrences k docs); [congruence | simpl; lia]. }
  assert (Forall (fun v => classify_value v = KInt) (occurrences k docs)) as Hk.
  { eapply Forall_impl; [|exact Hall]. intros v Hv. unfold classify_value.
    rewrite Hv. reflexivity. }
  destruct (count_kind_all Hk) as [Hn Hz].
  unfold decide_type.
  rewrite Ho, Ha, Hd, Hi, Hc, Hn.
  rewrite (Hz KObject), (Hz KArray), (Hz KDate) by discriminate.
  cbn [Nat.ltb Nat.leb].
  rewrite ratio_ge_zero by reflexivity.
  rewrite ratio_ge_full; [reflexivity | exact Hpos | reflexivity].
Qed.
End InferMore.

(** ** The document-store and JSON-Schema generators *)

Lemma dict_set_fresh (V : Type) (k : str) (v : V) (d : dict V) :
  ~ In k (dict_keys d) -> dict_set k v d = d ++ [(k, v)].
Proof.
  induction d as [|[k0 v0] d IH]; intros H; [reflexivity|].
  cbn [dict_set]. simpl in H.
  destruct (str_eqb k k0) eqn:E.
  - apply str_eqb_eq in E. subst k0. tauto.
  - cbn [app]. rewrite IH by tauto. reflexivity.
Qed.

(** Assigning the entries of a dictionary one by one builds the dictionary
    of the images, in the same order. *)
Lemma fold_set_map (A V : Type) (g : A -> V) (l : dict A) :
  NoDup (dict_keys l) ->
  forall acc,
    (forall k, In k (dict_keys l) -> ~ In k (dict_keys acc)) ->
    fold_left (fun d km => dict_set (fst km) (g (snd km)) d) l acc
    = acc ++ map (fun km => (fst km, g (snd km))) l.
Proof.
  induction l as [|[k a] l IH]; intros Hd acc Hacc.
  - cbn [fold_left map]. rewrite app_nil_r. reflexivity.
  - inversion Hd as [|? ? Hn Hd']; subst.
    cbn [fold_left map fst snd].
    rewrite dict_set_fresh by (apply Hacc; left; reflexivity).
    rewrite IH; [rewrite <- app_assoc; reflexivity | exact Hd'|].
    intros k0 Hk0. unfold dict_keys. rewrite map_app, in_app_iff.
    intros [H|[<-|[]]]; [|exact (Hn Hk0)].
    apply (Hacc k0); [right; exact Hk0 | exact H].
Qed.

Section GeneratorFacts.
Context {U : UnicodeTables} {R : Runtime}.

(** X12: the properties of the document-store validator and of the JSON
    Schema are exactly the inferred fields, under their own names and in the
    same order, each with the property its inferred type maps to. *)
Theorem schema_properties_are_the_inferred_fields
    (cfg : StorageDecisionConfig) (name : str) (docs : list pyval) :
  validator_properties (generate_mongo_schema cfg name docs)
  = map (fun km => (fst km, mongo_property_of (ft_type (snd km))))
        (infer_field_types cfg docs)
  /\ schema_properties (generate_json_schema cfg docs)
     = map (fun km => (fst km, json_property_of (ft_type (snd km))))
           (infer_field_types cfg docs)
  /\ dict_keys (validator_properties (generate_mongo_schema cfg name docs))
     = dict_keys (infer_field_types cfg docs)
  /\ dict_keys (schema_properties (generate_json_schema cfg docs))
     = dict_keys (infer_field_types cfg docs).
Proof.
  assert (NoDup (dict_keys (infer_field_types cfg docs))) as Hd
      by (rewrite infer_field_types_keys; apply infer_stats_NoDup).
  assert (validator_properties (generate_mongo_schema cfg name docs)
          = map (fun km => (fst km, mongo_property_of (ft_type (snd km))))
                (infer_field_types cfg docs)) as Hm.
  { unfold generate_mongo_schema. cbn [validator_properties].
    rewrite (@fold_set_map _ _ (fun ft => mongo_property_of (ft_type ft)) _ Hd);
      [reflexivity | intros k _ []]. }
  assert (schema_properties (generate_json_schema cfg docs)
          = map (fun km => (fst km, json_property_of (ft_type (snd km))))
                (infer_field_types cfg docs)) as Hj.
  { unfold generate_json_schema. cbn [schema_properties].
    rewrite (@fold_set_map _ _ (fun ft => json_property_of (ft_type ft)) _ Hd);
      [reflexivity | intros k _ []]. }
  repeat split; [exact Hm | exact Hj | rewrite Hm | rewrite Hj];
    unfold dict_keys; rewrite map_map; reflexivity.
Qed.
End GeneratorFacts.

(** ** Column names of the SQLite sink *)

Section SafeColumnFacts.
Context {U : UnicodeTables}.

Lemma safe_colname_cases (name : str) :
  _safe_colname name
  = match colname name with
    | [] => txt "col"
    | c :: r => if is_digit_ascii c then txt "c_" ++ c :: r else c :: r
    end.
Proof.
  unfold _safe_colname, colname.
  destruct (lower (map (fun c => if is_key_char c then c else UNDERSCORE) name))
    as [|c r]; [reflexivity|].
  destruct (is_digit_ascii c); reflexivity.
Qed.

(** X13: a column name of the SQLite sink is never empty, is made of
    [a-z0-9_] and does not start with a digit; it is the column name of the
    generated DDL exactly when that one is not empty and does not start with a
    digit. *)
Theorem safe_colname_shape_and_agreement (name : str) :
  (exists c r, _safe_colname name = c :: r /\ is_digit_ascii c = false)
  /\ Forall (fun c => is_clean_key_char c = true) (_safe_colname name)
  /\ (_safe_colname name = colname name
      <-> exists c r, colname name = c :: r /\ is_digit_ascii c = false).
Proof.
  rewrite safe_colname_cases.
  pose proof (colname_chars name) as Hc.
  destruct (colname name) as [|c r].
  - split; [exists 99, (txt "ol"); split; reflexivity|].
    split; [repeat constructor|].
    split; [discriminate | intros (c & r & E & _); discriminate E].
  - destruct (is_digit_ascii c) eqn:D.
    + split; [exists 99, (txt "_" ++ c :: r); split; reflexivity|].
      split; [constructor; [reflexivity | constructor; [reflexivity | exact Hc]]|].
      split.
      * intros E. apply (f_equal (@length N)) in E. simpl in E. lia.
      * intros (c' & r' & E & D'). injection E as -> ->. congruence.
    + split; [exists c, r; split; [reflexivity | exact D]|].
      split; [exact Hc|].
      split; [intros _; exists c, r; split; [reflexivity | exact D] | reflexivity].
Qed.
End SafeColumnFacts.

(** ** Schema diff *)

Lemma set_eqb_refl (a : list str) : set_eqb a a = true.
Proof. apply set_eqb_iff. tauto. Qed.

(** X14: in a diff, the added names are exactly those of the new map that
    the old one lacks and the removed names those of the old map that the new
    one lacks, so no name is both; a type change is only reported for a name
    that both maps have; and the diff of a map (with distinct names) against
    itself is empty. *)
Theorem diff_reports_exactly_the_changes {O : SetOrder} :
  (forall old_map new_map k,
      (In k (added (compute_diff old_map new_map))
       <-> In k (dict_keys new_map) /\ ~ In k (dict_keys old_map))
      /\ (In k (removed (compute_diff old_map new_map))
          <-> In k (dict_keys old_map) /\ ~ In k (dict_keys new_map))
      /\ (In k (map tc_field (type_changes (compute_diff old_map new_map)))
          -> In k (dict_keys old_map) /\ In k (dict_keys new_map)))
  /\ (forall m, NoDup (dict_keys m) ->
                compute_diff m m = {| added := []; removed := []; type_changes := [] |}).
Proof.
  split.
  - intros old_map new_map k. unfold compute_diff. cbn [added removed type_changes].
    rewrite !filter_In, !negb_true_iff.
    assert (forall d : dict field_meta, dict_mem k d = false <-> ~ In k (dict_keys d)) as M.
    { intros d. rewrite <- dict_mem_keys. destruct (dict_mem k d); split; congruence. }
    rewrite !M. split; [tauto|]. split; [tauto|].
    rewrite in_map_iff. intros (tc & <- & Hin). apply in_flat_map in Hin.
    destruct Hin as ([k1 m1] & Hin & Htc). cbn [fst snd] in Htc.
    destruct (dict_get k1 old_map) as [old|] eqn:G; [|contradiction].
    destruct (set_eqb _ _); [contradiction|].
    destruct Htc as [<-|[]]. cbn [tc_field]. split.
    + apply dict_mem_keys. unfold dict_mem. rewrite G. reflexivity.
    + apply in_map_iff. exists (k1, m1). split; [reflexivity | exact Hin].
  - intros m Hd. unfold compute_diff. f_equal.
    + transitivity (filter (fun _ : str => false) (dict_keys m)); [|apply filter_false].
      apply filter_ext_in. intros k Hk. apply dict_mem_keys in Hk. rewrite Hk. reflexivity.
    + transitivity (filter (fun _ : str => false) (dict_keys m)); [|apply filter_false].
      apply filter_ext_in. intros k Hk. apply dict_mem_keys in Hk. rewrite Hk. reflexivity.
    + assert (forall l, (forall km, In km l -> In km m) ->
                flat_map (fun km =>
                   match dict_get (fst km) m with
                   | Some old =>
                       if set_eqb (dedup (fm_types old)) (dedup (fm_types (snd km)))
                       then []
                       else [{| tc_field := fst km;
                                tc_old := set_order (dedup (fm_types old));
                                tc_new := set_order (dedup (fm_types (snd km))) |}]
                   | None => []
                   end) l = []) as G.
      { induction l as [|[k1 m1] l IH]; intros Hl; [reflexivity|].
        cbn [flat_map fst snd].
        rewrite (dict_In_get k1 m1 m Hd (Hl _ (or_introl eq_refl))), set_eqb_refl.
        cbn [app]. apply IH. intros km Hkm. apply Hl. right. exact Hkm. }
      apply G. auto.
Qed.

Lemma diff_witness :
  compute_diff (O := first_seen_order)
               [(txt "x", _make_field_meta (txt "x") [txt "int"] (PInt 1) (txt "t0"))]
               [(txt "x", _make_field_meta (txt "x") [txt "int"] (PInt 1) (txt "t0"))]
  = {| added := []; removed := []; type_changes := [] |}.
Proof.
  apply (proj2 (@diff_reports_exactly_the_changes first_seen_order)).
  repeat constructor. intros [].
Defined.

(** ** Schema registry, continued *)

Lemma diff_added_iff {O : SetOrder} (old_map new_map : dict field_meta) (k : str) :
  In k (added (compute_diff old_map new_map))
  <-> In k (dict_keys new_map) /\ ~ In k (dict_keys old_map).
Proof.
  unfold compute_diff. cbn [added]. rewrite filter_In, negb_true_iff.
  rewrite <- (dict_mem_keys k old_map).
  destruct (dict_mem k old_map); intuition congruence.
Qed.

Section RegistryMore.
Context {D : Digest} {O : SetOrder}.

(** X15: the fields of the logical document [evolve_schema] returns have
    distinct names, and each has a count of at least 2 and a plausible
    name. *)
Theorem logical_fields_are_promoted
    (st : store) (env : call_env) (sid : option str) (docs : pyval) (fid : option str) :
  let m := fields_map (r_logical_doc (fst (evolve_schema st env sid docs fid))) in
  NoDup (dict_keys m)
  /\ Forall (fun km => exists c, fm_count (snd km) = Some c /\ (2 <= c)%Z
                                 /\ _is_plausible_field_name (fst km) = true) m.
Proof.
  cbv zeta. rewrite evolve_fields_map.
  set (merged := merge_maps _ _).
  split; [apply promote_NoDup|].
  apply Forall_forall. intros [k meta] Hin. cbn [fst snd].
  apply (dict_In_get _ _ _ (promote_NoDup merged)) in Hin.
  apply promote_entry in Hin. destruct Hin as [_ Hp].
  destruct (promotable_count _ _ Hp) as (c & Hc & Hge).
  exists c. repeat split; [exact Hc | exact Hge|].
  unfold promotable in Hp. apply andb_true_iff in Hp. apply Hp.
Qed.

(** X16: along a sequence of calls whose logical writes succeed, from the
    second call on the diff never lists a removed field, and it lists as added
    exactly the fields of the new logical document that the previous one did
    not have. *)
Theorem later_diffs_remove_nothing (calls : list (call_env * pyval * option str)) :
  forall (st : store) (sid : option str) (i : nat) (r1 r2 : evolve_result),
    Forall persisted calls ->
    nth_error (evolve_calls st sid calls) i = Some r1 ->
    nth_error (evolve_calls st sid calls) (S i) = Some r2 ->
    removed (r_diff r2) = []
    /\ forall k, In k (added (r_diff r2))
                 <-> In k (dict_keys (fields_map (r_logical_doc r2)))
                     /\ ~ In k (dict_keys (fields_map (r_logical_doc r1))).
Proof.
  induction calls as [|[[env docs] fid] calls IH]; intros st sid i r1 r2 Hok H1 H2.
  - destruct i; discriminate H1.
  - inversion Hok as [|? ? Hw Hok']; subst. unfold persisted in Hw. cbn [fst] in Hw.
    cbn [evolve_calls] in H1, H2.
    pose proof (@evolve_persists D O st env sid docs fid Hw) as Hp.
    pose proof (evolve_fields_map st env sid docs fid) as Hf.
    destruct (evolve_schema st env sid docs fid) as [r st'].
    cbn [fst snd] in Hp, Hf.
    destruct i as [|i]; [|cbn [nth_error] in H1, H2; exact (IH st' sid i r1 r2 Hok' H1 H2)].
    cbn [nth_error] in H1, H2. injection H1 as <-.
    destruct calls as [|[[env2 docs2] fid2] calls]; [discriminate H2|].
    cbn [evolve_calls] in H2.
    pose proof (evolve_fields_map st' env2 sid docs2 fid2) as Hf2.
    pose proof (evolve_diff st' env2 sid docs2 fid2) as Hd2.
    destruct (evolve_schema st' env2 sid docs2 fid2) as [r' st''].
    cbn [fst nth_error] in Hf2, Hd2, H2. injection H2 as <-.
    assert (stored_fields st' sid = fields_map (r_logical_doc r)) as Hs
        by (unfold stored_fields; rewrite Hp; reflexivity).
    rewrite Hs in Hd2, Hf2.
    assert (promoted_map (fields_map (r_logical_doc r))) as Hgood
        by (rewrite Hf; apply promote_is_promoted_map).
    destruct (promote_merge_grows
                (infer_schema (only_dicts (as_list docs2))) (now env2) Hgood)
      as [Hkeep _].
    rewrite <- Hf2 in Hkeep.
    rewrite Hd2. split.
    + unfold compute_diff. cbn [removed].
      transitivity (filter (fun _ : str => false)
                           (dict_keys (fields_map (r_logical_doc r))));
        [|apply filter_false].
      apply filter_ext_in. intros k Hk. apply dict_keys_get in Hk.
      destruct Hk as [m1 Hk]. destruct (Hkeep k m1 Hk) as (m2 & Hm2 & _).
      unfold dict_mem. rewrite Hm2. reflexivity.
    + intros k. apply diff_added_iff.
Qed.
End RegistryMore.

(** ** Structural inference *)

Lemma infer_items_keys (items : pydict) :
  forall props k,
    In k (dict_keys (fold_left infer_item items props))
    <-> In k (dict_keys props)
        \/ (In k (dict_keys items) /\ startswith_underscore k = false).
Proof.
  induction items as [|[k1 v1] items IH]; intros props k.
  - simpl. tauto.
  - cbn [fold_left]. rewrite IH. unfold infer_item.
    destruct (startswith_underscore k1) eqn:E.
    + simpl. split; [tauto|].
      intros [H|[[H|H] Hu]]; [tauto | congruence | tauto].
    + rewrite dict_keys_set. simpl. split.
      * intros [[->|H]|[H Hu]]; tauto.
      * intros [H|[[H|H] Hu]]; [tauto | subst k1; tauto | tauto].
Qed.

Lemma infer_items_NoDup (items : pydict) :
  forall props, NoDup (dict_keys props) ->
                NoDup (dict_keys (fold_left infer_item items props)).
Proof.
  induction items as [|[k1 v1] items IH]; intros props H; [exact H|].
  cbn [fold_left]. apply IH. unfold infer_item.
  destruct (startswith_underscore k1); [exact H | apply dict_set_NoDup, H].
Qed.

Lemma infer_docs_keys (ds : list pydict) :
  forall props,
    (NoDup (dict_keys props) ->
     NoDup (dict_keys (fold_left (fun props d => fold_left infer_item d props) ds props)))
    /\ forall k,
        In k (dict_keys (fold_left (fun props d => fold_left infer_item d props) ds props))
        <-> In k (dict_keys props)
            \/ (occurs_in_docs k ds /\ startswith_underscore k = false).
Proof.
  induction ds as [|d ds IH]; intros props.
  - cbn [fold_left]. split; [auto|]. intros k. split; [tauto|].
    intros [H|[(d & [] & _) _]]. exact H.
  - cbn [fold_left]. destruct (IH (fold_left infer_item d props)) as [IH1 IH2].
    split; [intros H; apply IH1, infer_items_NoDup, H|].
    intros k. rewrite IH2, infer_items_keys. unfold occurs_in_docs. split.
    + intros [[H|[H Hu]]|[(d' & Hd' & Hk) Hu]].
      * left. exact H.
      * right. split; [exists d; split; [left; reflexivity | exact H] | exact Hu].
      * right. split; [exists d'; split; [right; exact Hd' | exact Hk] | exact Hu].
    + intros [H|[(d' & [<-|Hd'] & Hk) Hu]].
      * left. left. exact H.
      * left. right. split; assumption.
      * right. split; [exists d'; split; assumption | exact Hu].
Qed.

Lemma finalize_types_keys {O : SetOrder} (props : dict property) :
  dict_keys (finalize_types props) = dict_keys props.
Proof.
  unfold finalize_types, dict_keys. rewrite map_map. reflexivity.
Qed.

(** X18: [infer_schema] has one property per field name that occurs in a
    document and does not start with an underscore: names are distinct, none
    starts with an underscore, and no other name is left out. *)
Theorem infer_schema_skips_meta_keys {O : SetOrder} (docs : list pydict) :
  NoDup (dict_keys (infer_schema docs))
  /\ forall k, In k (dict_keys (infer_schema docs))
               <-> occurs_in_docs k docs /\ startswith_underscore k = false.
Proof.
  unfold infer_schema. rewrite finalize_types_keys.
  destruct (infer_docs_keys docs []) as [G1 G2].
  split; [apply G1; constructor|].
  intros k. rewrite G2. simpl. tauto.
Qed.

(** ** Sorting by name *)

Lemma str_leb_total (a b : str) : str_leb a b = false -> str_leb b a = true.
Proof.
  revert b. induction a as [|x a IH]; intros [|y b]; simpl; try congruence.
  destruct (x <? y) eqn:L1; [discriminate|].
  destruct (y <? x) eqn:L2; [reflexivity|]. apply IH.
Qed.

Section SortFacts.
Variable A : Type.
Variable key : A -> str.

Lemma insert_sorted_perm (x : A) (l : list A) :
  Permutation (insert_sorted key x l) (x :: l).
Proof.
  induction l as [|y l IH]; [apply Permutation_refl|].
  cbn [insert_sorted]. destruct (str_leb (key y) (key x)).
  - apply perm_trans with (y :: x :: l); [apply perm_skip, IH | apply perm_swap].
  - apply Permutation_refl.
Qed.

Lemma insert_sorted_Sorted (x : A) (l : list A) :
  Sorted (key_le key) l -> Sorted (key_le key) (insert_sorted key x l).
Proof.
  induction 1 as [|y l Hs IH Hh]; [repeat constructor|].
  cbn [insert_sorted]. destruct (str_leb (key y) (key x)) eqn:E.
  - constructor; [exact IH|].
    destruct l as [|z l]; [constructor; exact E|].
    cbn [insert_sorted]. destruct (str_leb (key z) (key x)).
    + inversion Hh; subst. constructor. assumption.
    + constructor. exact E.
  - constructor; [constructor; assumption|].
    constructor. apply str_leb_total, E.
Qed.

Lemma sorted_by_spec (l : list A) :
  Sorted (key_le key) (sorted_by key l) /\ Permutation (sorted_by key l) l.
Proof.
  unfold sorted_by.
  assert (forall acc, Sorted (key_le key) acc ->
            Sorted (key_le key) (fold_left (fun acc x => insert_sorted key x acc) l acc)
            /\ Permutation (fold_left (fun acc x => insert_sorted key x acc) l acc)
                           (acc ++ l)) as G.
  { induction l as [|x l IH]; intros acc Hs.
    - cbn [fold_left]. rewrite app_nil_r. split; [exact Hs | apply Permutation_refl].
    - cbn [fold_left].
      destruct (IH (insert_sorted key x acc) (insert_sorted_Sorted x Hs)) as [H1 H2].
      split; [exact H1|].
      apply perm_trans with (insert_sorted key x acc ++ l); [exact H2|].
      apply perm_trans with ((x :: acc) ++ l);
        [apply Permutation_app_tail, insert_sorted_perm|].
      cbn [app]. apply Permutation_middle. }
  destruct (G [] (Sorted_nil _)) as [H1 H2]. split; assumption.
Qed.
End SortFacts.

Lemma dict_set_In_key (V : Type) (k k0 : str) (v v0 : V) (d : dict V) :
  In (k0, v0) (dict_set k v d) -> (k0 = k /\ v0 = v) \/ In (k0, v0) d.
Proof.
  induction d as [|[k1 v1] d IH]; simpl.
  - intros [E|[]]. injection E as <- <-. left. split; reflexivity.
  - destruct (str_eqb k k1) eqn:K; simpl.
    + apply str_eqb_eq in K. subst k1.
      intros [E|H]; [injection E as <- <-; left; split; reflexivity | right; right; exact H].
    + intros [E|H]; [right; left; exact E|].
      destruct (IH H) as [H'|H']; [left; exact H' | right; right; exact H'].
Qed.

Lemma properties_to_fields_map_entry (props : dict property) (t k : str) (m : field_meta) :
  In (k, m) (_properties_to_fields_map props t) ->
  exists p, In (k, p) props /\ m = _make_field_meta k (p_types p) (p_example p) t.
Proof.
  unfold _properties_to_fields_map.
  assert (forall acc : dict field_meta,
             In (k, m) (fold_left
                          (fun out kp =>
                             dict_set (fst kp)
                                      (_make_field_meta (fst kp) (p_types (snd kp))
                                                        (p_example (snd kp)) t) out)
                          props acc) ->
             In (k, m) acc
             \/ exists p, In (k, p) props
                          /\ m = _make_field_meta k (p_types p) (p_example p) t) as G.
  { induction props as [|[k1 p1] props IH]; intros acc H; [left; exact H|].
    cbn [fold_left fst snd] in H. apply IH in H. destruct H as [H|(p & Hp & E)].
    - apply dict_set_In_key in H. destruct H as [[-> ->]|H]; [|left; exact H].
      right. exists p1. split; [left; reflexivity | reflexivity].
    - right. exists p. split; [right; exact Hp | exact E]. }
  intros H. destruct (G [] H) as [[]|H']. exact H'.
Qed.

Lemma properties_to_fields_map_eq (props : dict property) (t : str) :
  NoDup (dict_keys props) ->
  _properties_to_fields_map props t
  = map (fun kp => (fst kp, _make_field_meta (fst kp) (p_types (snd kp))
                                             (p_example (snd kp)) t)) props.
Proof.
  unfold _properties_to_fields_map.
  assert (forall (l : dict property) (acc : dict field_meta),
             NoDup (dict_keys l) ->
             (forall k, In k (dict_keys l) -> ~ In k (dict_keys acc)) ->
             fold_left (fun out kp =>
                          dict_set (fst kp)
                                   (_make_field_meta (fst kp) (p_types (snd kp))
                                                     (p_example (snd kp)) t) out)
                       l acc
             = acc ++ map (fun kp => (fst kp, _make_field_meta (fst kp) (p_types (snd kp))
                                                              (p_example (snd kp)) t)) l)
    as G.
  { induction l as [|[k p] l IH]; intros acc Hd Hacc.
    - cbn [fold_left map]. rewrite app_nil_r. reflexivity.
    - inversion Hd as [|? ? Hn Hd']; subst. cbn [fold_left map fst snd].
      rewrite dict_set_fresh by (apply Hacc; left; reflexivity).
      rewrite IH; [rewrite <- app_assoc; reflexivity | exact Hd'|].
      intros k0 Hk0. unfold dict_keys. rewrite map_app, in_app_iff.
      intros [H|[<-|[]]]; [|exact (Hn Hk0)].
      apply (Hacc k0); [right; exact Hk0 | exact H]. }
  intros Hd. rewrite (G props [] Hd); [reflexivity | intros k _ []].
Qed.

Section Listings.
Context {D : Digest} {O : SetOrder}.

(** X21: the instance document lists one entry per inferred property:
    each has count 1, first and last seen at the time of the call, the type
    tags and the example of the property, and a name that does not start
    with an underscore. *)
Theorem instance_fields_are_fresh
    (st : store) (env : call_env) (sid : option str) (docs : pyval) (fid : option str) :
  let doc := r_instance_doc (fst (evolve_schema st env sid docs fid)) in
  properties doc = infer_schema (only_dicts (as_list docs))
  /\ length (i_fields doc) = length (properties doc)
  /\ Forall (fun m =>
               exists k p,
                 In (k, p) (properties doc)
                 /\ startswith_underscore k = false
                 /\ m = {| fm_name := Some k;
                           fm_types := sorted_set (p_types p);
                           fm_count := Some 1%Z;
                           fm_first_seen := Some (now env);
                           fm_last_seen := Some (now env);
                           fm_example := p_example p |})
            (i_fields doc).
Proof.
  cbv zeta.
  set (props := infer_schema (only_dicts (as_list docs))).
  assert (properties (r_instance_doc (fst (evolve_schema st env sid docs fid))) = props
          /\ i_fields (r_instance_doc (fst (evolve_schema st env sid docs fid)))
             = _fields_map_to_doc (_properties_to_fields_map props (now env))) as [Hp Hf].
  { unfold evolve_schema.
    destruct (instance_write env), (logical_write env); split; reflexivity. }
  rewrite Hp, Hf. unfold _fields_map_to_doc.
  destruct (sorted_by_spec (@fst str field_meta)
              (_properties_to_fields_map props (now env))) as [_ Hperm].
  assert (NoDup (dict_keys props)
          /\ forall k, In k (dict_keys props) -> startswith_underscore k = false)
    as [Hnd Hkeys].
  { unfold props, infer_schema. rewrite finalize_types_keys.
    destruct (infer_docs_keys (only_dicts (as_list docs)) []) as [G1 G2].
    split; [apply G1; constructor|].
    intros k Hk. apply G2 in Hk. destruct Hk as [[]|[_ Hu]]. exact Hu. }
  split; [reflexivity|]. split.
  - rewrite length_map, (Permutation_length Hperm).
    rewrite properties_to_fields_map_eq by exact Hnd.
    apply length_map.
  - apply Forall_forall. intros m Hm. apply in_map_iff in Hm.
    destruct Hm as ([k m'] & <- & Hin). cbn [snd].
    apply (Permutation_in _ Hperm) in Hin.
    apply properties_to_fields_map_entry in Hin. destruct Hin as (p & Hp' & ->).
    exists k, p. split; [exact Hp'|]. split; [|reflexivity].
    assert (In k (dict_keys props)) as Hk
        by (apply in_map_iff; exists (k, p); split; [reflexivity | exact Hp']).
    apply Hkeys, Hk.
Qed.
End Listings.

(** ** Normalization *)

Section TransformFacts.
Context {U : UnicodeTables} {R : Runtime} {V : Conversions}.
Variable fields : dict field_meta.

Lemma transform_item_extras (acc : pydict * pydict) (kv : str * pyval) :
  snd (transform_item fields acc kv)
  = match dict_get (fst kv) fields with
    | Some _ => snd acc
    | None => dict_set (fst kv) (snd kv) (snd acc)
    end.
Proof.
  unfold transform_item. destruct acc as [out extras].
  destruct (dict_get (fst kv) fields) as [meta|]; [|reflexivity].
  destruct (chosen_type (fm_types meta)); reflexivity.
Qed.

Lemma transform_item_out_keys (acc : pydict * pydict) (kv : str * pyval) (k : str) :
  In k (dict_keys (fst (transform_item fields acc kv)))
  <-> In k (dict_keys (fst acc)) \/ (k = fst kv /\ dict_get (fst kv) fields <> None).
Proof.
  unfold transform_item. destruct acc as [out extras]. cbn [fst].
  destruct (dict_get (fst kv) fields) as [meta|].
  - destruct (chosen_type (fm_types meta)); cbn [fst]; rewrite dict_keys_set;
      intuition congruence.
  - cbn [fst]. intuition congruence.
Qed.

Lemma transform_extras_stable (d : pydict) :
  forall acc k,
    ~ In k (dict_keys d) ->
    dict_get k (snd (fold_left (transform_item fields) d acc)) = dict_get k (snd acc).
Proof.
  induction d as [|[k1 v1] d IH]; intros acc k H; [reflexivity|].
  cbn [fold_left]. simpl in H. rewrite IH by tauto.
  rewrite transform_item_extras. cbn [fst snd].
  destruct (dict_get k1 fields); [reflexivity|].
  rewrite dict_get_set.
  destruct (str_eqb k k1) eqn:E; [|reflexivity].
  apply str_eqb_eq in E. subst k1. tauto.
Qed.

Lemma transform_extras_get (d : pydict) :
  forall acc k v,
    NoDup (dict_keys d) -> In (k, v) d -> dict_get k fields = None ->
    dict_get k (snd (fold_left (transform_item fields) d acc)) = Some v.
Proof.
  induction d as [|[k1 v1] d IH]; intros acc k v Hd Hin Hk; [contradiction|].
  inversion Hd as [|? ? Hn Hd']; subst. cbn [fold_left].
  destruct Hin as [E|Hin].
  - injection E as -> ->. rewrite transform_extras_stable by exact Hn.
    rewrite transform_item_extras. cbn [fst snd]. rewrite Hk.
    rewrite dict_get_set, str_eqb_refl. reflexivity.
  - apply (IH _ k v Hd' Hin Hk).
Qed.

Lemma transform_out_keys (d : pydict) :
  forall acc k,
    In k (dict_keys (fst (fold_left (transform_item fields) d acc)))
    <-> In k (dict_keys (fst acc)) \/ (In k (dict_keys d) /\ dict_get k fields <> None).
Proof.
  induction d as [|[k1 v1] d IH]; intros acc k.
  - simpl. tauto.
  - cbn [fold_left]. rewrite IH, transform_item_out_keys. simpl. split.
    + intros [[H|[-> H]]|[H1 H2]]; tauto.
    + intros [H|[[->|H1] H2]]; tauto.
Qed.
End TransformFacts.

Section TransformTheorems.
Context {U : UnicodeTables} {R : Runtime} {V : Conversions}.

(** X22: normalization loses no field of a document: a field the logical
    schema knows stays at the top level under its name, a field it does not
    know is kept with its value unchanged under [_extra]; the result always
    carries the time stamp, and anything that is not a dict is wrapped under
    [_raw]. *)
Theorem normalization_keeps_every_field
    (stamp : str) (d : pydict) (logical : option logical_doc) :
  NoDup (dict_keys d) ->
  let out := transform_doc_best_effort stamp (PDict d) logical in
  dict_get (txt "_normalized_at") out = Some (PStr stamp)
  /\ (forall k, In k (dict_keys d) ->
                dict_get k (fields_of_logical logical) <> None ->
                In k (dict_keys out))
  /\ (forall k v, In (k, v) d ->
                  dict_get k (fields_of_logical logical) = None ->
                  exists extras, dict_get (txt "_extra") out = Some (PDict extras)
                                 /\ dict_get k extras = Some v)
  /\ (forall doc, is_dict doc = false ->
                  transform_doc_best_effort stamp doc logical = [(txt "_raw", doc)]).
Proof.
  intros Hd. cbv zeta. unfold transform_doc_best_effort.
  fold (fields_of_logical logical). set (fields := fields_of_logical logical).
  pose proof (transform_out_keys fields d ([], [])) as Hkeys.
  pose proof (fun k v => @transform_extras_get _ _ _ fields d ([], []) k v Hd) as Hextra.
  destruct (fold_left (transform_item fields) d ([], [])) as [out extras].
  cbn [fst snd] in Hkeys, Hextra.
  split; [rewrite dict_get_set, str_eqb_refl; reflexivity|]. split; [|split].
  - intros k Hk Hf. rewrite dict_keys_set. right.
    assert (In k (dict_keys out)) as Ho by (apply Hkeys; right; split; assumption).
    destruct extras; [exact Ho|]. rewrite dict_keys_set. right. exact Ho.
  - intros k v Hin Hf. specialize (Hextra k v Hin Hf).
    exists extras. split; [|exact Hextra].
    destruct extras as [|e extras]; [discriminate Hextra|].
    rewrite !dict_get_set. reflexivity.
  - intros doc Hdoc. destruct doc; try reflexivity. discriminate Hdoc.
Qed.
End TransformTheorems.

Section TransformFresh.
Context {U : UnicodeTables} {R : Runtime} {V : Conversions} {D : Digest} {O : SetOrder}.

Lemma transform_unknown_fold (d : pydict) :
  forall out extras,
    fold_left (transform_item []) d (out, extras)
    = (out, fold_left (fun e kv => dict_set (fst kv) (snd kv) e) d extras).
Proof.
  induction d as [|kv d IH]; intros out extras; [reflexivity|].
  cbn [fold_left]. unfold transform_item at 2. cbn [dict_get]. apply IH.
Qed.

(** X23: for a source with nothing promoted, normalizing a record against
    the logical document [evolve_schema] has just returned moves the whole
    record, unchanged, under [_extra]. *)
Theorem fresh_source_normalizes_into_extra
    (st : store) (env : call_env) (sid : option str) (docs : pyval) (fid : option str)
    (stamp : str) (d : pydict) :
  nothing_promoted st sid ->
  NoDup (dict_keys d) -> d <> [] ->
  transform_doc_best_effort stamp (PDict d)
    (Some (r_logical_doc (fst (evolve_schema st env sid docs fid))))
  = [(txt "_extra", PDict d); (txt "_normalized_at", PStr stamp)].
Proof.
  intros H0 Hd Hne. unfold transform_doc_best_effort.
  rewrite (proj1 (evolve_promotes_nothing env docs fid H0)).
  rewrite transform_unknown_fold.
  rewrite (@fold_set_map _ _ (fun v : pyval => v) d Hd []) by (intros k _ []).
  cbn [app]. replace (map (fun km : str * pyval => (fst km, snd km)) d) with d
    by (rewrite <- (map_id d) at 1; apply map_ext; intros []; reflexivity).
  destruct d as [|kv d]; [congruence | reflexivity].
Qed.
End TransformFresh.

(** ** Candidate documents *)

(** X24: an upload that only yields raw text gives one candidate document
    whose only key, [_text], is a meta key: structural inference finds no
    property in it, and the storage decision is [object]. *)
Theorem text_only_upload_has_no_fields {O : SetOrder} (fr : fragments) :
  json_fragments fr = [] -> kv_pairs fr = [] -> no_tables fr -> raw_text fr <> [] ->
  candidate_docs fr = [PDict [(txt "_text", PStr (firstn 500 (raw_text fr)))]]
  /\ infer_schema (only_dicts (candidate_docs fr)) = []
  /\ detect_storage_type CFG (candidate_docs fr) fr
     = (txt "object", txt "no consistent tabular structure detected").
Proof.
  intros Hj Hk [Hc Hh] Hr.
  assert (candidate_docs fr = [PDict [(txt "_text", PStr (firstn 500 (raw_text fr)))]])
    as E.
  { unfold candidate_docs. rewrite Hj, Hk. cbn [map app].
    destruct (raw_text fr); [congruence | reflexivity]. }
  rewrite E. split; [reflexivity|]. split; [reflexivity|].
  unfold detect_storage_type. rewrite Hc, Hh. reflexivity.
Qed.

(** ** Brace blocks, continued *)

Lemma brace_scan_skips (pre : str) :
  forall s, ~ In LBRACE pre -> brace_scan O [] (pre ++ s) = brace_scan O [] s.
Proof.
  induction pre as [|ch pre IH]; intros s Hn; [reflexivity|].
  cbn [app brace_scan].
  destruct (ch =? LBRACE) eqn:E.
  - apply N.eqb_eq in E. exfalso. apply Hn. left. exact E.
  - assert (~ In LBRACE pre) as Hn' by (intros H; apply Hn; right; exact H).
    destruct (ch =? RBRACE); apply IH; exact Hn'.
Qed.

Lemma brace_scan_body (body : str) :
  forall d cur s d',
    stays_open (S d) body = Some d' ->
    exists d'', d' = S d''
      /\ brace_scan (S d) cur (body ++ s) = brace_scan d' (rev body ++ cur) s.
Proof.
  induction body as [|ch body IH]; intros d cur s d' H.
  - cbn [stays_open] in H. injection H as <-. exists d. split; reflexivity.
  - cbn [stays_open] in H. cbn [app brace_scan rev].
    rewrite <- app_assoc. cbn [app].
    destruct (ch =? LBRACE).
    + apply (IH (S d) (ch :: cur) s d' H).
    + destruct (ch =? RBRACE).
      * destruct d as [|d]; [discriminate H|]. apply (IH d (ch :: cur) s d' H).
      * apply (IH d (ch :: cur) s d' H).
Qed.

Lemma brace_scan_block (pre f rest : str) :
  ~ In LBRACE pre -> brace_block f ->
  brace_scan O [] (pre ++ f ++ rest) = f :: brace_scan O [] rest.
Proof.
  intros Hpre (body & -> & Hb).
  rewrite brace_scan_skips by exact Hpre.
  cbn [app brace_scan]. rewrite N.eqb_refl. rewrite <- app_assoc.
  destruct (@brace_scan_body body O [LBRACE] ([RBRACE] ++ rest) 1%nat Hb) as (d'' & Hd & ->).
  injection Hd as <-.
  cbn [app brace_scan].
  replace (RBRACE =? LBRACE) with false by reflexivity. rewrite N.eqb_refl.
  cbn [rev]. rewrite rev_app_distr, rev_involutive. reflexivity.
Qed.

(** X25: text before the first opening brace is skipped, a complete block is
    returned whole, and the scan goes on after it; so a text that is one
    block is returned as its only fragment. *)
Theorem blocks_are_extracted_in_order (pre f rest : str) :
  ~ In LBRACE pre -> brace_block f ->
  _extract_brace_jsons (pre ++ f ++ rest) = f :: _extract_brace_jsons rest.
Proof. apply brace_scan_block. Qed.

Lemma blocks_are_extracted_witness :
  _extract_brace_jsons (txt "id} {a{b}} {c}") = [txt "{a{b}}"; txt "{c}"].
Proof.
  change (txt "id} {a{b}} {c}") with (txt "id} " ++ txt "{a{b}}" ++ txt " {c}").
  rewrite (@blocks_are_extracted_in_order (txt "id} ") (txt "{a{b}}") (txt " {c}")).
  - reflexivity.
  - simpl. intros H. repeat (destruct H as [H|H]; try discriminate H). exact H.
  - exists (txt "a{b}"). split; reflexivity.
Defined.

Lemma brace_block_trimmed (f : str) : brace_block f -> strip f = f.
Proof.
  intros (body & -> & _). unfold strip, lstrip, rstrip.
  rewrite (dropwhile_fixed is_space (LBRACE :: body ++ [RBRACE])) by reflexivity.
  change (LBRACE :: body ++ [RBRACE]) with ((LBRACE :: body) ++ [RBRACE]).
  rewrite rev_app_distr. cbn [rev app].
  rewrite (dropwhile_fixed is_space (RBRACE :: _)) by reflexivity.
  cbn [rev]. rewrite rev_app_distr, rev_involutive. reflexivity.
Qed.

Section WholeObject.
Context {U : UnicodeTables} {C : Collaborators}.

(** X26: a text that [json.loads] reads as an object, and that is one
    brace block for the scanner, is reported twice by
    [extract_json_fragments]: once as the whole text and once more as its own
    block. The scanner counts every brace, those inside string literals too,
    so an object with an unbalanced brace in a string is not such a text. *)
Theorem whole_object_is_reported_twice (text : str) (d : pydict) :
  brace_block text -> json_loads text = Some (PDict d) ->
  extract_json_fragments text = [d; d].
Proof.
  intros Hb Hj. unfold extract_json_fragments, _extract_brace_jsons.
  pose proof (@brace_scan_block [] text [] (fun H => H) Hb) as E.
  cbn [app] in E. rewrite app_nil_r in E. rewrite E.
  unfold try_parse_json. cbn [brace_scan flat_map].
  rewrite (brace_block_trimmed Hb), Hj. reflexivity.
Qed.
End WholeObject.

Lemma whole_object_witness :
  extract_json_fragments (C := empty_object_collaborators) (txt "{}") = [[]; []].
Proof.
  apply (whole_object_is_reported_twice (C := empty_object_collaborators)).
  - exists []. split; reflexivity.
  - reflexivity.
Defined.

(** ** The conditional properties at concrete inputs *)

Lemma inferred_fields_witness :
  exists ft,
    dict_get (txt "x")
      (infer_field_types (U := ascii_tables) (R := no_dates_runtime) CFG
         [PDict [(txt "x", PInt 1)]; PDict [(txt "x", PInt 2)]]) = Some ft
    /\ ft_count ft = 2%nat /\ ft_example ft = PInt 1.
Proof.
  eexists. split; [vm_compute; reflexivity|].
  apply (proj2 (proj2 (@inferred_fields_are_the_occurring_keys
                         ascii_tables no_dates_runtime CFG
                         [PDict [(txt "x", PInt 1)]; PDict [(txt "x", PInt 2)]]))
           (txt "x")).
  vm_compute. reflexivity.
Defined.

Lemma tallies_witness :
  exists s,
    dict_get (txt "x")
      (infer_stats (U := ascii_tables) (R := no_dates_runtime)
         [PDict [(txt "x", PInt 1)]; PDict [(txt "x", PStr (txt "abc"))]]) = Some s
    /\ (st_int s + st_float s + st_bool s + st_date s + st_object s + st_array s
        <= counts s)%nat
    /\ (1 <= counts s)%nat.
Proof.
  eexists. split; [vm_compute; reflexivity|].
  apply (@tallies_never_exceed_the_count ascii_tables no_dates_runtime
           [PDict [(txt "x", PInt 1)]; PDict [(txt "x", PStr (txt "abc"))]] (txt "x")).
  vm_compute. reflexivity.
Defined.

Lemma all_integer_like_witness :
  exists ft,
    dict_get (txt "x")
      (infer_field_types (U := ascii_tables) (R := no_dates_runtime) CFG
         [PDict [(txt "x", PFloat (Ffin (3 # 2)))]; PDict [(txt "x", PStr (txt "7"))]])
    = Some ft
    /\ ft_type ft = txt "integer".
Proof.
  eexists. split; [vm_compute; reflexivity|].
  apply (@all_integer_like_is_integer ascii_tables no_dates_runtime
           [PDict [(txt "x", PFloat (Ffin (3 # 2)))]; PDict [(txt "x", PStr (txt "7"))]]
           (txt "x")).
  - vm_compute. reflexivity.
  - vm_compute. repeat constructor.
Defined.

Lemma later_diffs_witness :
  exists r1 r2,
    let results :=
      evolve_calls (D := plain_digest) (O := first_seen_order) seeded_store
        (Some (txt "src"))
        [(ok_env (txt "t1"), scenario_D_docs, None);
         (ok_env (txt "t2"), scenario_D_docs, None)] in
    nth_error results 0 = Some r1 /\ nth_error results 1 = Some r2
    /\ removed (r_diff r2) = [].
Proof.
  eexists. eexists. cbv zeta.
  split; [vm_compute; reflexivity|].
  split; [vm_compute; reflexivity|].
  refine (proj1 (@later_diffs_remove_nothing plain_digest first_seen_order
                  [(ok_env (txt "t1"), scenario_D_docs, None);
                   (ok_env (txt "t2"), scenario_D_docs, None)]
                  seeded_store (Some (txt "src")) 0 _ _ _ _ _)).
  - repeat constructor.
  - vm_compute. reflexivity.
  - vm_compute. reflexivity.
Defined.

Lemma normalization_witness :
  let d := [(txt "x", PInt 5); (txt "note", PStr (txt "hi"))] in
  let out := transform_doc_best_effort (U := ascii_tables) (R := no_dates_runtime)
               (V := number_conversions) (txt "t") (PDict d) None in
  NoDup (dict_keys d)
  /\ dict_get (txt "_normalized_at") out = Some (PStr (txt "t"))
  /\ exists extras, dict_get (txt "_extra") out = Some (PDict extras)
                    /\ dict_get (txt "note") extras = Some (PStr (txt "hi")).
Proof.
  cbv zeta.
  assert (NoDup (dict_keys [(txt "x", PInt 5); (txt "note", PStr (txt "hi"))])) as Hd.
  { repeat constructor; simpl; intros H;
      repeat (destruct H as [H|H]; try discriminate H); exact H. }
  split; [exact Hd|].
  pose proof (@normalization_keeps_every_field ascii_tables no_dates_runtime
                number_conversions (txt "t")
                [(txt "x", PInt 5); (txt "note", PStr (txt "hi"))] None Hd) as T.
  cbv zeta in T. destruct T as (T1 & _ & T3 & _).
  split; [exact T1|].
  apply (T3 (txt "note") (PStr (txt "hi"))).
  - simpl. right. left. reflexivity.
  - reflexivity.
Defined.

Lemma fresh_source_witness :
  transform_doc_best_effort (U := ascii_tables) (R := no_dates_runtime)
    (V := number_conversions) (txt "t") (PDict [(txt "x", PInt 1)])
    (Some (r_logical_doc
             (fst (evolve_schema (D := plain_digest) (O := first_seen_order) []
                     (ok_env (txt "t0")) (Some (txt "src")) scenario_D_docs None))))
  = [(txt "_extra", PDict [(txt "x", PInt 1)]); (txt "_normalized_at", PStr (txt "t"))].
Proof.
  apply (@fresh_source_normalizes_into_extra ascii_tables no_dates_runtime
           number_conversions plain_digest first_seen_order [] (ok_env (txt "t0"))
           (Some (txt "src")) scenario_D_docs None (txt "t") [(txt "x", PInt 1)]).
  - reflexivity.
  - repeat constructor. simpl. intros [].
  - discriminate.
Defined.

Lemma text_only_upload_witness :
  let fr := {| json_fragments := []; html_tables := []; csv_fragments := [];
               kv_pairs := []; raw_text := txt "hello world" |} in
  infer_schema (O := first_seen_order) (only_dicts (candidate_docs fr)) = []
  /\ detect_storage_type CFG (candidate_docs fr) fr
     = (txt "object", txt "no consistent tabular structure detected").
Proof.
  cbv zeta.
  apply (@text_only_upload_has_no_fields first_seen_order
           {| json_fragments := []; html_tables := []; csv_fragments := [];
              kv_pairs := []; raw_text := txt "hello world" |}).
  - reflexivity.
  - reflexivity.
  - split; reflexivity.
  - discriminate.
Defined.
